(** * Fork-join primitives of ATen's native parallel backend

    A shallow embedding of

    - [aten/src/ATen/Parallel_native.h]: the templates [parallel_for] and
      [parallel_reduce];
    - [aten/src/ATen/Parallel_threadpool_native.cpp]: the inter-op pool
      ([set_num_interop_threads], [get_num_interop_threads], [launch]).

    Machine integers are mathematical integers with the wrap-around of
    every conversion written out.  The fork-join part of the two templates
    is a small-step machine whose atomic steps are the program points of
    the source; a schedule (a list of actions) picks the interleaving. *)

From Stdlib Require Import ZArith List Lia Bool String.
From stdpp Require Import base list.
Import ListNotations.

Local Open Scope Z_scope.

(** ** 64-bit and 32-bit integers *)

Module Int.

Definition two64 : Z := 2 ^ 64.
Definition INT64_MAX : Z := 2 ^ 63 - 1.
Definition INT64_MIN : Z := - 2 ^ 63.
Definition INT_MAX : Z := 2 ^ 31 - 1.

(** Conversion to [size_t]: reduction modulo [2^64]. *)
Definition to_size_t (z : Z) : Z := z mod two64.

(** Conversion to [int64_t]: the representative in [-2^63, 2^63). *)
Definition to_int64 (z : Z) : Z := (z + 2 ^ 63) mod two64 - 2 ^ 63.

(** Conversion to [int]: the representative in [-2^31, 2^31). *)
Definition to_int (z : Z) : Z := (z + 2 ^ 31) mod 2 ^ 32 - 2 ^ 31.

Definition is_int64 (z : Z) : Prop := INT64_MIN <= z <= INT64_MAX.
Definition is_size_t (z : Z) : Prop := 0 <= z < two64.

End Int.

Import Int.

(** ** Chunk planning (Parallel_native.h, lines 44-49, 75-77, 89) *)

Module Plan.

(** Modelled from the spec: [divup] is declared in [ATen/Parallel.h], which
    is not part of the sources at hand; the spec describes it as the
    ceiling of [x / y].  For [0 < y] the quotient below is that ceiling. *)
Definition divup (x y : Z) : Z := (x + y - 1) / y.

Section Planner.

(** [get_num_threads()], whose definition is outside these sources. *)
Variable num_threads : Z.

Variables begin end_ grain_size : Z.

(** [end - begin] in [int64_t]. *)
Definition span : Z := to_int64 (end_ - begin).

(** Line 44, first conjunct: [(end - begin) >= grain_size]. *)
Definition large_enough : bool := grain_size <=? span.

(** Lines 46-48: [chunk_size = max((size_t)grain_size, divup(end - begin,
    get_num_threads()))], a [size_t]. *)
Definition chunk_size : Z :=
  Z.max (to_size_t grain_size) (to_size_t (divup span (to_int64 num_threads))).

(** Line 49: [num_tasks = divup(end - begin, chunk_size)], a [size_t];
    [divup] takes its arguments as [int64_t]. *)
Definition num_tasks : Z := to_size_t (divup span (to_int64 chunk_size)).

(** Line 75: [int64_t local_start = begin + task_id * chunk_size], computed
    in [size_t] and converted back. *)
Definition local_start (task_id : Z) : Z :=
  to_int64 (to_size_t (to_size_t begin + to_size_t (task_id * chunk_size))).

(** Lines 77 and 89: [std::min(end, (int64_t)(chunk_size + start))]. *)
Definition clip_end (start : Z) : Z :=
  Z.min end_ (to_int64 (to_size_t (chunk_size + to_size_t start))).

Definition local_end (task_id : Z) : Z := clip_end (local_start task_id).

(** Line 89. *)
Definition first_task_end : Z := clip_end begin.

(** Line 76: the test [local_start < end] that selects between dispatching
    the chunk and completing its future at once. *)
Definition dispatches (task_id : Z) : bool := local_start task_id <? end_.

(** The index range handed to the body for chunk [task_id]: chunk 0 is
    [task(0, begin, first_task_end)], the others come from the loop. *)
Definition chunk (task_id : nat) : Z * Z :=
  match task_id with
  | O => (begin, first_task_end)
  | S _ => (local_start (Z.of_nat task_id), local_end (Z.of_nat task_id))
  end.

End Planner.

End Plan.

(** ** The fork-join engine (Parallel_native.h, lines 51-99 and 125-175) *)

Module Engine.

Definition thread := nat.

(** What a [catch (...)] can catch. *)
Inductive exception :=
| runtime_error (what : string)
| body_error (tag : Z).

Inductive outcome (R : Type) :=
| Ok (r : R)
| Raise (x : exception).
Arguments Ok {R} r.
Arguments Raise {R} x.

(** Modelled from the spec: the thread-local state behind
    [in_parallel_region()], [_set_in_parallel_region], [_set_thread_num] and
    [_unset_thread_num], which the header only declares.  The spec's
    RegionContext is a flag, false by default, and an optional thread
    number, unset by default. *)
Record RegionContext := {
  in_parallel_region : bool;
  thread_num : option Z
}.

Definition idle_context : RegionContext :=
  {| in_parallel_region := false; thread_num := None |}.

Definition _set_in_parallel_region (b : bool) (c : RegionContext) :=
  {| in_parallel_region := b; thread_num := thread_num c |}.

Definition _set_thread_num (k : Z) (c : RegionContext) :=
  {| in_parallel_region := in_parallel_region c; thread_num := Some k |}.

Definition _unset_thread_num (c : RegionContext) :=
  {| in_parallel_region := in_parallel_region c; thread_num := None |}.

(** Lines 55-56 (131-132): the first two statements of the [task] lambda. *)
Definition task_prologue (task_id : nat) (c : RegionContext) : RegionContext :=
  _set_in_parallel_region true (_set_thread_num (Z.of_nat task_id) c).

(** Lines 64-65 (141-142): its last two statements. *)
Definition task_epilogue (c : RegionContext) : RegionContext :=
  _unset_thread_num (_set_in_parallel_region false c).

(** Observable actions, in the order in which they happen. *)
Inductive event :=
| EvAlloc (n : nat)
    (* line 125: the results vector is allocated *)
| EvFuture (k : nat)
    (* line 73: a future is created for task k *)
| EvRun (k : nat) (s e : Z)
    (* line 78: the closure of task k is handed to the pool *)
| EvInvoke (t : thread) (c : RegionContext) (s e : Z)
    (* lines 58, 101, 135, 177: the body is called with (s, e) on
       thread t, whose context is c at that moment *)
| EvClaim (k : nat) (x : exception) (won : bool)
    (* line 60: test_and_set in the handler of task k *)
| EvMark (k : nat)
    (* lines 82, 85: markCompleted on the future of task k *)
| EvWait (k : nat)
    (* line 94: wait on the future of task k has returned *)
| EvRethrow (x : exception).
    (* line 98 *)

(** What distinguishes the two templates: the call made inside the [try]
    block, the results vector (absent in [parallel_for]; in
    [parallel_reduce] it is filled with the value-initialised [scalar_t]),
    the value returned after the join and the value returned for an empty
    range. *)
Record kernel (R : Type) := {
  body : Z -> Z -> outcome R;
  buffer : option R;
  finish : list R -> R;
  nothing : R
}.
Arguments body {R} k s e.
Arguments buffer {R} k.
Arguments finish {R} k rs.
Arguments nothing {R} k.

(** Where the closure of one task stands. *)
Inductive phase :=
| Unborn                              (* the loop of line 72 has not reached it *)
| Queued                              (* handed to the pool, not started *)
| AtBody (t : thread)                 (* lines 55-56 done, before line 58 *)
| AtCatch (t : thread) (x : exception) (* in the handler, before line 60 *)
| AtStore (t : thread) (x : exception) (* flag won, before line 61 *)
| AtExit (t : thread)                 (* after the try block, before line 64 *)
| Returned (t : thread)               (* [task] has returned, before line 82 *)
| Completed.                          (* future completed *)

(** The thread that is executing the closure, if any. *)
Definition runner (ph : phase) : option thread :=
  match ph with
  | AtBody t | AtCatch t _ | AtStore t _ | AtExit t | Returned t => Some t
  | Unborn | Queued | Completed => None
  end.

(** Where the calling thread stands. *)
Inductive main_pc (R : Type) :=
| Spawn (k : nat)        (* head of the loop of line 72, task_id = k *)
| First                  (* inside task(0, begin, first_task_end), line 90 *)
| Join (k : nat)         (* head of the loop of line 93, task_id = k *)
| Done (r : outcome R).  (* the call has returned or thrown *)
Arguments Spawn {R} k.
Arguments First {R}.
Arguments Join {R} k.
Arguments Done {R} r.

Definition fupd {A : Type} (f : nat -> A) (k : nat) (v : A) : nat -> A :=
  fun j => if Nat.eqb j k then v else f j.

Record config (R : Type) := {
  pc : main_pc R;
  tasks : nat -> phase;
  err_flag : bool;
  eptr : option exception;
  results : list R;
  ctx : thread -> RegionContext;
  trace : list event
}.
Arguments pc {R} c.
Arguments tasks {R} c.
Arguments err_flag {R} c.
Arguments eptr {R} c.
Arguments results {R} c.
Arguments ctx {R} c.
Arguments trace {R} c.

(** Who takes the next atomic step: the calling thread, or pool thread [w]
    working on the closure of task [k]. *)
Inductive action :=
| Main
| Work (w : thread) (k : nat).

Section Machine.

Context {R : Type}.
Variable K : kernel R.
Variable caller : thread.
Variable workers : list thread.
Variable n : nat.                    (* num_tasks *)
Variable chunk : nat -> Z * Z.       (* the (start, end) of each task *)
Variable dispatches : nat -> bool.   (* the test of line 76 *)

Definition goto (p : main_pc R) (c : config R) : config R :=
  {| pc := p; tasks := tasks c; err_flag := err_flag c; eptr := eptr c;
     results := results c; ctx := ctx c; trace := trace c |}.

Definition set_phase (k : nat) (ph : phase) (c : config R) : config R :=
  {| pc := pc c; tasks := fupd (tasks c) k ph; err_flag := err_flag c;
     eptr := eptr c; results := results c; ctx := ctx c; trace := trace c |}.

Definition set_flag (c : config R) : config R :=
  {| pc := pc c; tasks := tasks c; err_flag := true; eptr := eptr c;
     results := results c; ctx := ctx c; trace := trace c |}.

Definition set_eptr (x : exception) (c : config R) : config R :=
  {| pc := pc c; tasks := tasks c; err_flag := err_flag c; eptr := Some x;
     results := results c; ctx := ctx c; trace := trace c |}.

Definition set_result (k : nat) (r : R) (c : config R) : config R :=
  {| pc := pc c; tasks := tasks c; err_flag := err_flag c; eptr := eptr c;
     results := <[k := r]> (results c); ctx := ctx c; trace := trace c |}.

Definition set_ctx (t : thread) (g : RegionContext -> RegionContext)
    (c : config R) : config R :=
  {| pc := pc c; tasks := tasks c; err_flag := err_flag c; eptr := eptr c;
     results := results c; ctx := fupd (ctx c) t (g (ctx c t));
     trace := trace c |}.

Definition log (ev : event) (c : config R) : config R :=
  {| pc := pc c; tasks := tasks c; err_flag := err_flag c; eptr := eptr c;
     results := results c; ctx := ctx c; trace := trace c ++ [ev] |}.

(** One atomic step of thread [t] inside the [task] lambda for task [k]
    (lines 57-65). *)
Definition advance (t : thread) (k : nat) (c : config R) : option (config R) :=
  match tasks c k with
  | AtBody t' =>
      if Nat.eqb t' t then
        let c1 := log (EvInvoke t (ctx c t) (fst (chunk k)) (snd (chunk k))) c in
        match body K (fst (chunk k)) (snd (chunk k)) with
        | Ok r => Some (set_phase k (AtExit t) (set_result k r c1))
        | Raise x => Some (set_phase k (AtCatch t x) c1)
        end
      else None
  | AtCatch t' x =>
      if Nat.eqb t' t then
        if err_flag c
        then Some (set_phase k (AtExit t) (log (EvClaim k x false) c))
        else Some (set_phase k (AtStore t x)
                     (set_flag (log (EvClaim k x true) c)))
      else None
  | AtStore t' x =>
      if Nat.eqb t' t then Some (set_phase k (AtExit t) (set_eptr x c))
      else None
  | AtExit t' =>
      if Nat.eqb t' t
      then Some (set_phase k (Returned t) (set_ctx t task_epilogue c))
      else None
  | _ => None
  end.

(** Is pool thread [w] in the middle of some closure? *)
Definition busy (w : thread) (c : config R) : bool :=
  existsb (fun j => match runner (tasks c j) with
                    | Some t => Nat.eqb t w
                    | None => false
                    end) (seq 0 n).

Definition is_worker (w : thread) : bool :=
  existsb (Nat.eqb w) workers && negb (Nat.eqb w caller).

(** The next atomic step of the calling thread. *)
Definition main_step (c : config R) : option (config R) :=
  match pc c with
  | Spawn k =>
      if (k <? n)%nat then
        (* lines 73-86 *)
        let c1 := goto (Spawn (S k)) (log (EvFuture k) c) in
        if dispatches k
        then Some (set_phase k Queued
                     (log (EvRun k (fst (chunk k)) (snd (chunk k))) c1))
        else Some (set_phase k Completed (log (EvMark k) c1))
      else
        (* lines 89-90 and 55-56 *)
        Some (goto First
                (set_phase 0 (AtBody caller)
                   (set_ctx caller (task_prologue 0) c)))
  | First =>
      match tasks c 0%nat with
      | Returned _ => Some (goto (Join 1) (set_phase 0 Completed c))
      | _ => advance caller 0 c
      end
  | Join k =>
      if (k <? n)%nat then
        (* line 94: wait returns once the future is completed *)
        match tasks c k with
        | Completed => Some (goto (Join (S k)) (log (EvWait k) c))
        | _ => None
        end
      else
        (* lines 97-99 and 174-175 *)
        match eptr c with
        | Some x => Some (goto (Done (Raise x)) (log (EvRethrow x) c))
        | None => Some (goto (Done (Ok (finish K (results c)))) c)
        end
  | Done _ => None
  end.

(** The next atomic step of pool thread [w] on the closure of task [k]
    (lines 80-83). *)
Definition work_step (w : thread) (k : nat) (c : config R) : option (config R) :=
  if is_worker w then
    match tasks c k with
    | Queued =>
        if busy w c then None
        else Some (set_phase k (AtBody w) (set_ctx w (task_prologue k) c))
    | Returned t =>
        if Nat.eqb t w
        then Some (set_phase k Completed (log (EvMark k) c))
        else None
    | _ => advance w k c
    end
  else None.

Definition step (a : action) (c : config R) : option (config R) :=
  match a with
  | Main => main_step c
  | Work w k => work_step w k c
  end.

Fixpoint run (sched : list action) (c : config R) : option (config R) :=
  match sched with
  | [] => Some c
  | a :: sched' =>
      match step a c with
      | Some c' => run sched' c'
      | None => None
      end
  end.

(** Lines 125-126: the results vector, when the template has one. *)
Definition fresh_results : list R :=
  match buffer K with
  | Some zero => replicate n zero
  | None => []
  end.

Definition fresh_trace : list event :=
  match buffer K with
  | Some _ => [EvAlloc n]
  | None => []
  end.

(** The state at line 72, before the first iteration. *)
Definition init (ctx0 : thread -> RegionContext) : config R :=
  {| pc := Spawn 1; tasks := fun _ => Unborn; err_flag := false;
     eptr := None; results := fresh_results; ctx := ctx0;
     trace := fresh_trace |}.

End Machine.

(** The result of a call: what it returned or threw, the thread-local
    contexts it leaves behind, and what happened. *)
Record call_out (R : Type) := {
  res : outcome R;
  ctx_out : thread -> RegionContext;
  trace_out : list event
}.
Arguments res {R} c.
Arguments ctx_out {R} c.
Arguments trace_out {R} c.

Section Call.

Context {R : Type}.
Variable K : kernel R.
Variable what : string.              (* the message of lines 41 and 118 *)
Variable num_threads : Z.            (* get_num_threads() *)
Variable caller : thread.
Variable workers : list thread.      (* the threads of _get_intraop_pool() *)

(** Line 44: [((end - begin) >= grain_size) && !in_parallel_region()]. *)
Definition forks (begin end_ grain_size : Z) (c : RegionContext) : bool :=
  Plan.large_enough begin end_ grain_size && negb (in_parallel_region c).

(** The common shape of [parallel_for] (lines 36-102) and [parallel_reduce]
    (lines 113-178).  [sched] is the interleaving of the calling thread and
    the pool threads in the fork-join branch; the result is [None] when
    [sched] is not a complete execution of the call. *)
Definition fork_join (begin end_ grain_size : Z)
    (ctx0 : thread -> RegionContext) (sched : list action)
  : option (call_out R) :=
  if end_ <=? begin then
    Some {| res := Ok (nothing K); ctx_out := ctx0; trace_out := [] |}
  else if grain_size <? 0 then
    Some {| res := Raise (runtime_error what); ctx_out := ctx0;
            trace_out := [] |}
  else if forks begin end_ grain_size (ctx0 caller) then
    let n := Z.to_nat (Plan.num_tasks num_threads begin end_ grain_size) in
    match run K caller workers n
            (Plan.chunk num_threads begin end_ grain_size)
            (fun k => Plan.dispatches num_threads begin end_ grain_size
                        (Z.of_nat k))
            sched (init K n ctx0) with
    | Some c =>
        match pc c with
        | Done r => Some {| res := r; ctx_out := ctx c; trace_out := trace c |}
        | _ => None
        end
    | None => None
    end
  else
    Some {| res := body K begin end_; ctx_out := ctx0;
            trace_out := [EvInvoke caller (ctx0 caller) begin end_] |}.

End Call.

(** [parallel_for(begin, end, grain_size, f)]. *)
Definition for_kernel (f : Z -> Z -> outcome unit) : kernel unit :=
  {| body := f; buffer := None; finish := fun _ => tt; nothing := tt |}.

Definition parallel_for (num_threads : Z) (caller : thread)
    (workers : list thread) (begin end_ grain_size : Z)
    (f : Z -> Z -> outcome unit) :=
  fork_join (for_kernel f)
    "Invalid begin, end or grain_size in parallel_for"
    num_threads caller workers begin end_ grain_size.

(** [parallel_reduce(begin, end, grain_size, ident, f, sf)].  [zero] is the
    value-initialised [scalar_t] that fills [results(num_tasks)] (line 125);
    [finish] is the [std::accumulate] of line 174. *)
Definition reduce_kernel {R : Type} (zero ident : R)
    (f : Z -> Z -> R -> outcome R) (sf : R -> R -> R) : kernel R :=
  {| body := fun s e => f s e ident;
     buffer := Some zero;
     finish := fun rs => fold_left sf rs ident;
     nothing := ident |}.

Definition parallel_reduce {R : Type} (zero : R) (num_threads : Z)
    (caller : thread) (workers : list thread) (begin end_ grain_size : Z)
    (ident : R) (f : Z -> Z -> R -> outcome R) (sf : R -> R -> R) :=
  fork_join (reduce_kernel zero ident f sf)
    "Invalid begin, end or grain_size in parallel_reduce"
    num_threads caller workers begin end_ grain_size.

End Engine.

(** ** The inter-op pool (Parallel_threadpool_native.cpp) *)

Module Interop.

Inductive failure :=
| runtime_error (what : string)     (* line 60 *)
| assertion_failed (cond : string). (* AT_ASSERT, lines 41-45 *)

Inductive result (A : Type) :=
| Value (a : A)
| Error (x : failure).
Arguments Value {A} a.
Arguments Error {A} x.

(** The three pieces of process-wide state of the file: the atomic of
    line 18 and the two function-local statics of lines 23 and 36.  A pool
    is represented by what [size()] returns on it; [launched] counts the
    closures handed to the pool by [launch]. *)
Record state := {
  num_interop_threads : Z;
  get_pool_static : option Z;
  createC10ThreadPool_static : option Z;
  launched : nat
}.

(** Line 18: [std::atomic<int> num_interop_threads{-1}]. *)
Definition initial : state :=
  {| num_interop_threads := -1; get_pool_static := None;
     createC10ThreadPool_static := None; launched := 0 |}.

Section Pool.

(** [std::thread::hardware_concurrency()]. *)
Variable hardware_concurrency : Z.

(** Modelled from the spec: [PTThreadPool] is defined outside these
    sources; the spec's ThreadPool has a size that is fixed at
    construction, so [size()] returns the constructor's argument. *)
Definition PTThreadPool (pool_size : Z) : Z := pool_size.

(** Lines 32-47.  The static is initialised by the first call only; the
    three assertions run on every call.  [pool->size() == pool_size]
    compares a [size_t] with an [int], which is converted to [size_t]. *)
Definition createC10ThreadPool (device_id pool_size : Z) (create_new : bool)
    (st : state) : result Z * state :=
  let pool :=
    match createC10ThreadPool_static st with
    | Some p => p
    | None =>
        PTThreadPool (if 0 <? pool_size then pool_size
                      else hardware_concurrency)
    end in
  let st1 :=
    {| num_interop_threads := num_interop_threads st;
       get_pool_static := get_pool_static st;
       createC10ThreadPool_static := Some pool;
       launched := launched st |} in
  if negb (device_id =? 0) then
    (Error (assertion_failed "device_id == 0"), st1)
  else if create_new then
    (Error (assertion_failed "!create_new"), st1)
  else if negb (pool =? to_size_t pool_size) then
    (Error (assertion_failed "pool->size() == pool_size"), st1)
  else (Value pool, st1).

(** Lines 22-30.  The initialiser of the static exchanges the atomic for
    [-2] and passes the old value as [pool_size] to the creator registered
    at line 51; when the initialiser throws, the static stays
    uninitialised and the next call runs the initialiser again. *)
Definition get_pool (st : state) : result Z * state :=
  match get_pool_static st with
  | Some p => (Value p, st)
  | None =>
      let old := num_interop_threads st in
      let st1 :=
        {| num_interop_threads := -2;
           get_pool_static := get_pool_static st;
           createC10ThreadPool_static := createC10ThreadPool_static st;
           launched := launched st |} in
      match createC10ThreadPool 0 old false st1 with
      | (Value p, st2) =>
          (Value p,
           {| num_interop_threads := num_interop_threads st2;
              get_pool_static := Some p;
              createC10ThreadPool_static := createC10ThreadPool_static st2;
              launched := launched st2 |})
      | (Error x, st2) => (Error x, st2)
      end
  end.

(** Lines 53-64.  [nthreads] is a [size_t]; the atomic holds an [int]. *)
Definition set_num_interop_threads (nthreads : Z) (st : state)
  : result unit * state :=
  if nthreads =? 0 then (Value tt, st)
  else if num_interop_threads st =? -1 then
    (Value tt,
     {| num_interop_threads := to_int nthreads;
        get_pool_static := get_pool_static st;
        createC10ThreadPool_static := createC10ThreadPool_static st;
        launched := launched st |})
  else
    (Error (runtime_error
       "Error: cannot set number of interop threads after parallel work has started"),
     st).

(** Lines 66-75. *)
Definition get_num_interop_threads (st : state) : result Z * state :=
  let nthreads := num_interop_threads st in
  if 0 <? nthreads then (Value (to_size_t nthreads), st)
  else if nthreads =? -1 then (Value hardware_concurrency, st)
  else get_pool st.

(** Lines 77-79. *)
Definition launch (st : state) : result unit * state :=
  match get_pool st with
  | (Value _, st1) =>
      (Value tt,
       {| num_interop_threads := num_interop_threads st1;
          get_pool_static := get_pool_static st1;
          createC10ThreadPool_static := createC10ThreadPool_static st1;
          launched := S (launched st1) |})
  | (Error x, st1) => (Error x, st1)
  end.

End Pool.

End Interop.

(** * Observations and invariants *)

(** ** The machine as a relation, and what holds in every reachable
    configuration *)

Module Invariant.

Import Engine.

Section Machine.

Context {R : Type}.
Variable K : kernel R.
Variable caller : thread.
Variable workers : list thread.
Variable n : nat.
Variable chunk : nat -> Z * Z.
Variable dispatches : nat -> bool.
Variable ctx0 : thread -> RegionContext.

Local Abbreviation is_worker := (is_worker caller workers).
Local Abbreviation invoke t k c :=
  (log (EvInvoke t (ctx c t) (fst (chunk k)) (snd (chunk k))) c).

(** The atomic steps of the machine, one constructor per program point. *)
Inductive transition (c : config R) : config R -> Prop :=
| t_spawn_run k :
    pc c = Spawn k -> (k < n)%nat -> dispatches k = true ->
    transition c
      (set_phase k Queued
         (log (EvRun k (fst (chunk k)) (snd (chunk k)))
            (goto (Spawn (S k)) (log (EvFuture k) c))))
| t_spawn_skip k :
    pc c = Spawn k -> (k < n)%nat -> dispatches k = false ->
    transition c
      (set_phase k Completed
         (log (EvMark k) (goto (Spawn (S k)) (log (EvFuture k) c))))
| t_enter k :
    pc c = Spawn k -> (n <= k)%nat ->
    transition c
      (goto First
         (set_phase 0 (AtBody caller) (set_ctx caller (task_prologue 0) c)))
| t_pick w k :
    is_worker w = true -> tasks c k = Queued -> busy n w c = false ->
    transition c (set_phase k (AtBody w) (set_ctx w (task_prologue k) c))
| t_body_ok t k r :
    tasks c k = AtBody t ->
    body K (fst (chunk k)) (snd (chunk k)) = Ok r ->
    transition c (set_phase k (AtExit t) (set_result k r (invoke t k c)))
| t_body_raise t k x :
    tasks c k = AtBody t ->
    body K (fst (chunk k)) (snd (chunk k)) = Raise x ->
    transition c (set_phase k (AtCatch t x) (invoke t k c))
| t_claim_lost t k x :
    tasks c k = AtCatch t x -> err_flag c = true ->
    transition c (set_phase k (AtExit t) (log (EvClaim k x false) c))
| t_claim_won t k x :
    tasks c k = AtCatch t x -> err_flag c = false ->
    transition c
      (set_phase k (AtStore t x) (set_flag (log (EvClaim k x true) c)))
| t_store t k x :
    tasks c k = AtStore t x ->
    transition c (set_phase k (AtExit t) (set_eptr x c))
| t_leave t k :
    tasks c k = AtExit t ->
    transition c (set_phase k (Returned t) (set_ctx t task_epilogue c))
| t_mark w k :
    is_worker w = true -> tasks c k = Returned w ->
    transition c (set_phase k Completed (log (EvMark k) c))
| t_first_done t :
    pc c = First -> tasks c 0%nat = Returned t ->
    transition c (goto (Join 1) (set_phase 0 Completed c))
| t_wait k :
    pc c = Join k -> (k < n)%nat -> tasks c k = Completed ->
    transition c (goto (Join (S k)) (log (EvWait k) c))
| t_rethrow k x :
    pc c = Join k -> (n <= k)%nat -> eptr c = Some x ->
    transition c (goto (Done (Raise x)) (log (EvRethrow x) c))
| t_return k :
    pc c = Join k -> (n <= k)%nat -> eptr c = None ->
    transition c (goto (Done (Ok (finish K (results c)))) c).

(** Configurations reached from the initial one. *)
Inductive reachable : config R -> Prop :=
| reach_init : reachable (init K n ctx0)
| reach_step c c' : reachable c -> transition c c' -> reachable c'.

(** *** Shape: how the program point of the caller constrains the tasks *)

(** What the phase [ph] of task [j] may be while the caller is at [p]. *)
Definition allowed (p : main_pc R) (j : nat) (ph : phase) : Prop :=
  (ph <> Unborn -> (j < n \/ j = 0)%nat) /\
  (j = 0%nat -> ph <> Queued) /\
  (j = 0%nat ->
   runner ph = None \/ (runner ph = Some caller /\ p = First)) /\
  (j <> 0%nat ->
   match runner ph with Some t => is_worker t = true | None => True end) /\
  match p with
  | Spawn k =>
      (1 <= k)%nat /\ (k <= n \/ k = 1)%nat /\
      ((j = 0 \/ k <= j)%nat -> ph = Unborn) /\
      ((1 <= j < k)%nat -> ph <> Unborn)
  | First =>
      (j = 0%nat -> runner ph = Some caller) /\
      ((1 <= j < n)%nat -> ph <> Unborn)
  | Join k =>
      (1 <= k)%nat /\ (k <= n \/ k = 1)%nat /\
      (j = 0%nat -> ph = Completed) /\
      ((j < k)%nat -> (j < n)%nat -> ph = Completed) /\
      ((1 <= j < n)%nat -> ph <> Unborn)
  | Done _ => (j < n \/ j = 0)%nat -> ph = Completed
  end.

(** No thread runs two closures at once. *)
Definition exclusive (ts : nat -> phase) : Prop :=
  forall i j, runner (ts i) <> None -> runner (ts i) = runner (ts j) -> i = j.

Record shape (c : config R) : Prop := {
  sh_allowed : forall j, allowed (pc c) j (tasks c j);
  sh_exclusive : exclusive (tasks c)
}.

(** *** Thread-local contexts *)

(** The thread that is between the prologue and the epilogue of [task]. *)
Definition in_chunk (ph : phase) : option thread :=
  match ph with
  | AtBody t | AtCatch t _ | AtStore t _ | AtExit t => Some t
  | Unborn | Queued | Returned _ | Completed => None
  end.

(** What lines 55-56 leave in the context of the thread that runs task
    [j]. *)
Definition chunk_context (j : nat) : RegionContext :=
  {| in_parallel_region := true; thread_num := Some (Z.of_nat j) |}.

(** [ic j] is the thread inside chunk [j], [cx] the contexts. *)
Definition contexts_ok (ic : nat -> option thread)
    (cx : thread -> RegionContext) : Prop :=
  (forall j t, ic j = Some t -> cx t = chunk_context j) /\
  (forall t, (forall j, ic j <> Some t) ->
             cx t = ctx0 t \/
             (cx t = idle_context /\ (t = caller \/ is_worker t = true))).

Definition ctx_ok (c : config R) : Prop :=
  contexts_ok (fun j => in_chunk (tasks c j)) (ctx c).

(** *** The exception slot *)

(** The handlers that reached [test_and_set], in the order in which they
    did. *)
Definition captured (tr : list event) : list (nat * exception) :=
  flat_map (fun ev => match ev with
                      | EvClaim k x _ => [(k, x)]
                      | _ => []
                      end) tr.

(** Did some call of the body recorded in the trace raise? *)
Definition raised (tr : list event) : bool :=
  existsb (fun ev => match ev with
                     | EvInvoke _ _ s e =>
                         match body K s e with
                         | Raise _ => true
                         | Ok _ => false
                         end
                     | _ => false
                     end) tr.

Definition raises (j : nat) (x : exception) : Prop :=
  body K (fst (chunk j)) (snd (chunk j)) = Raise x.

(** Task [k] won the flag with exception [x]. *)
Definition winner_ok (c : config R) (k : nat) (x : exception) : Prop :=
  err_flag c = true /\ raises k x /\
  (forall j t y, tasks c j = AtStore t y -> j = k) /\
  match tasks c k with
  | AtStore _ y => y = x /\ eptr c = None
  | AtExit _ | Returned _ | Completed => eptr c = Some x
  | _ => False
  end.

Record err_ok (c : config R) : Prop := {
  eo_raise : forall j t x,
    tasks c j = AtCatch t x \/ tasks c j = AtStore t x -> raises j x;
  eo_winner :
    match captured (trace c) with
    | [] => err_flag c = false /\ eptr c = None /\
            forall j t x, tasks c j <> AtStore t x
    | (k, x) :: _ => winner_ok c k x
    end;
  eo_pending :
    raised (trace c) = true ->
    err_flag c = true \/ exists j t x, tasks c j = AtCatch t x
}.

(** Steps of a task that touch neither the flag nor the slot. *)
Definition quiet (old new : phase) : Prop :=
  match old, new with
  | Unborn, (Queued | Completed | AtBody _)
  | Queued, AtBody _
  | AtBody _, AtExit _
  | AtExit _, Returned _
  | Returned _, Completed => True
  | _, _ => False
  end.

(** *** The results vector *)

(** The closure is past its [try] block. *)
Definition settled (ph : phase) : bool :=
  match ph with
  | AtExit _ | Returned _ | Completed => true
  | _ => false
  end.

Definition returns (j : nat) (r : R) : Prop :=
  body K (fst (chunk j)) (snd (chunk j)) = Ok r.

(** Task [j] went through [task], not through line 85. *)
Definition dispatched (j : nat) : bool := Nat.eqb j 0 || dispatches j.

Record res_ok (c : config R) : Prop := {
  ro_length : length (results c) = length (fresh_results K n);
  ro_value : forall j r,
    settled (tasks c j) = true -> dispatched j = true -> returns j r ->
    (j < length (results c))%nat -> results c !! j = Some r
}.

(** *** What the trace records *)

(** The calls of the body made as task [j]: those whose thread has
    [thread_num] equal to [j]. *)
Definition is_call (j : nat) (ev : event) : bool :=
  match ev with
  | EvInvoke _ cx _ _ =>
      match thread_num cx with
      | Some z => Z.eqb z (Z.of_nat j)
      | None => false
      end
  | _ => false
  end.

Definition calls (j : nat) (tr : list event) : list event :=
  List.filter (is_call j) tr.

Definition the_call (t : thread) (j : nat) : event :=
  EvInvoke t (chunk_context j) (fst (chunk j)) (snd (chunk j)).

Definition no_invoke (ev : event) : bool :=
  match ev with
  | EvInvoke _ _ _ _ => false
  | _ => true
  end.

(** The body of task [j] has been called. *)
Definition ran (j : nat) (ph : phase) : bool :=
  match ph with
  | AtCatch _ _ | AtStore _ _ | AtExit _ | Returned _ => true
  | Completed => dispatched j
  | Unborn | Queued | AtBody _ => false
  end.

Definition live (ph : phase) : bool :=
  match ph with
  | Unborn | Completed => false
  | _ => true
  end.

Record calls_ok (c : config R) : Prop := {
  co_calls : forall j,
    if ran j (tasks c j)
    then exists t, calls j (trace c) = [the_call t j]
    else calls j (trace c) = [];
  co_live : forall j,
    j <> 0%nat -> live (tasks c j) = true -> dispatches j = true;
  co_known : forall t cx s e,
    In (EvInvoke t cx s e) (trace c) ->
    exists j, cx = chunk_context j /\ (s, e) = chunk j
}.

(** *** Waiting and rethrowing *)

Definition waits (tr : list event) : list nat :=
  flat_map (fun ev => match ev with EvWait k => [k] | _ => [] end) tr.

Definition no_wait (ev : event) : bool :=
  match ev with
  | EvWait _ | EvRethrow _ => false
  | _ => true
  end.

Definition rethrows (tr : list event) : list exception :=
  flat_map (fun ev => match ev with EvRethrow x => [x] | _ => [] end) tr.

(** The futures 1 .. k-1 have been waited for, in this order, when the
    caller is at the head of the second loop with [task_id = k]; nothing is
    rethrown before the call ends. *)
Definition joined (c : config R) : Prop :=
  match pc c with
  | Spawn _ | First => waits (trace c) = [] /\ rethrows (trace c) = []
  | Join k => waits (trace c) = seq 1 (k - 1) /\ rethrows (trace c) = []
  | Done (Ok _) => waits (trace c) = seq 1 (n - 1) /\ rethrows (trace c) = []
  | Done (Raise x) =>
      exists tr, trace c = tr ++ [EvRethrow x] /\
                 waits tr = seq 1 (n - 1) /\ rethrows tr = []
  end.

(** *** What the call returns *)

Definition result_ok (c : config R) : Prop :=
  match pc c with
  | Done (Raise x) => eptr c = Some x
  | Done (Ok v) => eptr c = None /\ v = finish K (results c)
  | _ => True
  end.

(** *** All invariants together *)

Record inv (c : config R) : Prop := {
  inv_shape : shape c;
  inv_ctx : ctx_ok c;
  inv_err : err_ok c;
  inv_res : res_ok c;
  inv_calls : calls_ok c;
  inv_joined : joined c;
  inv_result : result_ok c
}.

(** *** The measure that bounds every execution *)

(** How many atomic steps a closure still has to take, at most. *)
Definition weight (ph : phase) : nat :=
  match ph with
  | Unborn => 7
  | Queued => 6
  | AtBody _ => 5
  | AtCatch _ _ => 4
  | AtStore _ _ => 3
  | AtExit _ => 2
  | Returned _ => 1
  | Completed => 0
  end.

Definition total_from (ts : nat -> phase) (a len : nat) : nat :=
  list_sum (map (fun j => weight (ts j)) (seq a len)).

Definition pc_rank (p : main_pc R) : nat :=
  match p with
  | Spawn _ | First => S n
  | Join k => S (n - k)
  | Done _ => 0
  end.

Definition measure (c : config R) : nat :=
  pc_rank (pc c) + total_from (tasks c) 0 (Nat.max n 1).

(** The pool has a thread whenever a closure is handed to it. *)
Definition staffed : Prop := (n <= 1)%nat \/ exists w, is_worker w = true.

End Machine.

Arguments captured !tr /.
Arguments raised {R} K !tr /.
Arguments calls j !tr /.
Arguments waits !tr /.
Arguments rethrows !tr /.

End Invariant.

(** ** What a call of the two templates leaves behind *)

Module Observe.

Import Plan Engine Invariant.

(** A thread that is outside a parallel region has no thread number. *)
Definition at_rest (c : RegionContext) : Prop :=
  in_parallel_region c = false -> thread_num c = None.

(** The indices [s, s+1, ..., e-1]; empty when [e <= s]. *)
Definition indices (s e : Z) : list Z :=
  map (fun i => s + Z.of_nat i) (seq 0 (Z.to_nat (e - s))).

Section Fold.

Context {R : Type}.
Variable sf : R -> R -> R.
Variable g : Z -> R.

(** The sequential fold of [sf] over the elements of [s, e), from [a]. *)
Definition fold_range (s e : Z) (a : R) : R :=
  fold_left sf (map g (indices s e)) a.

End Fold.

Section Call.

Context {R : Type}.
Variable K : kernel R.
Variable num_threads : Z.
Variables begin end_ grain_size : Z.

Local Abbreviation n :=
  (Z.to_nat (num_tasks num_threads begin end_ grain_size)).
Local Abbreviation chunk := (Plan.chunk num_threads begin end_ grain_size).
Local Abbreviation dispatches :=
  (fun k => Plan.dispatches num_threads begin end_ grain_size (Z.of_nat k)).

(** The call ends by rethrowing [x]: nothing else is rethrown, [x] is what
    the first handler to reach [test_and_set] caught, and before the
    rethrow every future was waited for and every task that went through
    [task] called the body exactly once. *)
Definition rethrown_first (out : call_out R) (x : exception) : Prop :=
  exists tr k rest,
    trace_out out = tr ++ [EvRethrow x] /\
    rethrows tr = [] /\
    captured tr = (k, x) :: rest /\
    raises K chunk k x /\
    waits tr = seq 1 (n - 1) /\
    forall j, (j < n)%nat -> dispatched dispatches j = true ->
              exists t, calls j tr = [the_call chunk t j].

End Call.

(** The call ends by throwing [x], under the discipline of the branch it
    took. *)
Definition throws_first {R : Type} (K : kernel R) (num_threads : Z)
    (caller : thread) (begin end_ grain_size : Z)
    (ctx0 : thread -> RegionContext) (out : call_out R) : Prop :=
  exists x,
    res out = Raise x /\
    if forks begin end_ grain_size (ctx0 caller)
    then rethrown_first K num_threads begin end_ grain_size out x
    else trace_out out = [EvInvoke caller (ctx0 caller) begin end_] /\
         body K begin end_ = Raise x.

End Observe.

(** ** Inputs used in the examples *)

Module Examples.

Import Plan Engine Invariant Observe.

Definition main_thread : thread := 0%nat.
Definition pool_thread : thread := 1%nat.
Definition pool : list thread := [pool_thread].

Definition all_idle : thread -> RegionContext := fun _ => idle_context.

Definition returns_unit (s e : Z) : outcome unit := Ok tt.

(** A body that fails on every chunk that starts at or after [m]. *)
Definition fails_from (m : Z) (s e : Z) : outcome unit :=
  if m <=? s then Raise (body_error s) else Ok tt.

(** Modelled from the spec: [sum_chunk] and [add] are the body and the
    combiner of the spec's scenario; [sum_chunk] adds the indices of its
    range to the accumulator. *)
Definition sum_chunk (s e acc : Z) : outcome Z :=
  Ok (fold_range Z.add (fun i => i) s e acc).

(** A body that counts the indices of its range. *)
Definition count_chunk (s e acc : Z) : outcome Z :=
  Ok (fold_range Z.add (fun _ => 1) s e acc).

(** The caller spawns [n - 1] closures and runs chunk 0, pool thread 1
    runs the closures one after the other, the caller joins.  [own] and
    [each] are the numbers of atomic steps of chunk 0 and of a closure. *)
Definition in_order (n own each : nat) : list action :=
  (repeat Main (n + own) ++
   flat_map (fun k => repeat (Work pool_thread k) each) (seq 1 (n - 1)) ++
   repeat Main n)%nat.

(** The range that ends at [INT64_MAX]. *)
Definition high_begin : Z := 2 ^ 63 - 11.
Definition high_end : Z := 2 ^ 63 - 1.

(** Two chunks, [0, 2) and [2, 4); the second one raises on pool thread 1
    while the caller runs the first. *)
Definition failing_run : option (call_out unit) :=
  parallel_for 2 main_thread pool 0 4 1 (fails_from 2) all_idle
    (repeat Main 5 ++ repeat (Work pool_thread 1) 6 ++ repeat Main 2).

(** The calling thread is outside a parallel region and carries thread
    number 5; the pool is idle. *)
Definition numbered_caller : thread -> RegionContext :=
  fun t =>
    if Nat.eqb t main_thread
    then {| in_parallel_region := false; thread_num := Some 5 |}
    else idle_context.

End Examples.

(** ** What the trace says about futures, closures and threads *)

Module Bookkeeping.

Import Engine Invariant.

(** The futures created at line 73, in the order of their creation. *)
Definition futures (tr : list event) : list nat :=
  flat_map (fun ev => match ev with EvFuture k => [k] | _ => [] end) tr.

(** The closures handed to the pool at line 78, each with the range it
    captured, in the order in which they were handed over. *)
Definition runs (tr : list event) : list (nat * (Z * Z)) :=
  flat_map (fun ev => match ev with
                      | EvRun k s e => [(k, (s, e))]
                      | _ => []
                      end) tr.

(** The calls of the body, in the order in which they were made. *)
Definition invocations (tr : list event) : list event :=
  List.filter (fun ev => negb (no_invoke ev)) tr.

Section Machine.

Context {R : Type}.
Variable caller : thread.
Variable workers : list thread.
Variable n : nat.
Variable chunk : nat -> Z * Z.
Variable dispatches : nat -> bool.

(** What the loop of line 72 has handed to the pool when it is about to
    start the iteration [task_id = m]. *)
Definition planned_runs (m : nat) : list (nat * (Z * Z)) :=
  map (fun k => (k, chunk k)) (List.filter dispatches (seq 1 (m - 1))).

(** The loop of line 72 creates the futures of the tasks 1, 2, ... in this
    order and hands over the closures of those that pass the test of line
    76; nothing is created or handed over after the loop. *)
Definition spawned (c : config R) : Prop :=
  match pc c with
  | Spawn k =>
      futures (trace c) = seq 1 (k - 1) /\ runs (trace c) = planned_runs k
  | _ => futures (trace c) = seq 1 (n - 1) /\ runs (trace c) = planned_runs n
  end.

(** Every call of the body is the call of a task of the plan, made in the
    context of lines 55-56 with the range of that task: by the calling
    thread for task 0, by a pool thread for the others. *)
Definition placed (c : config R) : Prop :=
  forall t cx s e, In (EvInvoke t cx s e) (trace c) ->
    exists j, cx = chunk_context j /\ (s, e) = chunk j /\
              (j < n \/ j = 0)%nat /\
              if Nat.eqb j 0 then t = caller
              else is_worker caller workers t = true.

(** Without pool threads a closure stays where line 78 put it. *)
Definition parked (c : config R) : Prop :=
  forall k, k <> 0%nat ->
    tasks c k = Unborn \/ tasks c k = Queued \/
    (tasks c k = Completed /\ dispatches k = false).

End Machine.

Arguments futures !tr /.
Arguments runs !tr /.

End Bookkeeping.

(** ** The body calls that cover an index *)

Module Coverage.

Import Engine.

(** Does the event record a call of the body on a range that contains
    [i]? *)
Definition covers (i : Z) (ev : event) : bool :=
  match ev with
  | EvInvoke _ _ s e => (s <=? i) && (i <? e)
  | _ => false
  end.

(** The calls of the body whose range contains [i], in the order in which
    they were made. *)
Definition covering (i : Z) (tr : list event) : list event :=
  List.filter (covers i) tr.

End Coverage.

(** ** Sessions with the inter-op pool *)

Module Lifecycle.

Import Interop.

(** A call of one of the three entry points of the file. *)
Inductive request :=
| SetThreads (nthreads : Z)   (* set_num_interop_threads(nthreads) *)
| GetThreads                  (* get_num_interop_threads() *)
| Launch.                     (* launch(func) *)

(** How the call ended. *)
Inductive reply :=
| Returns                     (* a void function returned *)
| Size (n : Z)                (* the getter returned n *)
| Throws (x : failure).

Section Pool.

Variable hardware_concurrency : Z.

Definition serve (q : request) (st : state) : reply * state :=
  match q with
  | SetThreads n =>
      match set_num_interop_threads n st with
      | (Value _, st') => (Returns, st')
      | (Error x, st') => (Throws x, st')
      end
  | GetThreads =>
      match get_num_interop_threads hardware_concurrency st with
      | (Value n, st') => (Size n, st')
      | (Error x, st') => (Throws x, st')
      end
  | Launch =>
      match launch hardware_concurrency st with
      | (Value _, st') => (Returns, st')
      | (Error x, st') => (Throws x, st')
      end
  end.

(** A sequence of calls made one after the other on the same process. *)
Fixpoint session (qs : list request) (st : state) : list reply * state :=
  match qs with
  | [] => ([], st)
  | q :: qs' =>
      let (r, st1) := serve q st in
      let (rs, st2) := session qs' st1 in
      (r :: rs, st2)
  end.

End Pool.

(** Calls that are answered without touching the state while nothing is
    committed: the getter, and the setter with 0. *)
Definition passive (q : request) : bool :=
  match q with
  | GetThreads => true
  | SetThreads n => n =? 0
  | Launch => false
  end.

Definition too_late : failure :=
  runtime_error
    "Error: cannot set number of interop threads after parallel work has started".

Definition size_mismatch : failure :=
  assertion_failed "pool->size() == pool_size".

(** The answers while nothing is committed. *)
Definition answer_unset (hardware_concurrency : Z) (q : request) : reply :=
  match q with
  | GetThreads => Size hardware_concurrency
  | _ => Returns
  end.

(** The answers once [n] has been committed. *)
Definition answer_committed (n : Z) (q : request) : reply :=
  match q with
  | SetThreads m => if m =? 0 then Returns else Throws too_late
  | GetThreads => Size n
  | Launch => Returns
  end.

(** The answers after a [launch] that found nothing committed. *)
Definition answer_broken (q : request) : reply :=
  match q with
  | SetThreads m => if m =? 0 then Returns else Throws too_late
  | GetThreads => Throws size_mismatch
  | Launch => Throws size_mismatch
  end.

Definition launches (qs : list request) : nat :=
  length (List.filter (fun q => match q with Launch => true | _ => false end)
            qs).

(** The two states in which a committed value [n] can be found: before
    and after the pool is built. *)
Definition holds (n : Z) (st : state) : Prop :=
  (num_interop_threads st = n /\ get_pool_static st = None /\
   createC10ThreadPool_static st = None) \/
  (num_interop_threads st = -2 /\ get_pool_static st = Some n /\
   createC10ThreadPool_static st = Some n).

(** The state after a [launch] that found nothing committed. *)
Definition broken (hardware_concurrency : Z) (st : state) : Prop :=
  num_interop_threads st = -2 /\ get_pool_static st = None /\
  createC10ThreadPool_static st = Some hardware_concurrency.

End Lifecycle.

(** * Properties *)

(** ** Conversions *)

Module IntFacts.

Lemma to_int64_id z : is_int64 z -> to_int64 z = z.
Proof.
  unfold is_int64, INT64_MIN, INT64_MAX, to_int64, two64. intros H.
  rewrite Z.mod_small; lia.
Qed.

Lemma to_size_t_id z : is_size_t z -> to_size_t z = z.
Proof. unfold is_size_t, to_size_t. intros H. now apply Z.mod_small. Qed.

Lemma to_int_id z : - 2 ^ 31 <= z <= INT_MAX -> to_int z = z.
Proof. unfold INT_MAX, to_int. intros H. rewrite Z.mod_small; lia. Qed.

Lemma to_int64_range z : is_int64 (to_int64 z).
Proof.
  unfold is_int64, INT64_MIN, INT64_MAX, to_int64, two64.
  pose proof (Z.mod_pos_bound (z + 2 ^ 63) (2 ^ 64)). lia.
Qed.

(** A value and its [size_t] image denote the same [int64_t]. *)
Lemma to_int64_to_size_t z : to_int64 (to_size_t z) = to_int64 z.
Proof.
  unfold to_int64, to_size_t, two64.
  rewrite Zplus_mod_idemp_l. reflexivity.
Qed.

Lemma to_size_t_add a b :
  to_size_t (to_size_t a + to_size_t b) = to_size_t (a + b).
Proof. unfold to_size_t. now rewrite <- Zplus_mod. Qed.

Lemma to_size_t_add_r a b : to_size_t (a + to_size_t b) = to_size_t (a + b).
Proof. unfold to_size_t. now rewrite Zplus_mod_idemp_r. Qed.

(** Past [INT64_MAX] the conversion to [int64_t] lands on a negative
    number. *)
Lemma to_int64_wraps z :
  INT64_MAX < z < two64 -> to_int64 z = z - two64.
Proof.
  unfold INT64_MAX, to_int64, two64. intros H.
  replace (z + 2 ^ 63) with ((z - 2 ^ 63) + 1 * 2 ^ 64) by lia.
  rewrite Z_mod_plus_full, Z.mod_small; lia.
Qed.

End IntFacts.

(** ** The planner *)

Module PlanFacts.

Import Plan IntFacts.

(** [divup x y] is the ceiling of [x / y]. *)
Lemma divup_ceiling x y :
  0 < y -> (divup x y - 1) * y < x <= divup x y * y.
Proof.
  intros Hy. unfold divup.
  pose proof (Z.div_mod (x + y - 1) y ltac:(lia)) as E.
  pose proof (Z.mod_pos_bound (x + y - 1) y Hy) as B.
  nia.
Qed.

Lemma divup_least x y q : 0 < y -> x <= q * y -> divup x y <= q.
Proof.
  intros Hy Hq. pose proof (divup_ceiling x y Hy). nia.
Qed.

Lemma divup_range x y : 0 < y -> 1 <= x -> 1 <= divup x y <= x.
Proof.
  intros Hy Hx. pose proof (divup_ceiling x y Hy). split; [nia|].
  apply divup_least; nia.
Qed.

Section Forking.

Variables num_threads begin end_ grain_size : Z.

Hypothesis threads_pos : 1 <= num_threads <= INT64_MAX.
Hypothesis begin_int64 : is_int64 begin.
Hypothesis end_int64 : is_int64 end_.
Hypothesis nonempty : begin < end_.
Hypothesis grain_nonneg : 0 <= grain_size.
Hypothesis large : large_enough begin end_ grain_size = true.

Local Abbreviation cs := (chunk_size num_threads begin end_ grain_size).
Local Abbreviation nt := (num_tasks num_threads begin end_ grain_size).

(** On the forking branch the subtraction of line 44 did not wrap. *)
Lemma span_exact :
  span begin end_ = end_ - begin /\
  1 <= end_ - begin <= INT64_MAX /\ grain_size <= end_ - begin.
Proof.
  unfold large_enough in large. apply Z.leb_le in large.
  unfold is_int64, INT64_MIN, INT64_MAX in *.
  destruct (Z_le_gt_dec (end_ - begin) (2 ^ 63 - 1)) as [Hs|Hs].
  - assert (E : span begin end_ = end_ - begin).
    { apply to_int64_id. unfold is_int64, INT64_MIN, INT64_MAX. lia. }
    rewrite E in *. lia.
  - exfalso. unfold span in large.
    rewrite to_int64_wraps in large; unfold INT64_MAX, two64 in *; lia.
Qed.

Lemma chunk_size_exact :
  cs = Z.max grain_size (divup (end_ - begin) num_threads) /\
  1 <= cs <= end_ - begin.
Proof.
  destruct span_exact as (Es & Hd & Hg).
  unfold chunk_size. rewrite Es.
  rewrite (to_int64_id num_threads)
    by (unfold is_int64, INT64_MIN, INT64_MAX in *; lia).
  pose proof (divup_range (end_ - begin) num_threads ltac:(lia) ltac:(lia)).
  unfold INT64_MAX in *.
  rewrite !to_size_t_id by (unfold is_size_t, two64; lia).
  split; lia.
Qed.

Lemma num_tasks_exact :
  nt = divup (end_ - begin) cs /\
  1 <= nt <= end_ - begin /\
  (nt - 1) * cs < end_ - begin <= nt * cs.
Proof.
  destruct span_exact as (Es & Hd & Hg).
  destruct chunk_size_exact as (Ec & Hc).
  unfold num_tasks. rewrite Es.
  unfold INT64_MAX in *.
  rewrite (to_int64_id cs) by (unfold is_int64, INT64_MIN, INT64_MAX; lia).
  pose proof (divup_range (end_ - begin) cs ltac:(lia) ltac:(lia)).
  pose proof (divup_ceiling (end_ - begin) cs ltac:(lia)).
  rewrite to_size_t_id by (unfold is_size_t, two64; lia).
  split; [reflexivity|]. split; lia.
Qed.

(** Line 75 computes the mathematical [begin + task_id * chunk_size], and
    the start of every task lies before [end]. *)
Lemma local_start_exact k :
  0 <= k < nt ->
  local_start num_threads begin end_ grain_size k = begin + k * cs /\
  begin + k * cs < end_.
Proof.
  intros Hk.
  destruct chunk_size_exact as (_ & Hc).
  destruct num_tasks_exact as (_ & Hn & Hm).
  assert (Hlt : begin + k * cs < end_) by nia.
  split; [|exact Hlt].
  unfold local_start.
  rewrite to_size_t_add, to_int64_to_size_t.
  apply to_int64_id. unfold is_int64, INT64_MIN, INT64_MAX in *. nia.
Qed.

Lemma dispatches_all k :
  0 <= k < nt -> dispatches num_threads begin end_ grain_size k = true.
Proof.
  intros Hk. unfold dispatches. apply Z.ltb_lt.
  destruct (local_start_exact k Hk) as (-> & H). exact H.
Qed.

(** Lines 77 and 89 clip at [end] as long as [start + chunk_size] is
    representable. *)
Lemma clip_end_exact s :
  is_int64 s -> s + cs <= INT64_MAX ->
  clip_end num_threads begin end_ grain_size s = Z.min end_ (s + cs).
Proof.
  intros Hs Hb. destruct chunk_size_exact as (_ & Hc).
  unfold clip_end. rewrite to_size_t_add_r, to_int64_to_size_t.
  rewrite to_int64_id; [f_equal; lia|].
  unfold is_int64, INT64_MIN, INT64_MAX in *. lia.
Qed.

(** Beyond that the sum wraps and [std::min] returns the wrapped value. *)
Lemma clip_end_wraps s :
  is_int64 s -> INT64_MAX < s + cs ->
  clip_end num_threads begin end_ grain_size s = s + cs - two64.
Proof.
  intros Hs Hb. destruct chunk_size_exact as (_ & Hc).
  destruct span_exact as (_ & Hd & _).
  unfold clip_end. rewrite to_size_t_add_r, to_int64_to_size_t.
  replace (cs + s) with (s + cs) by lia.
  rewrite to_int64_wraps;
    unfold is_int64, INT64_MIN, INT64_MAX, two64 in *; lia.
Qed.

Lemma chunk_exact (k : nat) :
  Z.of_nat k < nt ->
  begin + (Z.of_nat k + 1) * cs <= INT64_MAX ->
  chunk num_threads begin end_ grain_size k =
    (begin + Z.of_nat k * cs,
     Z.min end_ (begin + (Z.of_nat k + 1) * cs)).
Proof.
  intros Hk Hb.
  destruct (local_start_exact (Z.of_nat k) ltac:(lia)) as (Es & Hlt).
  assert (Hi : is_int64 (begin + Z.of_nat k * cs)).
  { destruct chunk_size_exact as (_ & Hc).
    unfold is_int64, INT64_MIN, INT64_MAX in *. nia. }
  destruct k as [|k'].
  - cbn [chunk]. unfold first_task_end.
    rewrite clip_end_exact by (unfold is_int64 in *; lia).
    f_equal; [lia | f_equal; lia].
  - cbn [chunk]. unfold local_end. rewrite Es.
    rewrite clip_end_exact by (auto; lia).
    f_equal. f_equal. lia.
Qed.

End Forking.

End PlanFacts.

(** ** The fork-join machine *)

Module EngineFacts.

Import Engine Invariant.

Lemma fupd_same {A} (f : nat -> A) k v : fupd f k v k = v.
Proof. unfold fupd. now rewrite Nat.eqb_refl. Qed.

Lemma fupd_other {A} (f : nat -> A) k v j : j <> k -> fupd f k v j = f j.
Proof.
  unfold fupd. intros H. destruct (Nat.eqb_spec j k); [contradiction|easy].
Qed.

Section Machine.

Context {R : Type}.
Variable K : kernel R.
Variable caller : thread.
Variable workers : list thread.
Variable n : nat.
Variable chunk : nat -> Z * Z.
Variable dispatches : nat -> bool.
Variable ctx0 : thread -> RegionContext.

Local Abbreviation step := (step K caller workers n chunk dispatches).
Local Abbreviation run := (run K caller workers n chunk dispatches).
Local Abbreviation is_worker := (is_worker caller workers).
Local Abbreviation invoke t k c :=
  (log (EvInvoke t (ctx c t) (fst (chunk k)) (snd (chunk k))) c).
Local Abbreviation transition :=
  (@transition R K caller workers n chunk dispatches).
Local Abbreviation reachable :=
  (@reachable R K caller workers n chunk dispatches ctx0).
Local Abbreviation allowed := (@allowed R caller workers n).
Local Abbreviation shape := (@shape R caller workers n).
Local Abbreviation contexts_ok := (contexts_ok caller workers ctx0).
Local Abbreviation ctx_ok := (@ctx_ok R caller workers ctx0).
Local Abbreviation raised := (@raised R K).
Local Abbreviation raises := (@raises R K chunk).
Local Abbreviation winner_ok := (@winner_ok R K chunk).
Local Abbreviation err_ok := (@err_ok R K chunk).
Local Abbreviation eo_raise := (@eo_raise R K chunk).
Local Abbreviation returns := (@returns R K chunk).
Local Abbreviation dispatched := (dispatched dispatches).
Local Abbreviation res_ok := (@res_ok R K n chunk dispatches).
Local Abbreviation the_call := (the_call chunk).
Local Abbreviation ran := (ran dispatches).
Local Abbreviation calls_ok := (@calls_ok R chunk dispatches).
Local Abbreviation co_live := (@co_live R chunk dispatches).
Local Abbreviation joined := (@joined R n).
Local Abbreviation result_ok := (@result_ok R K).
Local Abbreviation inv := (@inv R K caller workers n chunk dispatches ctx0).
Local Abbreviation measure := (@measure R n).
Local Abbreviation staffed := (staffed caller workers n).

Lemma advance_transition t k c c' :
  advance K chunk t k c = Some c' -> transition c c'.
Proof.
  unfold advance. intros H.
  destruct (tasks c k) eqn:Ek; try discriminate;
    destruct (Nat.eqb_spec t0 t) as [->|]; try discriminate.
  - destruct (body K (fst (chunk k)) (snd (chunk k))) eqn:Eb;
      inversion H; subst; clear H.
    + now apply t_body_ok.
    + now apply t_body_raise.
  - destruct (err_flag c) eqn:Ef; inversion H; subst; clear H.
    + now apply t_claim_lost.
    + now apply t_claim_won.
  - inversion H; subst. now apply t_store.
  - inversion H; subst. now apply t_leave.
Qed.

Lemma step_transition a c c' : step a c = Some c' -> transition c c'.
Proof.
  destruct a as [|w k]; cbn [Engine.step].
  - unfold main_step. destruct (pc c) eqn:Ep; try discriminate.
    + destruct (Nat.ltb_spec k n) as [Hk|Hk].
      * destruct (dispatches k) eqn:Ed; intros H; inversion H; subst.
        -- now apply t_spawn_run.
        -- now apply t_spawn_skip.
      * intros H; inversion H; subst. now apply t_enter with k.
    + destruct (tasks c 0%nat) eqn:E0;
        try (intros H; apply advance_transition in H; exact H).
      intros H; inversion H; subst. now apply t_first_done with t.
    + destruct (Nat.ltb_spec k n) as [Hk|Hk].
      * destruct (tasks c k) eqn:Ek; try discriminate.
        intros H; inversion H; subst. now apply t_wait.
      * destruct (eptr c) eqn:Ee; intros H; inversion H; subst.
        -- now apply t_rethrow with k.
        -- now apply t_return with k.
  - unfold work_step. destruct (is_worker w) eqn:Ew; try discriminate.
    destruct (tasks c k) eqn:Ek;
      try (intros H; apply advance_transition in H; exact H).
    + destruct (busy n w c) eqn:Eb; try discriminate.
      intros H; inversion H; subst. now apply t_pick.
    + destruct (Nat.eqb_spec t w) as [->|]; try discriminate.
      intros H; inversion H; subst. now apply t_mark with w.
Qed.

Lemma run_reachable sched : forall c c',
  reachable c -> run sched c = Some c' -> reachable c'.
Proof.
  induction sched as [|a sched IH]; intros c c' Hc H; cbn in H.
  - now inversion H; subst.
  - destruct (step a c) as [c1|] eqn:E; [|discriminate].
    apply (IH c1); [|exact H].
    apply reach_step with c; [exact Hc|]. now apply step_transition with a.
Qed.

(** *** Shape: how the program point of the caller constrains the tasks *)

Lemma is_worker_caller : is_worker caller = false.
Proof.
  unfold Engine.is_worker. rewrite Nat.eqb_refl. apply andb_false_r.
Qed.

Lemma busy_false w (c : config R) :
  busy n w c = false ->
  forall j, (j < n)%nat -> runner (tasks c j) <> Some w.
Proof.
  unfold busy. intros H j Hj E.
  assert (Hex : existsb
            (fun j => match runner (tasks c j) with
                      | Some t => Nat.eqb t w
                      | None => false
                      end) (seq 0 n) = true).
  { apply existsb_exists. exists j. split.
    - apply in_seq. lia.
    - rewrite E. apply Nat.eqb_refl. }
  congruence.
Qed.

Lemma exclusive_update ts k ph :
  exclusive ts ->
  runner ph = None \/ runner ph = runner (ts k) \/
  (forall j, j <> k -> runner (ts j) <> runner ph) ->
  exclusive (fupd ts k ph).
Proof.
  intros Hex Hph i j. unfold fupd.
  destruct (Nat.eqb_spec i k) as [->|Hi], (Nat.eqb_spec j k) as [->|Hj];
    try congruence.
  - destruct Hph as [E|[E|E]]; intros Hn He.
    + congruence.
    + rewrite E in *. symmetry. apply Hex; congruence.
    + exfalso. apply (E j Hj). congruence.
  - destruct Hph as [E|[E|E]]; intros Hn He.
    + congruence.
    + rewrite E in *. apply Hex; congruence.
    + exfalso. apply (E i Hi). congruence.
  - apply Hex.
Qed.

Lemma shape_init : shape (init K n ctx0).
Proof.
  constructor; cbn.
  - intros j. unfold allowed; cbn. intuition (try congruence; try lia).
  - intros i j H. cbn in H. congruence.
Qed.

Ltac is_prop A := match type of A with Prop => idtac end.

Ltac chain :=
  match goal with
  | H : _ /\ _ |- _ => destruct H
  | H : ?A -> ?B |- _ =>
      is_prop A;
      let HA := fresh in
      assert (HA : A) by solve [assumption | congruence | lia];
      specialize (H HA); clear HA
  | H : _ \/ _ |- _ => destruct H
  | |- _ /\ _ => split
  | |- _ -> _ => intro
  | |- ~ _ => intro
  end.

Ltac crunch :=
  repeat chain;
  try solve [ congruence | lia | assumption | exact I
            | left; crunch | right; crunch ].

Lemma allowed_move p j ph ph' :
  allowed p j ph ->
  ph <> Unborn -> ph <> Completed -> ph' <> Unborn -> ph' <> Queued ->
  (ph' = Completed -> False) ->
  runner ph' = runner ph ->
  allowed p j ph'.
Proof.
  unfold allowed. intros H U C U' Q' C' E. rewrite E.
  destruct p; crunch.
Qed.

Lemma allowed_pick p j w :
  allowed p j Queued -> is_worker w = true -> allowed p j (AtBody w).
Proof. unfold allowed. cbn. intros H W. destruct p; crunch. Qed.

Lemma allowed_mark p j w :
  allowed p j (Returned w) -> is_worker w = true -> allowed p j Completed.
Proof.
  unfold allowed. cbn. intros H W. pose proof is_worker_caller.
  destruct p; crunch.
Qed.

Ltac allowed_update Hall ts k :=
  let j := fresh "j" in
  let Hj := fresh "Hj" in
  let Hk := fresh "Hk" in
  intros j; pose proof (Hall j) as Hj; pose proof (Hall k) as Hk;
  clear Hall;
  try match goal with E : ts k = _ |- _ => rewrite E in Hk end;
  try (unfold fupd; destruct (Nat.eqb_spec j k) as [->|?];
       [ clear Hj | clear Hk; generalize dependent (ts j); intros ]);
  unfold allowed in *; cbn in *; crunch.

Ltac moved Hall :=
  let j := fresh "j" in
  intros j; unfold fupd;
  match goal with
  | |- context [Nat.eqb j ?k] =>
      destruct (Nat.eqb_spec j k) as [->|?]; [|apply Hall]
  end.

Lemma shape_step (c c' : config R) : shape c -> transition c c' -> shape c'.
Proof.
  intros [Hall Hex] Ht.
  pose proof is_worker_caller as Hwc.
  destruct Ht; constructor; cbn.
  all: try (apply exclusive_update; [exact Hex|]).
  all: try exact Hex.
  all: try (left; reflexivity).
  all: try (right; left;
            match goal with E : tasks _ _ = _ |- _ => rewrite E end;
            reflexivity).
  all: try match goal with E : pc _ = _ |- _ => rewrite E in Hall end.
  - (* spawn, dispatched *) allowed_update Hall (tasks c) k.
  - (* spawn, not dispatched *) allowed_update Hall (tasks c) k.
  - (* enter task 0 *) allowed_update Hall (tasks c) 0%nat.
  - right; right. intros j Hj E. cbn in E.
    destruct (Hall j) as (_ & _ & _ & Hw & _). specialize (Hw Hj).
    rewrite E in Hw. congruence.
  - (* pick *) moved Hall. apply allowed_pick; [|assumption].
    rewrite <- H0. apply Hall.
  - right; right. intros j Hj E. cbn in E.
    destruct (Hall j) as (Hb & _ & Hz & _).
    destruct Hb as [Hb| ->].
    + intros X. rewrite X in E. discriminate.
    + now apply (busy_false w c H1 j Hb).
    + destruct Hz as [Hz|[Hz _]]; [reflexivity| |]; congruence.
  - moved Hall. apply allowed_move with (tasks c k);
      [apply Hall|try rewrite H..]; cbn; congruence.
  - moved Hall. apply allowed_move with (tasks c k);
      [apply Hall|try rewrite H..]; cbn; congruence.
  - moved Hall. apply allowed_move with (tasks c k);
      [apply Hall|try rewrite H..]; cbn; congruence.
  - moved Hall. apply allowed_move with (tasks c k);
      [apply Hall|try rewrite H..]; cbn; congruence.
  - moved Hall. apply allowed_move with (tasks c k);
      [apply Hall|try rewrite H..]; cbn; congruence.
  - moved Hall. apply allowed_move with (tasks c k);
      [apply Hall|try rewrite H..]; cbn; congruence.
  - (* mark *) moved Hall. apply allowed_mark with w; [|assumption].
    rewrite <- H0. apply Hall.
  - (* task 0 returned *) allowed_update Hall (tasks c) 0%nat.
  - (* wait *) intros j. pose proof (Hall j) as Hj. clear Hall.
    destruct (Nat.eq_dec j k) as [->|Hne];
      [rewrite H1 in *|generalize dependent (tasks c j); intros];
      unfold allowed in *; cbn in *; crunch.
  - (* rethrow *) intros j. pose proof (Hall j) as Hj.
    clear Hall. unfold allowed in *. cbn in *. crunch.
  - (* return *) intros j. pose proof (Hall j) as Hj.
    clear Hall. unfold allowed in *. cbn in *. crunch.
Qed.

(** Consequences of the shape at the steps that start a closure. *)

Lemma spawn_unborn (c : config R) k :
  shape c -> pc c = Spawn k ->
  k <> 0%nat /\ tasks c k = Unborn /\ tasks c 0%nat = Unborn.
Proof.
  intros [Hall _] Hp.
  pose proof (Hall k) as Hk. pose proof (Hall 0%nat) as H0.
  rewrite Hp in *. unfold allowed in *. crunch.
Qed.

Lemma caller_free (c : config R) k :
  shape c -> pc c = Spawn k ->
  forall j, runner (tasks c j) <> Some caller.
Proof.
  intros [Hall _] Hp j E. pose proof is_worker_caller as Hwc.
  pose proof (Hall j) as Hj. rewrite Hp in Hj.
  destruct Hj as (_ & _ & Hz & Hw & _).
  destruct (Nat.eq_dec j 0%nat) as [->|Hne].
  - destruct Hz as [Hz|[_ Hz]]; [reflexivity| |]; congruence.
  - specialize (Hw Hne). rewrite E in Hw. congruence.
Qed.

Lemma worker_free (c : config R) w :
  shape c -> is_worker w = true -> busy n w c = false ->
  forall j, runner (tasks c j) <> Some w.
Proof.
  intros [Hall _] Hw Hb j E. pose proof is_worker_caller as Hwc.
  destruct (Hall j) as (Hborn & _ & Hz & _).
  destruct Hborn as [Hlt| ->].
  - intros X. rewrite X in E. discriminate.
  - now apply (busy_false w c Hb j Hlt).
  - destruct Hz as [Hz|[Hz _]]; [reflexivity| |]; congruence.
Qed.

Lemma worker_task (c : config R) k w :
  shape c -> is_worker w = true -> runner (tasks c k) = Some w ->
  k <> 0%nat /\ (k < n)%nat.
Proof.
  intros [Hall _] Hw E. pose proof is_worker_caller as Hwc.
  destruct (Hall k) as (Hborn & _ & Hz & _).
  assert (Hk : k <> 0%nat).
  { intros ->. destruct Hz as [Hz|[Hz _]]; [reflexivity| |]; congruence. }
  split; [exact Hk|].
  destruct Hborn as [Hlt|Hlt]; [|exact Hlt|contradiction].
  intros X. rewrite X in E. discriminate.
Qed.

Lemma queued_task (c : config R) k :
  shape c -> tasks c k = Queued -> k <> 0%nat /\ (k < n)%nat.
Proof.
  intros [Hall _] E.
  destruct (Hall k) as (Hborn & Hq & _). rewrite E in *.
  assert (Hk : k <> 0%nat) by (intros ->; now apply Hq).
  split; [exact Hk|].
  destruct Hborn as [Hlt|Hlt]; [discriminate|exact Hlt|contradiction].
Qed.

(** *** Thread-local contexts *)

Lemma task_prologue_context j c : task_prologue j c = chunk_context j.
Proof. reflexivity. Qed.

Lemma task_epilogue_context c : task_epilogue c = idle_context.
Proof. reflexivity. Qed.

Lemma contexts_ext ic ic' cx :
  (forall j, ic' j = ic j) -> contexts_ok ic cx -> contexts_ok ic' cx.
Proof.
  intros E [H1 H2]. split.
  - intros j t Hj. apply H1. now rewrite <- E.
  - intros t Hn. apply H2. intros j. rewrite <- E. apply Hn.
Qed.

Lemma contexts_enter ic cx k t :
  contexts_ok ic cx -> ic k = None -> (forall j, ic j <> Some t) ->
  contexts_ok (fupd ic k (Some t)) (fupd cx t (chunk_context k)).
Proof.
  intros [H1 H2] Hk Hfree. split.
  - intros j t' E. unfold fupd in *.
    destruct (Nat.eqb_spec j k) as [->|Hj].
    + inversion E; subst. now rewrite Nat.eqb_refl.
    + destruct (Nat.eqb_spec t' t) as [->|Ht].
      * exfalso. now apply (Hfree j).
      * now apply H1.
  - intros t' Hn. unfold fupd in *.
    destruct (Nat.eqb_spec t' t) as [->|Ht].
    + exfalso. apply (Hn k). now rewrite Nat.eqb_refl.
    + apply H2. intros j E. apply (Hn j).
      destruct (Nat.eqb_spec j k) as [->|Hj]; [congruence|exact E].
Qed.

Lemma contexts_leave ic cx k t :
  contexts_ok ic cx -> ic k = Some t -> (forall j, ic j = Some t -> j = k) ->
  t = caller \/ is_worker t = true ->
  contexts_ok (fupd ic k None) (fupd cx t idle_context).
Proof.
  intros [H1 H2] Hk Hone Hp. split.
  - intros j t' E. unfold fupd in *.
    destruct (Nat.eqb_spec j k) as [->|Hj]; [discriminate|].
    destruct (Nat.eqb_spec t' t) as [->|Ht].
    + exfalso. apply Hj. now apply Hone.
    + now apply H1.
  - intros t' Hn. unfold fupd in *.
    destruct (Nat.eqb_spec t' t) as [->|Ht]; [now right|].
    apply H2. intros j E. apply (Hn j).
    destruct (Nat.eqb_spec j k) as [->|Hj]; [congruence|exact E].
Qed.

Lemma runner_kind (c : config R) k t :
  shape c -> runner (tasks c k) = Some t ->
  t = caller \/ is_worker t = true.
Proof.
  intros [Hall _] E. destruct (Hall k) as (_ & _ & Hz & Hw & _).
  destruct (Nat.eq_dec k 0%nat) as [->|Hne].
  - left. destruct Hz as [Hz|[Hz _]]; [reflexivity| |]; congruence.
  - right. specialize (Hw Hne). now rewrite E in Hw.
Qed.

Lemma in_chunk_runner ph t : in_chunk ph = Some t -> runner ph = Some t.
Proof. destruct ph; cbn; congruence. Qed.

Lemma in_chunk_update (ts : nat -> phase) k ph j :
  in_chunk (fupd ts k ph j) = fupd (fun i => in_chunk (ts i)) k (in_chunk ph) j.
Proof. unfold fupd. now destruct (Nat.eqb j k). Qed.

Lemma in_chunk_kept (ts : nat -> phase) k ph j :
  in_chunk ph = in_chunk (ts k) -> in_chunk (fupd ts k ph j) = in_chunk (ts j).
Proof.
  intros E. unfold fupd. destruct (Nat.eqb_spec j k) as [->|]; congruence.
Qed.

Lemma ctx_init : ctx_ok (init K n ctx0).
Proof.
  split; cbn.
  - discriminate.
  - intros t _. now left.
Qed.

Lemma ctx_step (c c' : config R) :
  shape c -> ctx_ok c -> transition c c' -> ctx_ok c'.
Proof.
  intros Hs Hc Ht. unfold ctx_ok in *.
  destruct Ht; cbn;
    try (apply contexts_ext with (2 := Hc); intros j; apply in_chunk_kept;
         first [ rewrite H; reflexivity | rewrite H0; reflexivity
               | destruct (spawn_unborn c k Hs H) as (_ & -> & _);
                 reflexivity ]);
    try exact Hc.
  - (* enter task 0 *)
    destruct (spawn_unborn c k Hs H) as (_ & _ & E0).
    apply contexts_ext
      with (ic := fupd (fun j => in_chunk (tasks c j)) 0 (Some caller)).
    + intros j. apply in_chunk_update.
    + apply contexts_enter; [exact Hc|now rewrite E0|].
      intros j E. apply in_chunk_runner in E.
      now apply (caller_free c k Hs H j).
  - (* pick *)
    apply contexts_ext
      with (ic := fupd (fun j => in_chunk (tasks c j)) k (Some w)).
    + intros j. apply in_chunk_update.
    + apply contexts_enter; [exact Hc|now rewrite H0|].
      intros j E. apply in_chunk_runner in E.
      now apply (worker_free c w Hs H H1 j).
  - (* leave *)
    apply contexts_ext
      with (ic := fupd (fun j => in_chunk (tasks c j)) k None).
    + intros j. apply in_chunk_update.
    + apply contexts_leave; [exact Hc|now rewrite H| |].
      * intros j E. apply in_chunk_runner in E.
        destruct Hs as [_ Hex]. apply Hex; rewrite E; [discriminate|].
        now rewrite H.
      * apply (runner_kind c k t Hs). now rewrite H.
Qed.

(** *** The exception slot *)

Lemma captured_app tr ev : captured (tr ++ [ev]) = captured tr ++ captured [ev].
Proof. unfold captured. apply flat_map_app. Qed.

Lemma raised_app tr ev : raised (tr ++ [ev]) = raised tr || raised [ev].
Proof. unfold raised. apply existsb_app. Qed.

Lemma err_quiet (c c' : config R) k new :
  err_ok c -> quiet (tasks c k) new ->
  tasks c' = fupd (tasks c) k new ->
  err_flag c' = err_flag c -> eptr c' = eptr c ->
  captured (trace c') = captured (trace c) ->
  raised (trace c') = raised (trace c) ->
  err_ok c'.
Proof.
  intros [Hr Hw Hp] Hq Et Ef Ee Ec Er.
  assert (Hnew : forall t x, new <> AtCatch t x /\ new <> AtStore t x).
  { intros t x. destruct (tasks c k), new; cbn in Hq; try contradiction;
      split; discriminate. }
  assert (Hold : forall t x, tasks c k <> AtCatch t x /\ tasks c k <> AtStore t x).
  { intros t x. destruct (tasks c k), new; cbn in Hq; try contradiction;
      split; discriminate. }
  assert (Hkeep : forall j t x,
            tasks c' j = AtCatch t x \/ tasks c' j = AtStore t x ->
            tasks c' j = tasks c j).
  { intros j t x Hj. rewrite Et in *. unfold fupd in *.
    destruct (Nat.eqb_spec j k); [|reflexivity].
    destruct (Hnew t x). destruct Hj; contradiction. }
  constructor.
  - intros j t x Hj. rewrite (Hkeep j t x Hj) in Hj. now apply (Hr j t x).
  - rewrite Ec. destruct (captured (trace c)) as [|[k0 x0] rest].
    + destruct Hw as (Hf & He & Hn). rewrite Ef, Ee. repeat split; trivial.
      intros j t x Hj. apply (Hn j t x).
      now rewrite <- (Hkeep j t x (or_intror Hj)).
    + destruct Hw as (Hf & Hx & Hu & Hm). unfold winner_ok.
      rewrite Ef, Ee. repeat split; trivial.
      * intros j t y Hj. apply (Hu j t y).
        now rewrite <- (Hkeep j t y (or_intror Hj)).
      * rewrite Et. unfold fupd.
        destruct (Nat.eqb_spec k0 k) as [->|]; [|exact Hm].
        destruct (tasks c k), new; cbn in Hq; try contradiction;
          try exact Hm.
  - rewrite Er, Ef. intros H. destruct (Hp H) as [Hf|(j & t & x & Hj)].
    + now left.
    + right. exists j, t, x. rewrite Et. unfold fupd.
      destruct (Nat.eqb_spec j k) as [->|]; [|exact Hj].
      destruct (Hold t x). contradiction.
Qed.

Lemma err_frame (c c' : config R) :
  err_ok c -> tasks c' = tasks c ->
  err_flag c' = err_flag c -> eptr c' = eptr c ->
  captured (trace c') = captured (trace c) ->
  raised (trace c') = raised (trace c) ->
  err_ok c'.
Proof.
  intros [Hr Hw Hp] Et Ef Ee Ec Er.
  constructor; unfold winner_ok in *; rewrite ?Et, ?Ef, ?Ee, ?Ec, ?Er;
    assumption.
Qed.

Lemma err_init : err_ok (init K n ctx0).
Proof.
  constructor; unfold init, fresh_trace; cbn.
  - intros j t x [H|H]; discriminate.
  - destruct (buffer K); cbn; repeat split; trivial; intros; discriminate.
  - destruct (buffer K); cbn; discriminate.
Qed.

Ltac same_log :=
  cbn -[captured raised]; rewrite ?captured_app, ?raised_app; cbn;
  rewrite ?app_nil_r, ?orb_false_r; reflexivity.

Lemma err_body_raise (c : config R) t k x :
  err_ok c -> tasks c k = AtBody t -> raises k x ->
  err_ok (set_phase k (AtCatch t x) (invoke t k c)).
Proof.
  intros [Hr Hw Hp] Hk Hx. constructor; cbn.
  - intros j t' x' Hj. unfold fupd in Hj.
    destruct (Nat.eqb_spec j k) as [->|]; [|now apply (Hr j t' x')].
    destruct Hj as [Hj|Hj]; inversion Hj; subst. exact Hx.
  - rewrite captured_app. cbn. rewrite app_nil_r.
    destruct (captured (trace c)) as [|[k0 x0] rest].
    + destruct Hw as (Hf & He & Hn). repeat split; trivial.
      intros j t' x'. unfold fupd.
      destruct (Nat.eqb_spec j k); [discriminate|apply Hn].
    + destruct Hw as (Hf & Hx0 & Hu & Hm). unfold winner_ok; cbn.
      repeat split; trivial.
      * intros j t' y. unfold fupd.
        destruct (Nat.eqb_spec j k); [discriminate|apply Hu].
      * unfold fupd. destruct (Nat.eqb_spec k0 k) as [->|]; [|exact Hm].
        now rewrite Hk in Hm.
  - intros _. right. exists k, t, x. unfold fupd. now rewrite Nat.eqb_refl.
Qed.

Lemma err_claim_lost (c : config R) t k x :
  err_ok c -> tasks c k = AtCatch t x -> err_flag c = true ->
  err_ok (set_phase k (AtExit t) (log (EvClaim k x false) c)).
Proof.
  intros [Hr Hw Hp] Hk Hf. constructor; cbn.
  - intros j t' x' Hj. unfold fupd in Hj.
    destruct (Nat.eqb_spec j k) as [->|]; [|now apply (Hr j t' x')].
    destruct Hj; discriminate.
  - rewrite captured_app. cbn.
    destruct (captured (trace c)) as [|[k0 x0] rest]; cbn.
    + destruct Hw as (Hf' & _). congruence.
    + destruct Hw as (_ & Hx0 & Hu & Hm). unfold winner_ok; cbn.
      repeat split; trivial.
      * intros j t' y. unfold fupd.
        destruct (Nat.eqb_spec j k); [discriminate|apply Hu].
      * unfold fupd. destruct (Nat.eqb_spec k0 k) as [->|]; [|exact Hm].
        now rewrite Hk in Hm.
  - intros _. now left.
Qed.

Lemma err_claim_won (c : config R) t k x :
  err_ok c -> tasks c k = AtCatch t x -> err_flag c = false ->
  err_ok (set_phase k (AtStore t x) (set_flag (log (EvClaim k x true) c))).
Proof.
  intros [Hr Hw Hp] Hk Hf. constructor; cbn.
  - intros j t' x' Hj. unfold fupd in Hj.
    destruct (Nat.eqb_spec j k) as [->|]; [|now apply (Hr j t' x')].
    destruct Hj as [Hj|Hj]; inversion Hj; subst.
    apply (Hr k t' x'). now left.
  - rewrite captured_app. cbn.
    destruct (captured (trace c)) as [|[k0 x0] rest]; cbn.
    + destruct Hw as (_ & He & Hn). unfold winner_ok; cbn.
      repeat split; trivial.
      * apply (Hr k t x). now left.
      * intros j t' y. unfold fupd.
        destruct (Nat.eqb_spec j k); [trivial|].
        intros Hj. now apply Hn in Hj.
      * unfold fupd. rewrite Nat.eqb_refl. now split.
    + destruct Hw as (Hf' & _). congruence.
  - intros _. now left.
Qed.

Lemma err_store (c : config R) t k x :
  err_ok c -> tasks c k = AtStore t x ->
  err_ok (set_phase k (AtExit t) (set_eptr x c)).
Proof.
  intros [Hr Hw Hp] Hk. constructor; cbn -[captured raised].
  - intros j t' x' Hj. unfold fupd in Hj.
    destruct (Nat.eqb_spec j k) as [->|]; [|now apply (Hr j t' x')].
    destruct Hj; discriminate.
  - destruct (captured (trace c)) as [|[k0 x0] rest]; cbn.
    + destruct Hw as (_ & _ & Hn). now apply Hn in Hk.
    + destruct Hw as (Hf & Hx0 & Hu & Hm). unfold winner_ok; cbn.
      pose proof (Hu k t x Hk) as ->. rewrite Hk in Hm.
      destruct Hm as [-> _].
      repeat split; trivial.
      * intros j t' y. unfold fupd.
        destruct (Nat.eqb_spec j k0); [discriminate|apply Hu].
      * unfold fupd. now rewrite Nat.eqb_refl.
  - intros H. destruct (Hp H) as [Hf|(j & t' & x' & Hj)]; [now left|].
    right. exists j, t', x'. unfold fupd.
    destruct (Nat.eqb_spec j k) as [->|]; [congruence|exact Hj].
Qed.

Lemma err_step (c c' : config R) :
  shape c -> err_ok c -> transition c c' -> err_ok c'.
Proof.
  intros Hs He Ht.
  destruct Ht.
  - (* spawn, dispatched *)
    destruct (spawn_unborn c k Hs H) as (_ & Ek & _).
    apply err_quiet with c k Queued; trivial; try same_log.
    now rewrite Ek.
  - destruct (spawn_unborn c k Hs H) as (_ & Ek & _).
    apply err_quiet with c k Completed; trivial; try same_log.
    now rewrite Ek.
  - destruct (spawn_unborn c k Hs H) as (_ & _ & E0).
    apply err_quiet with c 0%nat (AtBody caller); trivial; try same_log.
    now rewrite E0.
  - apply err_quiet with c k (AtBody w); trivial; try same_log.
    now rewrite H0.
  - (* body returns *)
    apply err_quiet with c k (AtExit t); trivial; try same_log.
    + now rewrite H.
    + cbn. rewrite raised_app. cbn. rewrite H0. now rewrite orb_false_r.
  - now apply err_body_raise.
  - now apply err_claim_lost.
  - now apply err_claim_won.
  - now apply err_store.
  - apply err_quiet with c k (Returned t); trivial; try same_log.
    now rewrite H.
  - apply err_quiet with c k Completed; trivial; try same_log.
    now rewrite H0.
  - apply err_quiet with c 0%nat Completed; trivial; try same_log.
    now rewrite H0.
  - apply err_frame with c; trivial; same_log.
  - apply err_frame with c; trivial; same_log.
  - apply err_frame with c; trivial; same_log.
Qed.

(** *** The results vector *)

Lemma res_init : res_ok (init K n ctx0).
Proof. constructor; cbn; [reflexivity|discriminate]. Qed.

(** A step that leaves the vector alone. *)
Lemma res_update (c c' : config R) k new :
  res_ok c -> results c' = results c -> tasks c' = fupd (tasks c) k new ->
  (settled new = true ->
   settled (tasks c k) = true \/ dispatched k = false \/
   exists x, raises k x) ->
  res_ok c'.
Proof.
  intros [Hl Hv] Er Et Hn. constructor; rewrite Er; [exact Hl|].
  intros j r Hs Hd Hr Hj. rewrite Et in Hs. unfold fupd in Hs.
  destruct (Nat.eqb_spec j k) as [->|]; [|now apply Hv].
  destruct (Hn Hs) as [Ho|[Ho|[x Ho]]].
  - now apply Hv.
  - congruence.
  - unfold raises, returns in *. congruence.
Qed.

Lemma res_frame (c c' : config R) :
  res_ok c -> results c' = results c -> tasks c' = tasks c -> res_ok c'.
Proof.
  intros [Hl Hv] Er Et. constructor; rewrite Er, ?Et; assumption.
Qed.

Lemma res_body_ok (c : config R) t k r :
  res_ok c -> returns k r ->
  res_ok (set_phase k (AtExit t) (set_result k r (invoke t k c))).
Proof.
  intros [Hl Hv] Hr. constructor; cbn.
  - now rewrite length_insert.
  - intros j r' Hs Hd Hr' Hj. rewrite length_insert in Hj.
    unfold fupd in Hs. destruct (Nat.eqb_spec j k) as [->|Hne].
    + unfold returns in *. rewrite Hr in Hr'. inversion Hr'; subst.
      now apply list_lookup_insert_eq.
    + rewrite list_lookup_insert_ne by congruence. now apply Hv.
Qed.

Lemma res_step (c c' : config R) :
  shape c -> err_ok c -> res_ok c -> transition c c' -> res_ok c'.
Proof.
  intros Hs He Hr Ht.
  destruct Ht.
  - apply res_update with c k Queued; trivial. discriminate.
  - apply res_update with c k Completed; trivial. intros _.
    right; left. unfold dispatched.
    destruct (spawn_unborn c k Hs H) as (Hk & _).
    apply Nat.eqb_neq in Hk. now rewrite Hk, H1.
  - apply res_update with c 0%nat (AtBody caller); trivial. discriminate.
  - apply res_update with c k (AtBody w); trivial. discriminate.
  - now apply res_body_ok.
  - apply res_update with c k (AtCatch t x); trivial. discriminate.
  - apply res_update with c k (AtExit t); trivial. intros _.
    right; right. exists x. apply (eo_raise c He k t x). now left.
  - apply res_update with c k (AtStore t x); trivial. discriminate.
  - apply res_update with c k (AtExit t); trivial. intros _.
    right; right. exists x. apply (eo_raise c He k t x). now right.
  - apply res_update with c k (Returned t); trivial. intros _.
    left. now rewrite H.
  - apply res_update with c k Completed; trivial. intros _.
    left. now rewrite H0.
  - apply res_update with c 0%nat Completed; trivial. intros _.
    left. now rewrite H0.
  - now apply res_frame with c.
  - now apply res_frame with c.
  - now apply res_frame with c.
Qed.

(** *** What the trace records *)

Lemma calls_app j tr evs : calls j (tr ++ evs) = calls j tr ++ calls j evs.
Proof. unfold calls. apply List.filter_app. Qed.

Lemma calls_silent j evs : forallb no_invoke evs = true -> calls j evs = [].
Proof.
  induction evs as [|ev evs IH]; [reflexivity|]. cbn.
  intros H. apply andb_true_iff in H as [H1 H2].
  unfold calls in *. cbn. destruct ev; try discriminate; now apply IH.
Qed.

Lemma in_silent evs t cx s e :
  forallb no_invoke evs = true -> ~ In (EvInvoke t cx s e) evs.
Proof.
  intros H Hin. rewrite forallb_forall in H. now apply H in Hin.
Qed.

Lemma calls_init : calls_ok (init K n ctx0).
Proof.
  constructor; unfold init, fresh_trace; cbn.
  - intros j. now destruct (buffer K).
  - discriminate.
  - intros t cx s e. destruct (buffer K); cbn; intuition discriminate.
Qed.

(** A step that does not call the body. *)
Lemma calls_update (c c' : config R) k new evs :
  calls_ok c -> trace c' = trace c ++ evs -> forallb no_invoke evs = true ->
  tasks c' = fupd (tasks c) k new ->
  ran k new = ran k (tasks c k) ->
  (k <> 0%nat -> live new = true -> dispatches k = true) ->
  calls_ok c'.
Proof.
  intros [Hc Hl Hk] Etr Hev Et Hran Hlive. constructor.
  - intros j. rewrite Etr, calls_app, (calls_silent j evs Hev), app_nil_r.
    rewrite Et. unfold fupd. destruct (Nat.eqb_spec j k) as [->|].
    + rewrite Hran. apply Hc.
    + apply Hc.
  - intros j Hj. rewrite Et. unfold fupd.
    destruct (Nat.eqb_spec j k) as [->|]; [now apply Hlive|now apply Hl].
  - intros t cx s e. rewrite Etr, in_app_iff. intros [H|H].
    + now apply (Hk t cx s e).
    + now apply in_silent in H.
Qed.

Lemma calls_frame (c c' : config R) evs :
  calls_ok c -> trace c' = trace c ++ evs -> forallb no_invoke evs = true ->
  tasks c' = tasks c -> calls_ok c'.
Proof.
  intros [Hc Hl Hk] Etr Hev Et. constructor.
  - intros j. rewrite Etr, calls_app, (calls_silent j evs Hev), app_nil_r, Et.
    apply Hc.
  - rewrite Et. exact Hl.
  - intros t cx s e. rewrite Etr, in_app_iff. intros [H|H].
    + now apply (Hk t cx s e).
    + now apply in_silent in H.
Qed.

(** The step that calls the body. *)
Lemma calls_body (c c' : config R) t k new :
  calls_ok c -> tasks c k = AtBody t -> ctx c t = chunk_context k ->
  trace c' = trace c ++ [EvInvoke t (ctx c t) (fst (chunk k)) (snd (chunk k))] ->
  tasks c' = fupd (tasks c) k new ->
  ran k new = true -> live new = true ->
  calls_ok c'.
Proof.
  intros [Hc Hl Hk] Hold Hcx Etr Et Hran Hlive. rewrite Hcx in Etr.
  constructor.
  - intros j. rewrite Etr, calls_app, Et. unfold fupd.
    destruct (Nat.eqb_spec j k) as [->|Hne].
    + rewrite Hran. specialize (Hc k). rewrite Hold in Hc. cbn in Hc.
      rewrite Hc. exists t. unfold calls. cbn.
      now rewrite Z.eqb_refl.
    + replace (calls j [EvInvoke t (chunk_context k) (chunk k).1 (chunk k).2])
        with (@nil event); [rewrite app_nil_r; apply Hc|].
      unfold calls. cbn.
      destruct (Z.eqb_spec (Z.of_nat k) (Z.of_nat j)) as [E|E]; [lia|].
      reflexivity.
  - intros j Hj. rewrite Et. unfold fupd.
    destruct (Nat.eqb_spec j k) as [->|]; [|now apply Hl].
    intros _. apply Hl; [exact Hj|]. now rewrite Hold.
  - intros t' cx s e. rewrite Etr, in_app_iff. intros [H|[H|[]]].
    + now apply (Hk t' cx s e).
    + inversion H; subst. exists k. split; [reflexivity|now destruct (chunk k)].
Qed.

Ltac logged := cbn; rewrite <- ?app_assoc, ?app_nil_r; reflexivity.

Lemma calls_step (c c' : config R) :
  shape c -> ctx_ok c -> calls_ok c -> transition c c' -> calls_ok c'.
Proof.
  intros Hs Hx Hc Ht.
  assert (Hold : forall k, live (tasks c k) = true ->
                 k <> 0%nat -> live (tasks c k) = true -> dispatches k = true).
  { intros k Hl Hk _. now apply (co_live c Hc). }
  destruct Ht.
  - destruct (spawn_unborn c k Hs H) as (_ & Ek & _).
    apply calls_update
      with c k Queued [EvFuture k; EvRun k (fst (chunk k)) (snd (chunk k))];
      trivial; try logged.
    now rewrite Ek.
  - destruct (spawn_unborn c k Hs H) as (Hk & Ek & _).
    apply calls_update with c k Completed [EvFuture k; EvMark k];
      trivial; try logged; try discriminate.
    rewrite Ek. cbn. unfold dispatched.
    apply Nat.eqb_neq in Hk. now rewrite Hk, H1.
  - destruct (spawn_unborn c k Hs H) as (_ & _ & E0).
    apply calls_update with c 0%nat (AtBody caller) (@nil event);
      trivial; try logged; try congruence.
    now rewrite E0.
  - apply calls_update with c k (AtBody w) (@nil event);
      trivial; try logged.
    + now rewrite H0.
    + intros Hk _. apply (co_live c Hc); trivial. now rewrite H0.
  - apply calls_body with c t k (AtExit t); trivial.
    destruct Hx as [Hx _]. apply (Hx k t). now rewrite H.
  - apply calls_body with c t k (AtCatch t x); trivial.
    destruct Hx as [Hx _]. apply (Hx k t). now rewrite H.
  - apply calls_update with c k (AtExit t) [EvClaim k x false];
      trivial; try logged.
    + now rewrite H.
    + intros Hk _. apply (co_live c Hc); trivial. now rewrite H.
  - apply calls_update with c k (AtStore t x) [EvClaim k x true];
      trivial; try logged.
    + now rewrite H.
    + intros Hk _. apply (co_live c Hc); trivial. now rewrite H.
  - apply calls_update with c k (AtExit t) (@nil event);
      trivial; try logged.
    + now rewrite H.
    + intros Hk _. apply (co_live c Hc); trivial. now rewrite H.
  - apply calls_update with c k (Returned t) (@nil event);
      trivial; try logged.
    + now rewrite H.
    + intros Hk _. apply (co_live c Hc); trivial. now rewrite H.
  - apply calls_update with c k Completed [EvMark k];
      trivial; try logged; try discriminate.
    rewrite H0. cbn. unfold dispatched.
    destruct (worker_task c k w Hs H) as (Hk & _); [now rewrite H0|].
    rewrite (co_live c Hc k Hk); [apply orb_true_r|now rewrite H0].
  - apply calls_update with c 0%nat Completed (@nil event);
      trivial; try logged; try discriminate.
    now rewrite H0.
  - apply calls_frame with c [EvWait k]; trivial.
  - apply calls_frame with c [EvRethrow x]; trivial.
  - apply calls_frame with c (@nil event); trivial. logged.
Qed.

(** *** Waiting and rethrowing *)

Lemma waits_app tr evs : waits (tr ++ evs) = waits tr ++ waits evs.
Proof. unfold waits. apply flat_map_app. Qed.

Lemma rethrows_app tr evs : rethrows (tr ++ evs) = rethrows tr ++ rethrows evs.
Proof. unfold rethrows. apply flat_map_app. Qed.

Lemma joined_init : joined (init K n ctx0).
Proof. unfold joined, init, fresh_trace; cbn. now destruct (buffer K). Qed.

(** Once the call has ended nothing moves. *)
Lemma done_stuck (c c' : config R) r :
  shape c -> pc c = Done r -> transition c c' -> False.
Proof.
  intros [Hall _] Hp Ht.
  assert (Hk : forall k, tasks c k = Unborn \/ tasks c k = Completed).
  { intros k. pose proof (Hall k) as Hk. rewrite Hp in Hk.
    unfold allowed in Hk. destruct (tasks c k); crunch. }
  destruct Ht; try congruence;
    match goal with E : tasks c ?k = _ |- _ =>
      destruct (Hk k); congruence end.
Qed.

Lemma join_bounds (c : config R) k :
  shape c -> pc c = Join k -> (1 <= k)%nat /\ (k <= n \/ k = 1)%nat.
Proof.
  intros [Hall _] Hp. pose proof (Hall 0%nat) as H0. rewrite Hp in H0.
  unfold allowed in H0. crunch.
Qed.

Lemma joined_step (c c' : config R) :
  shape c -> joined c -> transition c c' -> joined c'.
Proof.
  intros Hs Hj Ht. unfold joined in *.
  destruct (pc c) as [k0| |k0|r] eqn:Ep;
    [| | |exfalso; now apply (done_stuck c c' r)].
  all: destruct Ht; try congruence; cbn -[waits rethrows];
    rewrite ?Ep, ?waits_app, ?rethrows_app; cbn; rewrite ?app_nil_r;
    try exact Hj.
  - (* wait *)
    assert (k = k0) by congruence. subst k.
    destruct (join_bounds c k0 Hs Ep) as (Hk & _).
    destruct Hj as [-> ->]. split; [|reflexivity].
    replace (k0 - 0)%nat with (S (k0 - 1)) by lia.
    rewrite seq_S. f_equal. f_equal. lia.
  - (* rethrow *)
    assert (k = k0) by congruence. subst k.
    destruct (join_bounds c k0 Hs Ep) as (Hk & Hn).
    exists (trace c). destruct Hj as [-> ->].
    repeat split. f_equal. lia.
  - (* return *)
    assert (k = k0) by congruence. subst k.
    destruct (join_bounds c k0 Hs Ep) as (Hk & Hn).
    destruct Hj as [-> ->]. split; [|reflexivity]. f_equal. lia.
Qed.

(** *** What the call returns *)

Lemma result_step (c c' : config R) :
  shape c -> result_ok c -> transition c c' -> result_ok c'.
Proof.
  intros Hs Hr Ht. unfold result_ok in *.
  destruct (pc c) as [k0| |k0|r] eqn:Ep;
    [| | |exfalso; now apply (done_stuck c c' r)].
  all: destruct Ht; try congruence; cbn; rewrite ?Ep; auto.
Qed.

(** *** All invariants together *)

Lemma inv_init : inv (init K n ctx0).
Proof.
  constructor.
  - apply shape_init.
  - apply ctx_init.
  - apply err_init.
  - apply res_init.
  - apply calls_init.
  - apply joined_init.
  - exact I.
Qed.

Lemma inv_step (c c' : config R) : inv c -> transition c c' -> inv c'.
Proof.
  intros [Hs Hx He Hr Hc Hj Hf] Ht. constructor.
  - now apply shape_step with c.
  - now apply ctx_step with c.
  - now apply err_step with c.
  - now apply res_step with c.
  - now apply calls_step with c.
  - now apply joined_step with c.
  - now apply result_step with c.
Qed.

Lemma inv_reachable (c : config R) : reachable c -> inv c.
Proof.
  induction 1 as [|c c' _ IH Ht]; [apply inv_init|now apply inv_step with c].
Qed.

Lemma inv_run sched (c' : config R) :
  run sched (init K n ctx0) = Some c' -> inv c'.
Proof.
  intros H. apply inv_reachable.
  apply run_reachable with sched (init K n ctx0); [constructor|exact H].
Qed.

(** *** The state in which the call ends *)

Section Final.

Variable c : config R.
Variable r : outcome R.
Hypothesis Hinv : inv c.
Hypothesis Hdone : pc c = Done r.

Lemma final_phase k : tasks c k = Unborn \/ tasks c k = Completed.
Proof.
  destruct Hinv as [[Hall _] _ _ _ _ _ _].
  pose proof (Hall k) as Hk. rewrite Hdone in Hk.
  unfold allowed in Hk. destruct (tasks c k); crunch.
Qed.

Lemma final_completed k : (k < n \/ k = 0)%nat -> tasks c k = Completed.
Proof.
  destruct Hinv as [[Hall _] _ _ _ _ _ _].
  pose proof (Hall k) as Hk. rewrite Hdone in Hk.
  unfold allowed in Hk. crunch.
Qed.

(** Every thread is back to the context it had, or to the idle one. *)
Lemma final_context t :
  ctx c t = ctx0 t \/
  (ctx c t = idle_context /\ (t = caller \/ is_worker t = true)).
Proof.
  destruct Hinv as [_ [_ Hx] _ _ _ _ _]. apply Hx.
  intros j. cbn. destruct (final_phase j) as [-> | ->]; discriminate.
Qed.

(** Each task that went through [task] called the body once, with its
    chunk, in the context of lines 55-56. *)
Lemma final_calls k :
  (k < n \/ k = 0)%nat -> dispatched k = true ->
  exists t, calls k (trace c) = [the_call t k].
Proof.
  intros Hk Hd. destruct Hinv as [_ _ _ _ [Hc _ _] _ _].
  specialize (Hc k). rewrite (final_completed k Hk) in Hc. cbn in Hc.
  now rewrite Hd in Hc.
Qed.

(** The call throws exactly when some call of the body raised, and then it
    throws what the first handler to reach [test_and_set] caught. *)
Lemma final_raise :
  raised (trace c) = true ->
  exists k x rest,
    captured (trace c) = (k, x) :: rest /\ raises k x /\ r = Raise x.
Proof.
  intros Hr. destruct Hinv as [_ _ [_ Hw Hp] _ _ _ Hres].
  destruct (Hp Hr) as [Hf|(j & t & x & Hj)].
  - destruct (captured (trace c)) as [|[k x] rest].
    + destruct Hw as (Hf' & _). congruence.
    + destruct Hw as (_ & Hx & _ & Hm). exists k, x, rest.
      repeat split; trivial.
      destruct (final_phase k) as [E|E]; rewrite E in Hm; [contradiction|].
      unfold result_ok in Hres. rewrite Hdone in Hres.
      destruct r as [v|y]; [destruct Hres; congruence|congruence].
  - destruct (final_phase j); congruence.
Qed.

(** Conversely, what the call throws was caught by the first handler,
    and a call that returns had no handler run. *)
Lemma final_result :
  match r with
  | Raise x => exists k rest, captured (trace c) = (k, x) :: rest /\ raises k x
  | Ok v => captured (trace c) = [] /\ v = finish K (results c)
  end.
Proof.
  destruct Hinv as [_ _ [_ Hw _] _ _ _ Hres].
  unfold result_ok in Hres. rewrite Hdone in Hres.
  destruct (captured (trace c)) as [|[k x] rest].
  - destruct Hw as (_ & He & _).
    destruct r as [v|y]; [now destruct Hres|congruence].
  - destruct Hw as (_ & Hx & _ & Hm).
    destruct (final_phase k) as [E|E]; rewrite E in Hm; [contradiction|].
    destruct r as [v|y].
    + destruct Hres. congruence.
    + exists k, rest. split; congruence.
Qed.

(** The results vector holds what each task computed. *)
Lemma final_results k v :
  (k < n \/ k = 0)%nat -> dispatched k = true -> returns k v ->
  (k < length (results c))%nat -> results c !! k = Some v.
Proof.
  intros Hk Hd Hv Hl. destruct Hinv as [_ _ _ [_ Hr] _ _ _].
  apply Hr; trivial. now rewrite (final_completed k Hk).
Qed.

End Final.

(** *** Every execution ends, and some execution exists *)

Lemma total_cons ts a len :
  total_from ts a (S len) = (weight (ts a) + total_from ts (S a) len)%nat.
Proof. reflexivity. Qed.

Lemma total_other ts k ph a len :
  (k < a \/ a + len <= k)%nat ->
  total_from (fupd ts k ph) a len = total_from ts a len.
Proof.
  revert a. induction len as [|len IH]; intros a Hk; [reflexivity|].
  rewrite !total_cons, IH by lia.
  rewrite fupd_other by lia. reflexivity.
Qed.

Lemma total_update ts k ph a len :
  (a <= k < a + len)%nat ->
  (total_from (fupd ts k ph) a len + weight (ts k) =
   total_from ts a len + weight ph)%nat.
Proof.
  revert a. induction len as [|len IH]; intros a Hk; [lia|].
  rewrite !total_cons.
  destruct (Nat.eq_dec a k) as [->|Hne].
  - rewrite fupd_same, total_other by lia. lia.
  - rewrite fupd_other by lia. specialize (IH (S a) ltac:(lia)). lia.
Qed.

Lemma born_index (c : config R) k :
  shape c -> tasks c k <> Unborn -> (0 <= k < 0 + Nat.max n 1)%nat.
Proof.
  intros [Hall _] Hk. destruct (Hall k) as (Hb & _).
  specialize (Hb Hk). lia.
Qed.

Lemma measure_step (c c' : config R) :
  shape c -> transition c c' -> (measure c' < measure c)%nat.
Proof.
  intros Hs Ht. unfold measure.
  destruct Ht; cbn;
    try match goal with
    | E : tasks c ?k = ?ph |- context [fupd (tasks c) ?k ?new] =>
        let Hb := fresh in
        assert (Hb : tasks c k <> Unborn) by (rewrite E; discriminate);
        pose proof (total_update (tasks c) k new 0 (Nat.max n 1)
                      (born_index c k Hs Hb)) as Hu;
        rewrite E in Hu; cbn in Hu
    end;
    try rewrite H; cbn; try lia.
  - destruct (spawn_unborn c k Hs H) as (_ & Ek & _).
    pose proof (total_update (tasks c) k Queued 0 (Nat.max n 1)
                  ltac:(lia)) as Hu.
    rewrite Ek in Hu. cbn in Hu. lia.
  - destruct (spawn_unborn c k Hs H) as (_ & Ek & _).
    pose proof (total_update (tasks c) k Completed 0 (Nat.max n 1)
                  ltac:(lia)) as Hu.
    rewrite Ek in Hu. cbn in Hu. lia.
  - destruct (spawn_unborn c k Hs H) as (_ & _ & E0).
    pose proof (total_update (tasks c) 0 (AtBody caller) 0 (Nat.max n 1)
                  ltac:(lia)) as Hu.
    rewrite E0 in Hu. cbn in Hu. lia.
Qed.

(** A thread in the middle of a closure can take its next step. *)
Lemma runner_steps (c : config R) k t :
  runner (tasks c k) = Some t ->
  (t = caller /\ pc c = First /\ k = 0%nat) \/ is_worker t = true ->
  exists a c', step a c = Some c'.
Proof.
  intros Hr [(-> & Hp & ->)|Hw].
  - exists Main. cbn. unfold main_step. rewrite Hp.
    destruct (tasks c 0%nat) eqn:E; cbn in Hr; try discriminate;
      inversion Hr; subst; unfold advance; rewrite ?E, ?Nat.eqb_refl;
      try (destruct (body K _ _)); try (destruct (err_flag c)); eauto.
  - exists (Work t k). cbn. unfold work_step. rewrite Hw.
    destruct (tasks c k) eqn:E; cbn in Hr; try discriminate;
      inversion Hr; subst; unfold advance; rewrite ?E, ?Nat.eqb_refl;
      try (destruct (body K _ _)); try (destruct (err_flag c)); eauto.
Qed.

Lemma busy_true w (c : config R) :
  busy n w c = true -> exists j, runner (tasks c j) = Some w.
Proof.
  unfold busy. intros H. apply existsb_exists in H as (j & _ & Hj).
  exists j. destruct (runner (tasks c j)) as [t|]; [|discriminate].
  apply Nat.eqb_eq in Hj. now subst.
Qed.

Lemma progress (c : config R) :
  staffed -> shape c -> (forall r, pc c <> Done r) ->
  exists a c', step a c = Some c'.
Proof.
  intros Hst Hs Hnd. pose proof Hs as [Hall _].
  destruct (pc c) as [k| |k|r] eqn:Ep; [| | |now destruct (Hnd r)].
  - exists Main. cbn. unfold main_step. rewrite Ep.
    destruct (k <? n)%nat; [destruct (dispatches k)|]; eauto.
  - pose proof (Hall 0%nat) as H0.
    destruct H0 as (_ & _ & _ & _ & Hr & _).
    apply runner_steps with 0%nat caller; [now apply Hr|]. now left.
  - destruct (Nat.ltb_spec k n) as [Hk|Hk].
    + destruct (join_bounds c k Hs Ep) as (Hk1 & _).
      pose proof (Hall k) as Hak.
      destruct Hak as (_ & _ & _ & Hw & _ & _ & _ & _ & Hborn).
      specialize (Hw ltac:(lia)). specialize (Hborn ltac:(lia)).
      destruct (tasks c k) eqn:E; try contradiction; cbn in Hw;
        try (apply runner_steps with k t; [now rewrite E|now right]).
      * (* queued: some pool thread picks it, or is busy elsewhere *)
        destruct Hst as [Hn|[w Hw']]; [lia|].
        destruct (busy n w c) eqn:Eb.
        -- destruct (busy_true w c Eb) as (j & Hj).
           apply runner_steps with j w; [exact Hj|now right].
        -- exists (Work w k). cbn. unfold work_step.
           rewrite Hw', E, Eb. eauto.
      * exists Main. cbn. unfold main_step. rewrite Ep.
        destruct (Nat.ltb_spec k n); [|lia]. rewrite E. eauto.
    + exists Main. cbn. unfold main_step. rewrite Ep.
      destruct (Nat.ltb_spec k n); [lia|]. destruct (eptr c); eauto.
Qed.

Lemma shape_after (a : action) (c c' : config R) :
  shape c -> step a c = Some c' -> shape c'.
Proof.
  intros Hs H. apply shape_step with c; [exact Hs|].
  now apply step_transition with a.
Qed.

(** From any well-shaped state some schedule completes the call. *)
Lemma completes :
  staffed -> forall m (c : config R),
  (measure c < m)%nat -> shape c ->
  exists sched c' r, run sched c = Some c' /\ pc c' = Done r.
Proof.
  intros Hst. induction m as [|m IH]; intros c Hm Hs; [lia|].
  destruct (pc c) as [k| |k|r] eqn:Ep;
    try (destruct (progress c Hst Hs) as (a & c1 & Hstep);
         [intros r; congruence|];
         destruct (IH c1) as (sched & c' & r & Hrun & Hd);
         [pose proof (measure_step c c1 Hs (step_transition a c c1 Hstep));
          lia
         |now apply shape_after with a c|];
         exists (a :: sched), c', r; cbn; rewrite Hstep; now split).
  exists [], c, r. now split.
Qed.

(** No execution runs forever: a schedule longer than the measure of the
    state it starts from is refused. *)
Lemma run_bounded sched : forall (c c' : config R),
  shape c -> run sched c = Some c' -> (length sched <= measure c)%nat.
Proof.
  induction sched as [|a sched IH]; intros c c' Hs H; cbn in *; [lia|].
  destruct (step a c) as [c1|] eqn:E; [|discriminate].
  pose proof (measure_step c c1 Hs (step_transition a c c1 E)).
  specialize (IH c1 c' (shape_after a c c1 Hs E) H). lia.
Qed.

End Machine.

End EngineFacts.

(** ** Calls of [parallel_for] and [parallel_reduce] *)

Module CallFacts.

Import Plan Engine Invariant Observe IntFacts PlanFacts EngineFacts.

Section Call.

Context {R : Type}.
Variable K : kernel R.
Variable what : string.
Variable num_threads : Z.
Variable caller : thread.
Variable workers : list thread.
Variables begin end_ grain_size : Z.
Variable ctx0 : thread -> RegionContext.

Local Abbreviation n :=
  (Z.to_nat (num_tasks num_threads begin end_ grain_size)).
Local Abbreviation chunk := (Plan.chunk num_threads begin end_ grain_size).
Local Abbreviation dispatches :=
  (fun k => Plan.dispatches num_threads begin end_ grain_size (Z.of_nat k)).
Local Abbreviation call :=
  (fork_join K what num_threads caller workers begin end_ grain_size ctx0).
Local Abbreviation run :=
  (Engine.run K caller workers n chunk dispatches).
Local Abbreviation rethrown_first :=
  (@rethrown_first R K num_threads begin end_ grain_size).

Lemma call_empty sched :
  end_ <= begin ->
  call sched =
    Some {| res := Ok (nothing K); ctx_out := ctx0; trace_out := [] |}.
Proof.
  intros H. unfold fork_join.
  destruct (Z.leb_spec end_ begin); [reflexivity|lia].
Qed.

Lemma call_invalid sched :
  begin < end_ -> grain_size < 0 ->
  call sched =
    Some {| res := Raise (runtime_error what); ctx_out := ctx0;
            trace_out := [] |}.
Proof.
  intros H1 H2. unfold fork_join.
  destruct (Z.leb_spec end_ begin); [lia|].
  destruct (Z.ltb_spec grain_size 0); [reflexivity|lia].
Qed.

Lemma call_direct sched :
  begin < end_ -> 0 <= grain_size ->
  forks begin end_ grain_size (ctx0 caller) = false ->
  call sched =
    Some {| res := body K begin end_; ctx_out := ctx0;
            trace_out := [EvInvoke caller (ctx0 caller) begin end_] |}.
Proof.
  intros H1 H2 H3. unfold fork_join.
  destruct (Z.leb_spec end_ begin); [lia|].
  destruct (Z.ltb_spec grain_size 0); [lia|].
  now rewrite H3.
Qed.

Lemma call_forked sched out :
  begin < end_ -> 0 <= grain_size ->
  forks begin end_ grain_size (ctx0 caller) = true ->
  call sched = Some out <->
  exists c, run sched (init K n ctx0) = Some c /\
            pc c = Done (res out) /\ ctx_out out = ctx c /\
            trace_out out = trace c.
Proof.
  intros H1 H2 H3. unfold fork_join.
  destruct (Z.leb_spec end_ begin); [lia|].
  destruct (Z.ltb_spec grain_size 0); [lia|].
  rewrite H3. split.
  - destruct (run sched (init K n ctx0)) as [c|]; [|discriminate].
    destruct (pc c) eqn:Ep; try discriminate.
    intros E. inversion E; subst. exists c. cbn. auto.
  - intros (c & -> & Hp & Hx & Ht). rewrite Hp.
    destruct out as [r cx tr]. cbn in *. now subst.
Qed.

(** The subtraction of line 44 never makes a short range look long. *)
Lemma to_int64_le d : 0 <= d -> to_int64 d <= d.
Proof.
  intros Hd. unfold to_int64, Int.two64.
  pose proof (Z.mod_le (d + 2 ^ 63) (2 ^ 64) ltac:(lia) ltac:(lia)). lia.
Qed.

Lemma forks_false :
  begin < end_ ->
  end_ - begin < grain_size \/ in_parallel_region (ctx0 caller) = true ->
  forks begin end_ grain_size (ctx0 caller) = false.
Proof.
  intros Hlt [H|H]; unfold forks.
  - unfold large_enough, span.
    pose proof (to_int64_le (end_ - begin) ltac:(lia)).
    destruct (Z.leb_spec grain_size (to_int64 (end_ - begin))); [lia|].
    reflexivity.
  - rewrite H. apply andb_false_r.
Qed.

(** Some schedule completes the call, and no schedule runs forever. *)
Lemma call_completes :
  staffed caller workers n -> exists sched out, call sched = Some out.
Proof.
  intros Hst.
  destruct (Z.leb_spec end_ begin) as [H1|H1].
  { eexists [], _. now apply call_empty. }
  destruct (Z.ltb_spec grain_size 0) as [H2|H2].
  { eexists [], _. now apply call_invalid. }
  destruct (forks begin end_ grain_size (ctx0 caller)) eqn:H3.
  - destruct (completes K caller workers n chunk dispatches Hst
                (S (measure n (init K n ctx0))) (init K n ctx0))
      as (sched & c & r & Hrun & Hd); [lia|exact (shape_init K caller workers n chunk dispatches ctx0)|].
    exists sched, {| res := r; ctx_out := ctx c; trace_out := trace c |}.
    apply call_forked; trivial. exists c. cbn. auto.
  - eexists [], _. now apply call_direct.
Qed.

(** *** Exceptions *)

Lemma call_rethrows sched out :
  call sched = Some out -> raised K (trace_out out) = true ->
  exists x,
    res out = Raise x /\
    if forks begin end_ grain_size (ctx0 caller)
    then rethrown_first out x
    else trace_out out = [EvInvoke caller (ctx0 caller) begin end_] /\
         body K begin end_ = Raise x.
Proof.
  intros Hcall Hr.
  destruct (Z.leb_spec end_ begin) as [H1|H1].
  { rewrite call_empty in Hcall by trivial. inversion Hcall; subst.
    discriminate. }
  destruct (Z.ltb_spec grain_size 0) as [H2|H2].
  { rewrite call_invalid in Hcall by trivial. inversion Hcall; subst.
    discriminate. }
  destruct (forks begin end_ grain_size (ctx0 caller)) eqn:H3.
  - apply call_forked in Hcall as (c & Hrun & Hp & Hx & Ht); trivial.
    pose proof (inv_run K caller workers n chunk dispatches ctx0 sched c
                  Hrun) as Hinv.
    rewrite Ht in Hr.
    destruct (final_raise K caller workers n chunk dispatches ctx0 c
                (res out) Hinv Hp Hr) as (k & x & rest & Hc & Hk & Hres).
    exists x. split; [exact Hres|].
    pose proof (inv_joined _ _ _ _ _ _ _ c Hinv) as Hj.
    unfold joined in Hj. rewrite Hp, Hres in Hj.
    destruct Hj as (tr & Etr & Hw & Hre).
    exists tr, k, rest. rewrite Ht. repeat split; trivial.
    + rewrite Etr, captured_app in Hc. cbn in Hc.
      now rewrite app_nil_r in Hc.
    + intros j Hjn Hd.
      destruct (final_calls K caller workers n chunk dispatches ctx0 c
                  (res out) Hinv Hp j (or_introl Hjn) Hd) as (t & Hcalls).
      exists t. rewrite Etr, calls_app in Hcalls. cbn in Hcalls.
      now rewrite app_nil_r in Hcalls.
  - rewrite call_direct in Hcall by trivial. inversion Hcall; subst.
    cbn in *. destruct (body K begin end_) as [v|x]; [discriminate|].
    exists x. auto.
Qed.

(** *** Thread-local contexts *)

Lemma at_rest_idle c :
  at_rest c -> in_parallel_region c = false -> c = idle_context.
Proof.
  intros H E. specialize (H E). destruct c as [b o]. cbn in *. now subst.
Qed.

Lemma call_restores sched out :
  call sched = Some out ->
  at_rest (ctx0 caller) ->
  (forall w, is_worker caller workers w = true -> ctx0 w = idle_context) ->
  forall t, ctx_out out t = ctx0 t.
Proof.
  intros Hcall Hc Hw t.
  destruct (Z.leb_spec end_ begin) as [H1|H1].
  { rewrite call_empty in Hcall by trivial. now inversion Hcall. }
  destruct (Z.ltb_spec grain_size 0) as [H2|H2].
  { rewrite call_invalid in Hcall by trivial. now inversion Hcall. }
  destruct (forks begin end_ grain_size (ctx0 caller)) eqn:H3.
  - apply call_forked in Hcall as (c & Hrun & Hp & Hx & Ht); trivial.
    pose proof (inv_run K caller workers n chunk dispatches ctx0 sched c
                  Hrun) as Hinv.
    rewrite Hx.
    destruct (final_context K caller workers n chunk dispatches ctx0 c
                (res out) Hinv Hp t) as [E|(E & [-> |Ht'])]; trivial.
    + rewrite E. symmetry. apply at_rest_idle; [exact Hc|].
      unfold forks in H3. apply andb_true_iff in H3 as [_ H3].
      now destruct (in_parallel_region (ctx0 caller)).
    + rewrite E. symmetry. now apply Hw.
  - rewrite call_direct in Hcall by trivial. now inversion Hcall.
Qed.

(** In the fork-join branch every call of the body sees the context that
    lines 55-56 set up for its task. *)
Lemma call_contexts sched out :
  call sched = Some out ->
  forks begin end_ grain_size (ctx0 caller) = true ->
  forall t cx s e,
    In (EvInvoke t cx s e) (trace_out out) ->
    exists j, cx = chunk_context j /\ (s, e) = chunk j.
Proof.
  intros Hcall H3.
  destruct (Z.leb_spec end_ begin) as [H1|H1].
  { rewrite call_empty in Hcall by trivial. inversion Hcall; subst.
    intros t cx s e []. }
  destruct (Z.ltb_spec grain_size 0) as [H2|H2].
  { rewrite call_invalid in Hcall by trivial. inversion Hcall; subst.
    intros t cx s e []. }
  apply call_forked in Hcall as (c & Hrun & Hp & Hx & Ht); trivial.
  pose proof (inv_run K caller workers n chunk dispatches ctx0 sched c
                Hrun) as Hinv.
  rewrite Ht. apply (co_known chunk dispatches c). now destruct Hinv.
Qed.

(** *** The sequential branch *)

Lemma call_sequential sched :
  begin < end_ -> 0 <= grain_size ->
  end_ - begin < grain_size \/ in_parallel_region (ctx0 caller) = true ->
  call sched =
    Some {| res := body K begin end_; ctx_out := ctx0;
            trace_out := [EvInvoke caller (ctx0 caller) begin end_] |}.
Proof.
  intros H1 H2 H3. apply call_direct; trivial. now apply forks_false.
Qed.

End Call.

End CallFacts.

(** ** The chunks partition the range *)

Module Partition.

Import Plan Observe IntFacts PlanFacts.

Lemma indices_empty s e : e <= s -> indices s e = [].
Proof.
  intros H. unfold indices. replace (Z.to_nat (e - s)) with 0%nat by lia.
  reflexivity.
Qed.

Lemma in_indices s e i : In i (indices s e) <-> s <= i < e.
Proof.
  unfold indices. rewrite in_map_iff. split.
  - intros (j & <- & Hj). apply in_seq in Hj. lia.
  - intros H. exists (Z.to_nat (i - s)). split; [lia|].
    apply in_seq. lia.
Qed.

Lemma map_seq_from {A} (f : nat -> A) a b :
  map f (seq a b) = map (fun i => f (a + i)%nat) (seq 0 b).
Proof.
  revert f a. induction b as [|b IH]; intros f a; [reflexivity|].
  cbn [seq map]. rewrite Nat.add_0_r. f_equal.
  rewrite (IH f (S a)), (IH (fun i => f (a + i)%nat) 1%nat).
  apply map_ext. intros i. f_equal. lia.
Qed.

Lemma indices_split s m e :
  s <= m <= e -> indices s e = indices s m ++ indices m e.
Proof.
  intros H. unfold indices.
  replace (Z.to_nat (e - s)) with (Z.to_nat (m - s) + Z.to_nat (e - m))%nat
    by lia.
  rewrite seq_app, map_app. f_equal.
  rewrite map_seq_from. apply map_ext. intros i. lia.
Qed.

Section Forking.

Variables num_threads begin end_ grain_size : Z.

Hypothesis threads_pos : 1 <= num_threads <= INT64_MAX.
Hypothesis begin_int64 : is_int64 begin.
Hypothesis end_int64 : is_int64 end_.
Hypothesis nonempty : begin < end_.
Hypothesis grain_nonneg : 0 <= grain_size.
Hypothesis large : large_enough begin end_ grain_size = true.

Local Abbreviation cs := (chunk_size num_threads begin end_ grain_size).
Local Abbreviation nt := (num_tasks num_threads begin end_ grain_size).
Local Abbreviation chunk := (Plan.chunk num_threads begin end_ grain_size).

(** No sum of line 77 exceeds [INT64_MAX]. *)
Hypothesis fits : begin + nt * cs <= INT64_MAX.

Lemma chunk_bounds (k : nat) :
  Z.of_nat k < nt ->
  chunk k = (begin + Z.of_nat k * cs,
             Z.min end_ (begin + (Z.of_nat k + 1) * cs)) /\
  begin + Z.of_nat k * cs < Z.min end_ (begin + (Z.of_nat k + 1) * cs).
Proof.
  intros Hk.
  destruct (chunk_size_exact num_threads begin end_ grain_size)
    as (_ & Hc); trivial.
  destruct (local_start_exact num_threads begin end_ grain_size
              threads_pos begin_int64 end_int64 nonempty grain_nonneg large
              (Z.of_nat k)) as (_ & Hlt); [lia|].
  split; [|lia].
  apply chunk_exact; trivial. nia.
Qed.

(** Chunk 0 starts at [begin], consecutive chunks touch, the last chunk
    ends at [end]. *)
Lemma chunks_contiguous :
  fst (chunk 0) = begin /\
  (forall k : nat, Z.of_nat k + 1 < nt -> snd (chunk k) = fst (chunk (S k))) /\
  snd (chunk (Z.to_nat (nt - 1))) = end_.
Proof.
  destruct (chunk_size_exact num_threads begin end_ grain_size)
    as (_ & Hc); trivial.
  destruct (num_tasks_exact num_threads begin end_ grain_size)
    as (_ & Hn & Hm); trivial.
  repeat split.
  - intros k Hk.
    destruct (chunk_bounds k ltac:(lia)) as (-> & _).
    destruct (chunk_bounds (S k) ltac:(lia)) as (-> & _). cbn [fst snd].
    destruct (local_start_exact num_threads begin end_ grain_size
              threads_pos begin_int64 end_int64 nonempty grain_nonneg large
              (Z.of_nat (S k))) as (_ & Hlt); [lia|].
    lia.
  - destruct (chunk_bounds (Z.to_nat (nt - 1)) ltac:(lia)) as (-> & _).
    cbn [snd]. rewrite Z2Nat.id by lia.
    replace (nt - 1 + 1) with nt by lia. lia.
Qed.

(** Every index of the range lies in exactly one chunk. *)
Lemma chunks_cover i :
  begin <= i < end_ ->
  exists k : nat,
    Z.of_nat k < nt /\ fst (chunk k) <= i < snd (chunk k) /\
    forall j : nat, Z.of_nat j < nt ->
      fst (chunk j) <= i < snd (chunk j) -> j = k.
Proof.
  intros Hi.
  destruct (chunk_size_exact num_threads begin end_ grain_size)
    as (_ & Hc); trivial.
  destruct (num_tasks_exact num_threads begin end_ grain_size)
    as (_ & Hn & Hm); trivial.
  set (q := (i - begin) / cs).
  assert (Hq : q * cs <= i - begin < (q + 1) * cs).
  { pose proof (Z.div_mod (i - begin) cs ltac:(lia)).
    pose proof (Z.mod_pos_bound (i - begin) cs ltac:(lia)).
    unfold q. nia. }
  assert (Hq0 : 0 <= q) by (apply Z.div_pos; lia).
  assert (Hqn : q < nt) by nia.
  exists (Z.to_nat q). split; [lia|].
  destruct (chunk_bounds (Z.to_nat q) ltac:(lia)) as (-> & _).
  cbn [fst snd]. rewrite Z2Nat.id by lia. split; [lia|].
  intros j Hj. destruct (chunk_bounds j Hj) as (-> & _). cbn [fst snd].
  intros Hij. assert (Z.of_nat j = q) by nia. lia.
Qed.

(** In task order the chunks list the range from left to right. *)
Lemma chunks_concat (m : nat) :
  Z.of_nat m <= nt ->
  concat (map (fun k => indices (fst (chunk k)) (snd (chunk k))) (seq 0 m)) =
  indices begin (Z.min end_ (begin + Z.of_nat m * cs)).
Proof.
  destruct (chunk_size_exact num_threads begin end_ grain_size)
    as (_ & Hc); trivial.
  induction m as [|m IH]; intros Hm.
  - cbn. rewrite indices_empty; [reflexivity|lia].
  - rewrite seq_S, map_app, concat_app, IH by lia. cbn [map concat Nat.add].
    rewrite app_nil_r.
    destruct (chunk_bounds m ltac:(lia)) as (-> & Hlt). cbn [fst snd].
    destruct (local_start_exact num_threads begin end_ grain_size
              threads_pos begin_int64 end_int64 nonempty grain_nonneg large
              (Z.of_nat m)) as (_ & Hs); [lia|].
    replace (Z.min end_ (begin + Z.of_nat m * cs))
      with (begin + Z.of_nat m * cs) by lia.
    replace (Z.of_nat (S m)) with (Z.of_nat m + 1) by lia.
    symmetry. apply indices_split. nia.
Qed.

Lemma chunks_partition :
  concat (map (fun k => indices (fst (chunk k)) (snd (chunk k)))
              (seq 0 (Z.to_nat nt))) =
  indices begin end_.
Proof.
  destruct (num_tasks_exact num_threads begin end_ grain_size)
    as (_ & Hn & Hm); trivial.
  rewrite chunks_concat by lia. f_equal. lia.
Qed.

End Forking.

End Partition.

(** ** [parallel_reduce] against the sequential fold *)

Module ReduceFacts.

Import Plan Engine Invariant Observe IntFacts PlanFacts EngineFacts
  CallFacts Partition.

Section Monoid.

Context {R : Type}.
Variable sf : R -> R -> R.
Variable ident : R.
Variable g : Z -> R.

Hypothesis sf_assoc : forall a b c, sf a (sf b c) = sf (sf a b) c.
Hypothesis sf_ident_r : forall a, sf a ident = a.

Local Abbreviation fold_range := (@fold_range R sf g).

Lemma fold_left_assoc l a b :
  fold_left sf l (sf a b) = sf a (fold_left sf l b).
Proof.
  revert b. induction l as [|x l IH]; intros b; [reflexivity|].
  cbn. rewrite <- sf_assoc. apply IH.
Qed.

Lemma fold_from l a : fold_left sf l a = sf a (fold_left sf l ident).
Proof. rewrite <- fold_left_assoc. now rewrite sf_ident_r. Qed.

(** Folding the partial results of consecutive pieces is folding the
    whole. *)
Lemma fold_pieces (ls : list (list Z)) a :
  fold_left sf
    (map (fun l => fold_left sf (map g l) ident) ls) a =
  fold_left sf (map g (concat ls)) a.
Proof.
  revert a. induction ls as [|l ls IH]; intros a; [reflexivity|].
  cbn [map concat fold_left]. rewrite IH, map_app, fold_left_app.
  f_equal. symmetry. apply fold_from.
Qed.

End Monoid.

Section Reduce.

Context {R : Type}.
Variable zero : R.
Variable num_threads : Z.
Variable caller : thread.
Variable workers : list thread.
Variables begin end_ grain_size : Z.
Variable ident : R.
Variable f : Z -> Z -> R -> outcome R.
Variable sf : R -> R -> R.
Variable ctx0 : thread -> RegionContext.

Hypothesis threads_pos : 1 <= num_threads <= INT64_MAX.
Hypothesis begin_int64 : is_int64 begin.
Hypothesis end_int64 : is_int64 end_.
Hypothesis nonempty : begin < end_.
Hypothesis grain_nonneg : 0 <= grain_size.

(** The body never raises: it returns [F s e] on [(s, e, ident)]. *)
Variable F : Z -> Z -> R.
Hypothesis f_returns : forall s e, f s e ident = Ok (F s e).

Local Abbreviation n :=
  (Z.to_nat (num_tasks num_threads begin end_ grain_size)).
Local Abbreviation chunk := (Plan.chunk num_threads begin end_ grain_size).
Local Abbreviation dispatches :=
  (fun k => Plan.dispatches num_threads begin end_ grain_size (Z.of_nat k)).
Local Abbreviation K := (reduce_kernel zero ident f sf).

(** Whatever the interleaving, a forking call returns the fold of the
    partial results of its chunks, in task order. *)
Lemma reduce_by_chunks sched out :
  forks begin end_ grain_size (ctx0 caller) = true ->
  parallel_reduce zero num_threads caller workers begin end_ grain_size
    ident f sf ctx0 sched = Some out ->
  res out =
    Ok (fold_left sf
          (map (fun k => F (fst (chunk k)) (snd (chunk k))) (seq 0 n))
          ident).
Proof.
  unfold parallel_reduce. intros H3 Hcall.
  pose proof H3 as Hl. unfold forks in Hl.
  apply andb_true_iff in Hl as [Hl _].
  apply call_forked in Hcall as (c & Hrun & Hp & Hx & Ht); trivial.
  pose proof (inv_run K caller workers n chunk dispatches ctx0 sched c
                Hrun) as Hinv.
  destruct (num_tasks_exact num_threads begin end_ grain_size)
    as (_ & Hn & _); trivial.
  pose proof (final_result K caller workers n chunk dispatches ctx0 c
                (res out) Hinv Hp) as Hres.
  destruct (res out) as [v|x].
  - destruct Hres as (_ & ->). f_equal. cbn [finish K reduce_kernel].
    assert (Hlen : length (results c) = n).
    { rewrite (ro_length K n chunk dispatches c
                 (inv_res _ _ _ _ _ _ _ c Hinv)).
      unfold fresh_results. cbn. apply length_replicate. }
    f_equal. apply list_eq. intros k.
    destruct (Nat.lt_ge_cases k n) as [Hk|Hk].
    + rewrite (final_results K caller workers n chunk dispatches ctx0 c
                 _ Hinv Hp k (F (fst (chunk k)) (snd (chunk k)))).
      * rewrite list_lookup_fmap, lookup_seq_lt by exact Hk. reflexivity.
      * now left.
      * unfold dispatched.
        rewrite (dispatches_all num_threads begin end_ grain_size)
          by (trivial; lia).
        apply orb_true_r.
      * unfold returns. cbn. apply f_returns.
      * lia.
    + rewrite !lookup_ge_None_2; trivial.
      * rewrite length_fmap, length_seq. lia.
      * lia.
  - destruct Hres as (k & rest & _ & Hk). unfold raises in Hk. cbn in Hk.
    rewrite f_returns in Hk. discriminate.
Qed.

(** When [sf] is associative with right identity [ident], the body folds
    [sf] over its range and no sum of line 77 exceeds [INT64_MAX], the call
    returns the sequential fold over the whole range. *)
Variable g : Z -> R.
Hypothesis sf_assoc : forall a b c, sf a (sf b c) = sf (sf a b) c.
Hypothesis sf_ident_r : forall a, sf a ident = a.
Hypothesis f_folds : forall s e, F s e = fold_range sf g s e ident.
Hypothesis fits :
  begin + num_tasks num_threads begin end_ grain_size *
          chunk_size num_threads begin end_ grain_size <= INT64_MAX.

Lemma reduce_sequential sched out :
  parallel_reduce zero num_threads caller workers begin end_ grain_size
    ident f sf ctx0 sched = Some out ->
  res out = Ok (fold_range sf g begin end_ ident).
Proof.
  intros Hcall.
  destruct (forks begin end_ grain_size (ctx0 caller)) eqn:H3.
  - rewrite (reduce_by_chunks sched out H3 Hcall). f_equal.
    pose proof H3 as Hl. unfold forks in Hl.
    apply andb_true_iff in Hl as [Hl _].
    rewrite (map_ext _ (fun k => fold_left sf
               (map g (indices (fst (chunk k)) (snd (chunk k)))) ident))
      by (intros k; apply f_folds).
    rewrite <- (map_map (fun k => indices (fst (chunk k)) (snd (chunk k)))
                        (fun l => fold_left sf (map g l) ident)).
    rewrite (fold_pieces sf ident g sf_assoc sf_ident_r).
    unfold fold_range. do 2 f_equal.
    now apply chunks_partition.
  - unfold parallel_reduce, fork_join in Hcall.
    destruct (Z.leb_spec end_ begin); [lia|].
    destruct (Z.ltb_spec grain_size 0); [lia|].
    rewrite H3 in Hcall. inversion Hcall; subst. cbn.
    rewrite f_returns. f_equal. apply f_folds.
Qed.

End Reduce.

End ReduceFacts.

(** ** The inter-op pool *)

Module InteropFacts.

Import Interop IntFacts.

Section Pool.

Variable hardware_concurrency : Z.

Local Abbreviation get := (get_num_interop_threads hardware_concurrency).
Local Abbreviation launch := (Interop.launch hardware_concurrency).

(** While a user value is committed, it is what the getter returns. *)
Lemma get_user_requested st :
  0 < num_interop_threads st <= INT_MAX ->
  get st = (Value (num_interop_threads st), st).
Proof.
  intros H. unfold get_num_interop_threads.
  destruct (Z.ltb_spec 0 (num_interop_threads st)); [|lia].
  rewrite to_size_t_id; [reflexivity|].
  unfold is_size_t, Int.two64, INT_MAX in *. lia.
Qed.

(** While nothing is committed, the getter returns the hint and commits
    nothing. *)
Lemma get_unset st :
  num_interop_threads st = -1 -> get st = (Value hardware_concurrency, st).
Proof. intros H. unfold get_num_interop_threads. now rewrite H. Qed.

(** The first [launch] after a user value was committed builds a pool of
    that size, and from then on the getter returns the size of the pool. *)
Lemma launch_committed n k :
  0 < n <= INT_MAX ->
  let st := {| num_interop_threads := n; get_pool_static := None;
               createC10ThreadPool_static := None; launched := k |} in
  let st' := {| num_interop_threads := -2; get_pool_static := Some n;
                createC10ThreadPool_static := Some n; launched := S k |} in
  launch st = (Value tt, st') /\ get st' = (Value n, st').
Proof.
  intros H. cbn. unfold Interop.launch, get_pool, createC10ThreadPool,
    PTThreadPool. cbn.
  destruct (Z.ltb_spec 0 n); [|lia].
  rewrite to_size_t_id by (unfold is_size_t, Int.two64, INT_MAX in *; lia).
  rewrite Z.eqb_refl. cbn. split; reflexivity.
Qed.

(** With no committed value the creator is called with [pool_size = -1]:
    it builds a pool of [hardware_concurrency()] threads and then fails the
    assertion of line 45; the atomic is left at [-2] and the getter fails
    in the same way from then on. *)
Lemma launch_unset_fails k :
  0 <= hardware_concurrency < 2 ^ 32 ->
  let st := {| num_interop_threads := -1; get_pool_static := None;
               createC10ThreadPool_static := None; launched := k |} in
  let st' := {| num_interop_threads := -2; get_pool_static := None;
                createC10ThreadPool_static := Some hardware_concurrency;
                launched := k |} in
  launch st = (Error (assertion_failed "pool->size() == pool_size"), st') /\
  get st' = (Error (assertion_failed "pool->size() == pool_size"), st') /\
  launch st' = (Error (assertion_failed "pool->size() == pool_size"), st').
Proof.
  intros H.
  assert (E1 : to_size_t (-1) = 18446744073709551615) by reflexivity.
  assert (E2 : to_size_t (-2) = 18446744073709551614) by reflexivity.
  cbn. unfold Interop.launch, get_num_interop_threads, get_pool,
    createC10ThreadPool, PTThreadPool. cbn. rewrite E1, E2.
  destruct (Z.eqb_spec hardware_concurrency 18446744073709551615);
    [lia|].
  destruct (Z.eqb_spec hardware_concurrency 18446744073709551614);
    [lia|].
  cbn. repeat split; reflexivity.
Qed.

(** A second non-zero request, or a non-zero request after the pool
    exists, is refused and changes nothing. *)
Lemma set_refused n st :
  n <> 0 -> num_interop_threads st <> -1 ->
  set_num_interop_threads n st =
    (Error (runtime_error
       "Error: cannot set number of interop threads after parallel work has started"),
     st).
Proof.
  intros Hn Hs. unfold set_num_interop_threads.
  destruct (Z.eqb_spec n 0); [contradiction|].
  destruct (Z.eqb_spec (num_interop_threads st) (-1)); [contradiction|].
  reflexivity.
Qed.

Lemma set_commits n st :
  0 < n <= INT_MAX -> num_interop_threads st = -1 ->
  set_num_interop_threads n st =
    (Value tt,
     {| num_interop_threads := n;
        get_pool_static := get_pool_static st;
        createC10ThreadPool_static := createC10ThreadPool_static st;
        launched := launched st |}).
Proof.
  intros Hn Hs. unfold set_num_interop_threads.
  destruct (Z.eqb_spec n 0); [lia|]. rewrite Hs. cbn.
  rewrite to_int_id by (unfold INT_MAX in *; lia). reflexivity.
Qed.

Lemma set_zero st : set_num_interop_threads 0 st = (Value tt, st).
Proof. reflexivity. Qed.

End Pool.

(** C7: [get_num_interop_threads] is meant to return the size of the real
    pool after [launch] has materialised it, which is the hardware
    concurrency when no value was committed.  On a fresh process with
    [hardware_concurrency() = 8] the code does not get there: [launch]
    fails the assertion [pool->size() == pool_size] (8 against -1), the
    state is left at -2, and the getter fails in the same way. *)
Theorem launch_without_request_fails :
  let st' := snd (launch 8 initial) in
  fst (launch 8 initial) =
    Error (assertion_failed "pool->size() == pool_size") /\
  num_interop_threads st' = -2 /\
  fst (get_num_interop_threads 8 st') =
    Error (assertion_failed "pool->size() == pool_size") /\
  fst (get_num_interop_threads 8 st') <> Value 8.
Proof. cbv. repeat split; discriminate. Qed.

(** C8, as stated: after a value has been committed every later call with
    any value raises.  Not for the value 0: line 54 returns before the
    state is looked at. *)
Lemma set_zero_after_commit_returns :
  let st := snd (set_num_interop_threads 4 initial) in
  num_interop_threads st = 4 /\
  set_num_interop_threads 0 st = (Value tt, st).
Proof. cbv. split; reflexivity. Qed.

(** C8, amended: once a value has been committed or the pool has been
    materialised, every call with a non-zero value raises the runtime error
    and leaves the state as it is; on the unset state a call with
    [0 < n <= INT_MAX] succeeds and moves the state to [n]; a call with 0
    returns without effect in every state. *)
Theorem set_num_interop_threads_once n st :
  (n <> 0 ->
   0 < num_interop_threads st \/ num_interop_threads st = -2 ->
   set_num_interop_threads n st =
     (Error (runtime_error
        "Error: cannot set number of interop threads after parallel work has started"),
      st)) /\
  (0 < n <= INT_MAX -> num_interop_threads st = -1 ->
   fst (set_num_interop_threads n st) = Value tt /\
   num_interop_threads (snd (set_num_interop_threads n st)) = n) /\
  set_num_interop_threads 0 st = (Value tt, st).
Proof.
  repeat split.
  - intros Hn Hs. apply set_refused; [exact Hn|lia].
  - rewrite set_commits by assumption. reflexivity.
  - rewrite set_commits by assumption. reflexivity.
Qed.

Lemma set_num_interop_threads_once_witness :
  let committed := snd (set_num_interop_threads 4 initial) in
  fst (set_num_interop_threads 2 committed) =
    Error (runtime_error
      "Error: cannot set number of interop threads after parallel work has started") /\
  num_interop_threads (snd (set_num_interop_threads 4 initial)) = 4.
Proof.
  split.
  - destruct (set_num_interop_threads_once 2
                (snd (set_num_interop_threads 4 initial))) as (H & _).
    rewrite H; [reflexivity|lia|left; reflexivity].
  - destruct (set_num_interop_threads_once 4 initial) as (_ & H & _).
    apply H; [unfold INT_MAX; lia|reflexivity].
Defined.

End InteropFacts.

(** ** What the two templates guarantee *)

Module Guarantees.

Import Plan Engine Invariant Observe Examples IntFacts PlanFacts
  EngineFacts CallFacts Partition ReduceFacts.

(** *** Empty ranges and invalid grain sizes *)

(** C5: for every [begin >= end] and every [grain_size], negative ones
    included, [parallel_for] returns at once without calling the body and
    without raising, and [parallel_reduce] returns [ident] itself without
    calling [f] or the combiner: nothing is recorded in the trace and no
    context changes. *)
Theorem empty_range_is_noop
    (num_threads : Z) (caller : thread) (workers : list thread)
    (begin end_ grain_size : Z) (ctx0 : thread -> RegionContext)
    (sched : list action) :
  end_ <= begin ->
  (forall f,
     parallel_for num_threads caller workers begin end_ grain_size f
       ctx0 sched =
     Some {| res := Ok tt; ctx_out := ctx0; trace_out := [] |}) /\
  (forall (R : Type) (zero ident : R) f sf,
     parallel_reduce zero num_threads caller workers begin end_ grain_size
       ident f sf ctx0 sched =
     Some {| res := Ok ident; ctx_out := ctx0; trace_out := [] |}).
Proof.
  intros H. split; intros; unfold parallel_for, parallel_reduce;
    now rewrite call_empty.
Qed.

Lemma empty_range_is_noop_witness :
  parallel_for 4 main_thread pool 7 3 (-5) (fails_from 0) all_idle [] =
    Some {| res := Ok tt; ctx_out := all_idle; trace_out := [] |} /\
  parallel_reduce 0 4 main_thread pool 7 7 1000 42 sum_chunk Z.add all_idle [] =
    Some {| res := Ok 42; ctx_out := all_idle; trace_out := [] |}.
Proof.
  split.
  - apply (empty_range_is_noop 4 main_thread pool 7 3 (-5) all_idle []). lia.
  - apply (empty_range_is_noop 4 main_thread pool 7 7 1000 all_idle []). lia.
Defined.

(** C6, as stated: every call with a negative [grain_size] fails.  Not
    when the range is empty: the test of line 36 comes first and the call
    returns normally. *)
Lemma negative_grain_on_empty_range_returns :
  parallel_for 4 main_thread pool 5 5 (-1) returns_unit all_idle [] =
    Some {| res := Ok tt; ctx_out := all_idle; trace_out := [] |} /\
  parallel_reduce 0 4 main_thread pool 5 5 (-1) 0 sum_chunk Z.add all_idle [] =
    Some {| res := Ok 0; ctx_out := all_idle; trace_out := [] |}.
Proof. split; reflexivity. Qed.

(** C6, amended: for every call with [begin < end] and [grain_size < 0],
    both templates throw the runtime error of lines 41 and 118 before
    anything else happens: the body is not called, nothing is handed to the
    pool and no context changes. *)
Theorem negative_grain_is_rejected
    (num_threads : Z) (caller : thread) (workers : list thread)
    (begin end_ grain_size : Z) (ctx0 : thread -> RegionContext)
    (sched : list action) :
  begin < end_ -> grain_size < 0 ->
  (forall f,
     parallel_for num_threads caller workers begin end_ grain_size f
       ctx0 sched =
     Some {| res := Raise (runtime_error
                      "Invalid begin, end or grain_size in parallel_for");
             ctx_out := ctx0; trace_out := [] |}) /\
  (forall (R : Type) (zero ident : R) f sf,
     parallel_reduce zero num_threads caller workers begin end_ grain_size
       ident f sf ctx0 sched =
     Some {| res := Raise (runtime_error
                      "Invalid begin, end or grain_size in parallel_reduce");
             ctx_out := ctx0; trace_out := [] |}).
Proof.
  intros H1 H2. split; intros; unfold parallel_for, parallel_reduce;
    now rewrite call_invalid.
Qed.

Lemma negative_grain_is_rejected_witness :
  parallel_for 4 main_thread pool 0 5 (-1) returns_unit all_idle [] =
    Some {| res := Raise (runtime_error
                     "Invalid begin, end or grain_size in parallel_for");
            ctx_out := all_idle; trace_out := [] |}.
Proof.
  apply (negative_grain_is_rejected 4 main_thread pool 0 5 (-1) all_idle []); lia.
Defined.

(** *** The sequential branch *)

(** C4: for every call with [begin < end] and [grain_size >= 0] in which
    the range is shorter than the grain size or the calling thread is
    already inside a parallel region, [parallel_for] calls the body once,
    on the calling thread, with [(begin, end)], and [parallel_reduce]
    returns [f(begin, end, ident)]; the call is the only event: nothing is
    handed to the pool, no future is created, no results vector is
    allocated, and the contexts are left as they were. *)
Theorem sequential_branch
    (num_threads : Z) (caller : thread) (workers : list thread)
    (begin end_ grain_size : Z) (ctx0 : thread -> RegionContext)
    (sched : list action) :
  begin < end_ -> 0 <= grain_size ->
  end_ - begin < grain_size \/ in_parallel_region (ctx0 caller) = true ->
  (forall f,
     parallel_for num_threads caller workers begin end_ grain_size f
       ctx0 sched =
     Some {| res := f begin end_; ctx_out := ctx0;
             trace_out := [EvInvoke caller (ctx0 caller) begin end_] |}) /\
  (forall (R : Type) (zero ident : R) f sf,
     parallel_reduce zero num_threads caller workers begin end_ grain_size
       ident f sf ctx0 sched =
     Some {| res := f begin end_ ident; ctx_out := ctx0;
             trace_out := [EvInvoke caller (ctx0 caller) begin end_] |}).
Proof.
  intros H1 H2 H3. split; intros; unfold parallel_for, parallel_reduce;
    now rewrite call_sequential.
Qed.

Lemma sequential_branch_witness :
  parallel_for 4 main_thread pool 0 5 10 returns_unit all_idle [] =
    Some {| res := Ok tt; ctx_out := all_idle;
            trace_out := [EvInvoke main_thread idle_context 0 5] |} /\
  parallel_reduce 0 4 pool_thread pool 0 100 1 0 sum_chunk Z.add
    (fun _ => chunk_context 1) [] =
    Some {| res := Ok 4950; ctx_out := fun _ => chunk_context 1;
            trace_out := [EvInvoke pool_thread (chunk_context 1) 0 100] |}.
Proof.
  split.
  - apply (sequential_branch 4 main_thread pool 0 5 10 all_idle []);
      [lia|lia|left; lia].
  - apply (sequential_branch 4 pool_thread pool 0 100 1 (fun _ => chunk_context 1)
             []); [lia|lia|right; reflexivity].
Defined.

(** *** Exceptions *)



(** *** Thread-local contexts *)




(** *** Chunks *)

(** For a forking call whose sums of line 77 stay below [INT64_MAX]:
    [chunk_size] and [num_tasks] are the ceilings of the plan, chunk [k] is
    [begin + k * chunk_size, min(end, begin + (k + 1) * chunk_size)), it is
    not empty, and in task order the chunks list [begin, end) from left to
    right, each index once. *)
Lemma chunks_as_planned
    (num_threads begin end_ grain_size : Z) (c : RegionContext) :
  1 <= num_threads <= INT64_MAX -> is_int64 begin -> is_int64 end_ ->
  begin < end_ -> 0 <= grain_size ->
  forks begin end_ grain_size c = true ->
  let cs := chunk_size num_threads begin end_ grain_size in
  let nt := num_tasks num_threads begin end_ grain_size in
  begin + nt * cs <= INT64_MAX ->
  cs = Z.max grain_size (divup (end_ - begin) num_threads) /\
  nt = divup (end_ - begin) cs /\
  (forall k : nat, Z.of_nat k < nt ->
     Plan.chunk num_threads begin end_ grain_size k =
       (begin + Z.of_nat k * cs,
        Z.min end_ (begin + (Z.of_nat k + 1) * cs)) /\
     begin + Z.of_nat k * cs < Z.min end_ (begin + (Z.of_nat k + 1) * cs)) /\
  concat (map (fun k =>
                 indices (fst (Plan.chunk num_threads begin end_ grain_size k))
                         (snd (Plan.chunk num_threads begin end_ grain_size k)))
              (seq 0 (Z.to_nat nt))) =
  indices begin end_.
Proof.
  intros HT Hb He Hlt Hg Hf cs nt Hfit.
  unfold forks in Hf. apply andb_true_iff in Hf as [Hl _].
  repeat split.
  - now apply chunk_size_exact.
  - now apply num_tasks_exact.
  - now apply chunk_bounds.
  - now apply chunk_bounds.
  - now apply chunks_partition.
Qed.

(** On the forking branch the start of every task lies before [end], so
    the test of line 76 succeeds and line 85 is never reached. *)
Lemma fallback_unreachable
    (num_threads begin end_ grain_size : Z) (c : RegionContext) (k : Z) :
  1 <= num_threads <= INT64_MAX -> is_int64 begin -> is_int64 end_ ->
  begin < end_ -> 0 <= grain_size ->
  forks begin end_ grain_size c = true ->
  0 <= k < num_tasks num_threads begin end_ grain_size ->
  local_start num_threads begin end_ grain_size k < end_ /\
  dispatches num_threads begin end_ grain_size k = true.
Proof.
  intros HT Hb He Hlt Hg Hf Hk.
  unfold forks in Hf. apply andb_true_iff in Hf as [Hl _].
  split; [|now apply dispatches_all].
  destruct (local_start_exact num_threads begin end_ grain_size
              HT Hb He Hlt Hg Hl k Hk) as (-> & H). exact H.
Qed.

(** C1: the chunks of a forking call are meant to be
    [begin + k * chunk_size, min(end, begin + (k + 1) * chunk_size)).  At
    begin = 2^63 - 11, end = 2^63 - 1, grain_size = 1 with four threads the
    call forks with chunk_size = 3 and four tasks, and task 3 is handed
    [2^63 - 2, -2^63 + 1) instead of [2^63 - 2, 2^63 - 1): the sum
    [chunk_size + local_start] of line 77 wraps and [std::min] keeps the
    wrapped value. *)
Theorem last_chunk_wraps_at_int64_max :
  is_int64 high_begin /\ is_int64 high_end /\ high_begin < high_end /\
  forks high_begin high_end 1 idle_context = true /\
  chunk_size 4 high_begin high_end 1 = 3 /\
  num_tasks 4 high_begin high_end 1 = 4 /\
  Plan.chunk 4 high_begin high_end 1 3 = (2 ^ 63 - 2, - 2 ^ 63 + 1) /\
  (high_begin + 3 * 3, Z.min high_end (high_begin + (3 + 1) * 3)) =
    (2 ^ 63 - 2, 2 ^ 63 - 1) /\
  exists out,
    parallel_for 4 main_thread pool high_begin high_end 1 returns_unit
      all_idle (in_order 4 3 4) = Some out /\
    res out = Ok tt /\
    calls 3 (trace_out out) =
      [EvInvoke pool_thread (chunk_context 3) (2 ^ 63 - 2) (- 2 ^ 63 + 1)].
Proof.
  repeat split; try (vm_compute; congruence).
  eexists. split; [vm_compute; reflexivity|]. split; reflexivity.
Qed.

(** C10: every dispatched chunk is meant to start before [end] and to be
    non-empty.  At the same input task 3 starts before [end] and is
    dispatched, but the range it is given ends before it starts. *)
Theorem dispatched_chunk_empty_at_int64_max :
  local_start 4 high_begin high_end 1 3 = 2 ^ 63 - 2 /\
  local_start 4 high_begin high_end 1 3 < high_end /\
  dispatches 4 high_begin high_end 1 3 = true /\
  local_end 4 high_begin high_end 1 3 = - 2 ^ 63 + 1 /\
  local_end 4 high_begin high_end 1 3 < local_start 4 high_begin high_end 1 3 /\
  indices (local_start 4 high_begin high_end 1 3)
          (local_end 4 high_begin high_end 1 3) = [].
Proof. repeat split; vm_compute; congruence. Qed.

(** *** Reduction *)

Lemma sum_indices (m : nat) s a :
  2 * fold_left Z.add (map (fun i => s + Z.of_nat i) (seq 0 m)) a =
  2 * a + Z.of_nat m * (2 * s + Z.of_nat m - 1).
Proof.
  induction m as [|m IH]; [cbn; lia|].
  rewrite seq_S, map_app, fold_left_app. cbn [map fold_left Nat.add].
  nia.
Qed.

(** Gauss: the sum of the indices of [s, e). *)
Lemma sum_range s e a :
  s <= e ->
  2 * fold_range Z.add (fun i => i) s e a = 2 * a + (e - s) * (s + e - 1).
Proof.
  intros H. unfold fold_range, indices. rewrite map_map.
  rewrite sum_indices. rewrite Z2Nat.id by lia. ring.
Qed.

(** The scenario of the spec, for every number of threads and every
    interleaving. *)
Lemma reduce_scenario
    (num_threads : Z) (caller : thread) (workers : list thread)
    (ctx0 : thread -> RegionContext) (sched : list action)
    (out : call_out Z) :
  1 <= num_threads <= INT64_MAX ->
  parallel_reduce 0 num_threads caller workers 0 1000000 1000 0
    sum_chunk Z.add ctx0 sched = Some out ->
  res out = Ok 499999500000.
Proof.
  intros HT Hcall.
  assert (Hb : is_int64 0) by (unfold is_int64, INT64_MIN, INT64_MAX; lia).
  assert (He : is_int64 1000000)
    by (unfold is_int64, INT64_MIN, INT64_MAX; lia).
  assert (Hl : large_enough 0 1000000 1000 = true) by reflexivity.
  assert (Hfit : 0 + num_tasks num_threads 0 1000000 1000 *
                     chunk_size num_threads 0 1000000 1000 <= INT64_MAX).
  { destruct (chunk_size_exact num_threads 0 1000000 1000 HT Hb He
                ltac:(lia) ltac:(lia) Hl) as (_ & Hc).
    destruct (num_tasks_exact num_threads 0 1000000 1000 HT Hb He
                ltac:(lia) ltac:(lia) Hl) as (_ & Hn & Hm).
    unfold INT64_MAX. nia. }
  rewrite (reduce_sequential 0 num_threads caller workers 0 1000000 1000 0
             sum_chunk Z.add ctx0 HT Hb He ltac:(lia) ltac:(lia)
             (fun s e => fold_range Z.add (fun i => i) s e 0)
             ltac:(reflexivity) (fun i => i)
             ltac:(intros; lia) ltac:(intros; lia) ltac:(reflexivity)
             Hfit sched out Hcall).
  pose proof (sum_range 0 1000000 0 ltac:(lia)) as E.
  revert E. generalize (fold_range Z.add (fun i => i) 0 1000000 0).
  intros x E. f_equal. lia.
Qed.

(** C2: with an associative and commutative combiner whose identity is
    [ident] and a body that folds it over its range, [parallel_reduce] is
    meant to return the sequential fold over [begin, end).  With the range
    that ends at [INT64_MAX], grain size 1, four threads, addition and a
    body that counts its indices, every completed call from outside a
    parallel region returns 9, whatever the interleaving, while the range
    has 10 indices: task 3 is handed an empty range. *)
Theorem reduce_misses_last_chunk_at_int64_max
    (zero : Z) (caller : thread) (workers : list thread)
    (ctx0 : thread -> RegionContext) (sched : list action)
    (out : call_out Z) :
  in_parallel_region (ctx0 caller) = false ->
  parallel_reduce zero 4 caller workers high_begin high_end 1 0
    count_chunk Z.add ctx0 sched = Some out ->
  res out = Ok 9 /\
  fold_range Z.add (fun _ => 1) high_begin high_end 0 = 10 /\
  count_chunk high_begin high_end 0 = Ok 10.
Proof.
  intros Hc Hcall. split; [|split; reflexivity].
  rewrite (reduce_by_chunks zero 4 caller workers high_begin high_end 1 0
             count_chunk Z.add ctx0) with
    (F := fun s e => fold_range Z.add (fun _ => 1) s e 0)
    (sched := sched); trivial.
  - unfold INT64_MAX. lia.
  - unfold is_int64, INT64_MIN, INT64_MAX, high_begin. lia.
  - unfold is_int64, INT64_MIN, INT64_MAX, high_end. lia.
  - unfold high_begin, high_end. lia.
  - lia.
  - unfold forks. now rewrite Hc.
Qed.

Lemma reduce_misses_last_chunk_at_int64_max_witness :
  exists out,
    parallel_reduce 0 4 main_thread pool high_begin high_end 1 0
      count_chunk Z.add all_idle (in_order 4 3 4) = Some out /\
    res out = Ok 9.
Proof.
  eexists. split; [vm_compute; reflexivity|].
  apply (reduce_misses_last_chunk_at_int64_max 0 main_thread pool all_idle
           (in_order 4 3 4)); [reflexivity|vm_compute; reflexivity].
Defined.

End Guarantees.

(** ** The plan of a forking call *)

Module Planning.

Import Plan Engine Observe Examples IntFacts PlanFacts Partition.

(** X1: on the forking branch the plan is never degenerate.  The chunk
    size is at least 1 (so line 49 does not divide by zero, also when
    [grain_size] is 0), at least [grain_size] and at most the length of the
    range; there is at least one task and there are never more tasks than
    threads; all chunks but the last are full and the last one is not
    empty. *)
Theorem plan_within_threads (num_threads begin end_ grain_size : Z) :
  1 <= num_threads <= INT64_MAX -> is_int64 begin -> is_int64 end_ ->
  begin < end_ -> 0 <= grain_size ->
  large_enough begin end_ grain_size = true ->
  let cs := chunk_size num_threads begin end_ grain_size in
  let nt := num_tasks num_threads begin end_ grain_size in
  1 <= cs /\ grain_size <= cs <= end_ - begin /\
  1 <= nt <= num_threads /\
  (nt - 1) * cs < end_ - begin <= nt * cs.
Proof.
  intros Ht Hb He Hlt Hg Hl cs nt.
  destruct (chunk_size_exact num_threads begin end_ grain_size)
    as (Ecs & Hcs); trivial.
  destruct (num_tasks_exact num_threads begin end_ grain_size)
    as (Ent & Hnt & Hcover); trivial.
  fold cs in Ecs, Hcs, Ent, Hcover. fold nt in Ent, Hnt, Hcover.
  assert (Hd : end_ - begin <= divup (end_ - begin) num_threads * num_threads).
  { apply divup_ceiling. lia. }
  repeat split; try lia.
  rewrite Ent. apply divup_least; [lia|].
  assert (divup (end_ - begin) num_threads <= cs) by lia.
  nia.
Qed.

Lemma plan_within_threads_witness :
  1 <= chunk_size 4 0 10 0 /\
  0 <= chunk_size 4 0 10 0 <= 10 - 0 /\
  1 <= num_tasks 4 0 10 0 <= 4 /\
  (num_tasks 4 0 10 0 - 1) * chunk_size 4 0 10 0 < 10 - 0
    <= num_tasks 4 0 10 0 * chunk_size 4 0 10 0.
Proof.
  apply (plan_within_threads 4 0 10 0); try reflexivity;
    unfold is_int64, INT64_MIN, INT64_MAX; lia.
Defined.

(** X2: on the forking branch the loop of lines 72-87 hands every task to
    the pool.  The product and the sum of line 75 do not wrap, the start of
    every task lies before [end], so the test of line 76 succeeds for each
    task id and the branch of lines 84-86 is never taken. *)
Theorem every_task_is_dispatched
    (num_threads begin end_ grain_size : Z) (task_id : Z) :
  1 <= num_threads <= INT64_MAX -> is_int64 begin -> is_int64 end_ ->
  begin < end_ -> 0 <= grain_size ->
  large_enough begin end_ grain_size = true ->
  1 <= task_id < num_tasks num_threads begin end_ grain_size ->
  local_start num_threads begin end_ grain_size task_id =
    begin + task_id * chunk_size num_threads begin end_ grain_size /\
  local_start num_threads begin end_ grain_size task_id < end_ /\
  dispatches num_threads begin end_ grain_size task_id = true.
Proof.
  intros Ht Hb He Hlt Hg Hl Hk.
  destruct (local_start_exact num_threads begin end_ grain_size Ht Hb He
              Hlt Hg Hl task_id) as (E & Hlt'); [lia|].
  repeat split; [exact E|now rewrite E|].
  apply dispatches_all; trivial. lia.
Qed.

Lemma every_task_is_dispatched_witness :
  local_start 4 0 10 1 3 = 0 + 3 * chunk_size 4 0 10 1 /\
  local_start 4 0 10 1 3 < 10 /\
  dispatches 4 0 10 1 3 = true.
Proof.
  apply (every_task_is_dispatched 4 0 10 1 3); try reflexivity;
    unfold is_int64, INT64_MIN, INT64_MAX; try lia.
  vm_compute. split; [discriminate|reflexivity].
Defined.

(** X3: when no sum of lines 77 and 89 exceeds [INT64_MAX], that is when
    [begin + num_tasks * chunk_size <= INT64_MAX], the chunks partition the
    range: chunk [k] is
    [begin + k * chunk_size, min(end, begin + (k + 1) * chunk_size)) and is
    not empty, consecutive chunks touch, every index of [begin, end) lies
    in exactly one chunk, and in task order the chunks list the range from
    left to right. *)
Theorem chunks_partition_range (num_threads begin end_ grain_size : Z) :
  1 <= num_threads <= INT64_MAX -> is_int64 begin -> is_int64 end_ ->
  begin < end_ -> 0 <= grain_size ->
  large_enough begin end_ grain_size = true ->
  let cs := chunk_size num_threads begin end_ grain_size in
  let nt := num_tasks num_threads begin end_ grain_size in
  let chunk := Plan.chunk num_threads begin end_ grain_size in
  begin + nt * cs <= INT64_MAX ->
  (forall k : nat, Z.of_nat k < nt ->
     chunk k = (begin + Z.of_nat k * cs,
                Z.min end_ (begin + (Z.of_nat k + 1) * cs)) /\
     fst (chunk k) < snd (chunk k)) /\
  (forall k : nat, Z.of_nat k + 1 < nt -> snd (chunk k) = fst (chunk (S k))) /\
  (forall i, begin <= i < end_ ->
     exists k : nat,
       Z.of_nat k < nt /\ fst (chunk k) <= i < snd (chunk k) /\
       forall j : nat, Z.of_nat j < nt ->
         fst (chunk j) <= i < snd (chunk j) -> j = k) /\
  concat (map (fun k => indices (fst (chunk k)) (snd (chunk k)))
              (seq 0 (Z.to_nat nt))) = indices begin end_.
Proof.
  intros Ht Hb He Hlt Hg Hl cs nt chunk Hfit.
  split; [|split; [|split]].
  - intros k Hk.
    destruct (chunk_bounds num_threads begin end_ grain_size Ht Hb He Hlt
                Hg Hl Hfit k Hk) as (E & Hne).
    split; [exact E|]. unfold chunk. rewrite E. exact Hne.
  - apply (chunks_contiguous num_threads begin end_ grain_size); trivial.
  - intros i Hi.
    apply (chunks_cover num_threads begin end_ grain_size); trivial.
  - apply (chunks_partition num_threads begin end_ grain_size); trivial.
Qed.

Lemma chunks_partition_range_witness :
  concat (map (fun k => indices (fst (Plan.chunk 4 0 10 1 k))
                                (snd (Plan.chunk 4 0 10 1 k)))
              (seq 0 (Z.to_nat (num_tasks 4 0 10 1)))) =
  indices 0 10.
Proof.
  apply (chunks_partition_range 4 0 10 1); try reflexivity;
    unfold is_int64, INT64_MIN, INT64_MAX; try lia.
  vm_compute. discriminate.
Defined.

(** Beyond [INT64_MAX] the last chunk, and only the last, is wrapped. *)
Lemma overflow_loses_last_chunk
    (num_threads begin end_ grain_size : Z) :
  1 <= num_threads <= INT64_MAX -> is_int64 begin -> is_int64 end_ ->
  begin < end_ -> 0 <= grain_size ->
  large_enough begin end_ grain_size = true ->
  let cs := chunk_size num_threads begin end_ grain_size in
  let nt := num_tasks num_threads begin end_ grain_size in
  let chunk := Plan.chunk num_threads begin end_ grain_size in
  INT64_MAX < begin + nt * cs ->
  2 <= nt /\
  (forall k : nat, Z.of_nat k < nt - 1 ->
     chunk k = (begin + Z.of_nat k * cs, begin + (Z.of_nat k + 1) * cs)) /\
  chunk (Z.to_nat (nt - 1)) =
    (begin + (nt - 1) * cs, begin + nt * cs - two64) /\
  begin + nt * cs - two64 < begin + (nt - 1) * cs /\
  forall (i : Z) (k : nat),
    begin + (nt - 1) * cs <= i < end_ -> Z.of_nat k < nt ->
    ~ (fst (chunk k) <= i < snd (chunk k)).
Proof.
  intros Ht Hb He Hlt Hg Hl cs nt chunk Hover.
  destruct (chunk_size_exact num_threads begin end_ grain_size)
    as (_ & Hcs); trivial.
  destruct (num_tasks_exact num_threads begin end_ grain_size)
    as (_ & Hnt & Hcover); trivial.
  fold cs in Hcs, Hcover. fold nt in Hnt, Hcover.
  assert (Hint : INT64_MAX = 2 ^ 63 - 1) by reflexivity.
  assert (Htwo : two64 = 2 ^ 64) by reflexivity.
  assert (Hb' := Hb). assert (He' := He).
  unfold is_int64, INT64_MIN in Hb', He'.
  assert (H2 : 2 <= nt).
  { destruct (Z.eq_dec nt 1) as [E|]; [|lia]. rewrite E in *. lia. }
  assert (Hearly : forall k : nat, Z.of_nat k < nt - 1 ->
            chunk k = (begin + Z.of_nat k * cs,
                       begin + (Z.of_nat k + 1) * cs)).
  { intros k Hk.
    assert (Hle : begin + (Z.of_nat k + 1) * cs <= begin + (nt - 1) * cs)
      by nia.
    unfold chunk. rewrite chunk_exact; trivial; [|lia|fold cs; lia].
    fold cs. f_equal. lia. }
  assert (Hlast : chunk (Z.to_nat (nt - 1)) =
            (begin + (nt - 1) * cs, begin + nt * cs - two64)).
  { unfold chunk, Plan.chunk.
    destruct (Z.to_nat (nt - 1)) as [|m] eqn:Em; [lia|].
    rewrite <- Em, Z2Nat.id by lia.
    destruct (local_start_exact num_threads begin end_ grain_size Ht Hb He
                Hlt Hg Hl (nt - 1)) as (Es & Hs); [fold nt; lia|].
    fold cs in Es, Hs.
    unfold local_end. rewrite Es.
    rewrite clip_end_wraps; trivial.
    - fold cs. f_equal. lia.
    - unfold is_int64, INT64_MIN. lia.
    - fold cs. lia. }
  repeat split; trivial; try lia.
  intros i k Hi Hk [Hlo Hhi].
  destruct (Z.eq_dec (Z.of_nat k) (nt - 1)) as [E|Hne].
  - replace k with (Z.to_nat (nt - 1)) in Hhi by lia.
    rewrite Hlast in Hhi. cbn in Hhi. lia.
  - rewrite Hearly in Hhi by lia. cbn in Hhi. nia.
Qed.

(** X4: when [begin + num_tasks * chunk_size] exceeds [INT64_MAX], the sum
    of line 77 wraps for the last task and for no other.  Every chunk
    before the last is as planned; the last task is handed
    [begin + (num_tasks - 1) * chunk_size, begin + num_tasks * chunk_size -
    2^64), whose end lies before its start, so the indices from its start
    to [end] belong to no chunk. *)
Theorem last_chunk_lost_beyond_int64_max
    (num_threads begin end_ grain_size : Z) :
  1 <= num_threads <= INT64_MAX -> is_int64 begin -> is_int64 end_ ->
  begin < end_ -> 0 <= grain_size ->
  large_enough begin end_ grain_size = true ->
  let cs := chunk_size num_threads begin end_ grain_size in
  let nt := num_tasks num_threads begin end_ grain_size in
  let chunk := Plan.chunk num_threads begin end_ grain_size in
  INT64_MAX < begin + nt * cs ->
  2 <= nt /\
  (forall k : nat, Z.of_nat k < nt - 1 ->
     chunk k = (begin + Z.of_nat k * cs, begin + (Z.of_nat k + 1) * cs)) /\
  chunk (Z.to_nat (nt - 1)) =
    (begin + (nt - 1) * cs, begin + nt * cs - two64) /\
  begin + nt * cs - two64 < begin + (nt - 1) * cs /\
  forall (i : Z) (k : nat),
    begin + (nt - 1) * cs <= i < end_ -> Z.of_nat k < nt ->
    ~ (fst (chunk k) <= i < snd (chunk k)).
Proof.
  intros Ht Hb He Hlt Hg Hl cs nt chunk Hover.
  now apply overflow_loses_last_chunk.
Qed.

Lemma last_chunk_lost_beyond_int64_max_witness :
  Plan.chunk 4 high_begin high_end 1
    (Z.to_nat (num_tasks 4 high_begin high_end 1 - 1)) =
  (high_begin + (num_tasks 4 high_begin high_end 1 - 1) *
                chunk_size 4 high_begin high_end 1,
   high_begin + num_tasks 4 high_begin high_end 1 *
                chunk_size 4 high_begin high_end 1 - two64).
Proof.
  apply (last_chunk_lost_beyond_int64_max 4 high_begin high_end 1);
    try reflexivity; unfold is_int64, INT64_MIN, INT64_MAX;
    vm_compute; try split; try discriminate; reflexivity.
Defined.

End Planning.

(** ** Executions of the fork-join machine *)

Module Execution.

Import Plan Engine Invariant Observe Examples Bookkeeping IntFacts
  PlanFacts EngineFacts CallFacts.

Lemma futures_app tr evs : futures (tr ++ evs) = futures tr ++ futures evs.
Proof. unfold futures. apply flat_map_app. Qed.

Lemma runs_app tr evs : runs (tr ++ evs) = runs tr ++ runs evs.
Proof. unfold runs. apply flat_map_app. Qed.

Lemma run_app {R} (K : kernel R) caller workers n chunk dispatches
    (s1 s2 : list action) (c : config R) :
  run K caller workers n chunk dispatches (s1 ++ s2) c =
  match run K caller workers n chunk dispatches s1 c with
  | Some c' => run K caller workers n chunk dispatches s2 c'
  | None => None
  end.
Proof.
  revert c. induction s1 as [|a s1 IH]; intros c; cbn; [reflexivity|].
  destruct (step K caller workers n chunk dispatches a c); [apply IH|easy].
Qed.

Section Machine.

Context {R : Type}.
Variable K : kernel R.
Variable caller : thread.
Variable workers : list thread.
Variable n : nat.
Variable chunk : nat -> Z * Z.
Variable dispatches : nat -> bool.
Variable ctx0 : thread -> RegionContext.

Local Abbreviation transition :=
  (@transition R K caller workers n chunk dispatches).
Local Abbreviation reachable :=
  (@reachable R K caller workers n chunk dispatches ctx0).
Local Abbreviation shape := (@shape R caller workers n).
Local Abbreviation ctx_ok := (@ctx_ok R caller workers ctx0).
Local Abbreviation inv := (@inv R K caller workers n chunk dispatches ctx0).
Local Abbreviation spawned := (@spawned R n chunk dispatches).
Local Abbreviation placed := (@placed R caller workers n chunk).
Local Abbreviation parked := (@parked R dispatches).
Local Abbreviation planned_runs := (planned_runs chunk dispatches).
Local Abbreviation is_worker := (is_worker caller workers).

Lemma planned_runs_next k :
  (1 <= k)%nat ->
  planned_runs (S k) =
  planned_runs k ++ (if dispatches k then [(k, chunk k)] else []).
Proof.
  intros Hk. unfold Bookkeeping.planned_runs.
  replace (S k - 1)%nat with (S (k - 1)) by lia.
  rewrite seq_S, List.filter_app, map_app.
  replace (1 + (k - 1))%nat with k by lia.
  cbn. now destruct (dispatches k).
Qed.

Lemma spawned_init : spawned (init K n ctx0).
Proof.
  unfold Bookkeeping.spawned, init, fresh_trace; cbn.
  destruct (buffer K); cbn; auto.
Qed.

Lemma spawned_step (c c' : config R) :
  shape c -> spawned c -> transition c c' -> spawned c'.
Proof.
  intros Hs Hp Ht. unfold Bookkeeping.spawned in *.
  destruct Ht;
    try (cbn; rewrite ?futures_app, ?runs_app; cbn; rewrite ?app_nil_r;
         destruct (pc c); try discriminate; exact Hp).
  - (* line 78 *)
    destruct (spawn_unborn caller workers n c k Hs H) as (Hk & _).
    rewrite H in Hp. destruct Hp as [Hf Hr].
    cbn -[Bookkeeping.planned_runs Nat.sub seq].
    rewrite !futures_app, !runs_app, Hf, Hr.
    cbn -[Bookkeeping.planned_runs Nat.sub seq].
    rewrite planned_runs_next, H1, !app_nil_r by lia.
    replace (S k - 1)%nat with (S (k - 1)) by lia. rewrite seq_S.
    replace (1 + (k - 1))%nat with k by lia.
    split; [reflexivity|]. now destruct (chunk k).
  - (* line 85 *)
    destruct (spawn_unborn caller workers n c k Hs H) as (Hk & _).
    rewrite H in Hp. destruct Hp as [Hf Hr].
    cbn -[Bookkeeping.planned_runs Nat.sub seq].
    rewrite !futures_app, !runs_app, Hf, Hr.
    cbn -[Bookkeeping.planned_runs Nat.sub seq].
    rewrite planned_runs_next, H1, !app_nil_r by lia.
    replace (S k - 1)%nat with (S (k - 1)) by lia. rewrite seq_S.
    replace (1 + (k - 1))%nat with k by lia.
    split; reflexivity.
  - (* line 90 *)
    rewrite H in Hp. cbn.
    destruct Hs as [Hall _]. pose proof (Hall 0%nat) as H0'.
    rewrite H in H0'. unfold allowed in H0'.
    destruct H0' as (_ & _ & _ & _ & Hk1 & Hk2 & _).
    assert (E : (k - 1 = n - 1)%nat) by lia.
    unfold Bookkeeping.planned_runs in *. now rewrite <- E.
Qed.

Lemma spawned_reachable (c : config R) : reachable c -> spawned c.
Proof.
  induction 1 as [|c c' Hc IH Ht]; [apply spawned_init|].
  apply spawned_step with c; trivial.
  now destruct (inv_reachable K caller workers n chunk dispatches ctx0 c Hc).
Qed.

Ltac new_event Hin :=
  cbn in Hin; rewrite ?in_app_iff in Hin; cbn in Hin;
  repeat match type of Hin with
         | _ \/ _ => destruct Hin as [Hin|Hin]
         | False => contradiction
         | _ = _ => try discriminate Hin
         end.

Lemma placed_init : placed (init K n ctx0).
Proof.
  intros t cx s e Hin. unfold init, fresh_trace in Hin. cbn in Hin.
  destruct (buffer K); cbn in Hin; intuition discriminate.
Qed.

Lemma placed_invoke (c : config R) t k :
  shape c -> ctx_ok c -> tasks c k = AtBody t ->
  ctx c t = chunk_context k /\ (k < n \/ k = 0)%nat /\
  if Nat.eqb k 0 then t = caller else is_worker t = true.
Proof.
  intros [Hall _] [Hin _] Hk.
  split; [apply Hin; now rewrite Hk|].
  pose proof (Hall k) as Ha. rewrite Hk in Ha.
  destruct Ha as (Hb & _ & Hz & Hw & _). cbn in Hz, Hw.
  split; [apply Hb; discriminate|].
  destruct (Nat.eqb_spec k 0) as [->|Hne].
  - destruct Hz as [Hz|[Hz _]]; [reflexivity|discriminate|congruence].
  - now apply Hw.
Qed.

Lemma placed_step (c c' : config R) :
  shape c -> ctx_ok c -> placed c -> transition c c' -> placed c'.
Proof.
  intros Hs Hx Hp Ht t0 cx s e Hin.
  destruct Ht; new_event Hin; try (now apply Hp).
  all: inversion Hin; subst; clear Hin; exists k;
    destruct (placed_invoke c t0 k Hs Hx H) as (E & Hb & Hw);
    rewrite E; repeat split; trivial; now destruct (chunk k).
Qed.

Lemma placed_reachable (c : config R) : reachable c -> placed c.
Proof.
  induction 1 as [|c c' Hc IH Ht]; [apply placed_init|].
  destruct (inv_reachable K caller workers n chunk dispatches ctx0 c Hc).
  now apply placed_step with c.
Qed.

Lemma parked_step (c c' : config R) :
  (forall w, is_worker w = false) ->
  shape c -> parked c -> transition c c' -> parked c'.
Proof.
  intros Hno Hs Hp Ht j Hj. pose proof (Hp j Hj) as Hpj.
  assert (Hrun : forall k t, k <> 0%nat -> runner (tasks c k) = Some t -> False).
  { intros k t Hk E. destruct (Hp k Hk) as [X|[X|[X _]]];
      rewrite X in E; discriminate. }
  assert (Hzero : forall k t, runner (tasks c k) = Some t -> k = 0%nat).
  { intros k t E. destruct (Nat.eq_dec k 0%nat); trivial.
    exfalso. now apply (Hrun k t). }
  destruct Ht; cbn; unfold fupd;
    repeat match goal with
           | |- context [Nat.eqb ?a ?b] =>
               destruct (Nat.eqb_spec a b) as [?|?]; subst
           end;
    trivial; try contradiction; auto.
  all: try (rewrite (Hno w) in *; discriminate).
  all: try (exfalso; apply Hj; apply (Hzero k t); rewrite ?H, ?H0; reflexivity).
Qed.

Lemma parked_reachable (c : config R) :
  (forall w, is_worker w = false) -> reachable c -> parked c.
Proof.
  intros Hno. induction 1 as [|c c' Hc IH Ht].
  - intros k _. now left.
  - apply parked_step with c; trivial.
    now destruct (inv_reachable K caller workers n chunk dispatches ctx0 c Hc).
Qed.

Lemma raised_in (tr : list event) t cx s e x :
  In (EvInvoke t cx s e) tr -> body K s e = Raise x -> raised K tr = true.
Proof.
  intros Hin Hx. unfold raised. apply existsb_exists.
  exists (EvInvoke t cx s e). split; [exact Hin|]. now rewrite Hx.
Qed.

Lemma total_unborn a len :
  total_from (fun _ => Unborn) a len = (7 * len)%nat.
Proof.
  unfold total_from. revert a. induction len as [|len IH]; intros a; cbn;
    [reflexivity|].
  rewrite IH. lia.
Qed.

End Machine.

Lemma filter_all {A} (p : A -> bool) (l : list A) :
  (forall x, In x l -> p x = true) -> List.filter p l = l.
Proof.
  induction l as [|a l IH]; intros H; cbn; [reflexivity|].
  rewrite (H a) by now left. f_equal. apply IH. intros x Hx. apply H. now right.
Qed.

Section Call.

Context {R : Type}.
Variable K : kernel R.
Variable what : string.
Variable num_threads : Z.
Variable caller : thread.
Variable workers : list thread.
Variables begin end_ grain_size : Z.
Variable ctx0 : thread -> RegionContext.

Hypothesis threads_pos : 1 <= num_threads <= INT64_MAX.
Hypothesis begin_int64 : is_int64 begin.
Hypothesis end_int64 : is_int64 end_.
Hypothesis nonempty : begin < end_.
Hypothesis grain_nonneg : 0 <= grain_size.
Hypothesis forking : forks begin end_ grain_size (ctx0 caller) = true.

Local Abbreviation n :=
  (Z.to_nat (num_tasks num_threads begin end_ grain_size)).
Local Abbreviation chunk := (Plan.chunk num_threads begin end_ grain_size).
Local Abbreviation dispatches :=
  (fun k => Plan.dispatches num_threads begin end_ grain_size (Z.of_nat k)).
Local Abbreviation call :=
  (fork_join K what num_threads caller workers begin end_ grain_size ctx0).
Local Abbreviation run :=
  (Engine.run K caller workers n chunk dispatches).
Local Abbreviation reachable :=
  (@reachable R K caller workers n chunk dispatches ctx0).
Local Abbreviation inv := (@inv R K caller workers n chunk dispatches ctx0).
Local Abbreviation is_worker := (is_worker caller workers).

Lemma forking_large : large_enough begin end_ grain_size = true.
Proof using All. unfold forks in forking. now apply andb_prop in forking. Qed.

Lemma tasks_pos : (1 <= n)%nat.
Proof using All.
  destruct (num_tasks_exact num_threads begin end_ grain_size)
    as (_ & Hn & _); trivial; [apply forking_large|lia].
Qed.

Lemma dispatches_every k : (k < n)%nat -> k <> 0%nat -> dispatches k = true.
Proof using All.
  intros Hk Hz. apply dispatches_all; trivial; [apply forking_large|lia].
Qed.

Lemma dispatched_every k : (k < n)%nat -> dispatched dispatches k = true.
Proof using All.
  intros Hk. unfold dispatched. destruct (Nat.eqb_spec k 0); [reflexivity|].
  now apply dispatches_every.
Qed.

(** A completed call ends in a reachable state of the machine. *)
Lemma call_state sched out :
  call sched = Some out ->
  exists c, reachable c /\ inv c /\ pc c = Done (res out) /\
            ctx_out out = ctx c /\ trace_out out = trace c.
Proof using All.
  intros H. apply call_forked in H; trivial.
  destruct H as (c & Hrun & Hpc & Hctx & Htr).
  exists c. split; [|split; [|auto]].
  - apply run_reachable with sched (init K n ctx0); [constructor|exact Hrun].
  - now apply inv_run with sched.
Qed.

Lemma call_each_once sched out k :
  call sched = Some out -> (k < n)%nat ->
  exists t, calls k (trace_out out) = [the_call chunk t k] /\
            if Nat.eqb k 0 then t = caller else is_worker t = true.
Proof using All.
  intros H Hk. destruct (call_state sched out H) as (c & Hr & Hi & Hpc & _ & ->).
  destruct (final_calls K caller workers n chunk dispatches ctx0 c (res out)
              Hi Hpc k) as (t & Ht); [now left|now apply dispatched_every|].
  exists t. split; [exact Ht|].
  assert (Hin : In (the_call chunk t k) (trace c)).
  { assert (X : In (the_call chunk t k) (calls k (trace c)))
      by (rewrite Ht; now left).
    unfold calls in X. now apply List.filter_In in X. }
  destruct (placed_reachable K caller workers n chunk dispatches ctx0 c Hr
              _ _ _ _ Hin) as (j & Ej & _ & _ & Hw).
  unfold chunk_context in Ej. inversion Ej as [E].
  apply Nat2Z.inj in E. now subst j.
Qed.

Lemma call_only_planned sched out t cx s e :
  call sched = Some out -> In (EvInvoke t cx s e) (trace_out out) ->
  exists k, (k < n)%nat /\ cx = chunk_context k /\ (s, e) = chunk k /\
            if Nat.eqb k 0 then t = caller else is_worker t = true.
Proof using All.
  intros H Hin.
  destruct (call_state sched out H) as (c & Hr & Hi & Hpc & _ & E).
  rewrite E in Hin.
  destruct (placed_reachable K caller workers n chunk dispatches ctx0 c Hr
              _ _ _ _ Hin) as (j & Ej & Ec & Hj & Hw).
  exists j. repeat split; trivial. pose proof tasks_pos. lia.
Qed.

Lemma call_raise_source sched out x :
  call sched = Some out -> res out = Raise x ->
  exists k, (k < n)%nat /\ raises K chunk k x.
Proof using All.
  intros H Hx. destruct (call_state sched out H) as (c & Hr & Hi & Hpc & _).
  pose proof (final_result K caller workers n chunk dispatches ctx0 c
                (res out) Hi Hpc) as Hf.
  rewrite Hx in Hf. destruct Hf as (k & rest & Hcap & Hk).
  exists k. split; [|exact Hk].
  destruct Hi as [[Hall _] _ [_ Hw _] _ _ _ _].
  rewrite Hcap in Hw. destruct Hw as (_ & _ & _ & Hph).
  destruct (Hall k) as (Hb & _).
  pose proof tasks_pos.
  assert (tasks c k <> Unborn) by (intros X; now rewrite X in Hph).
  specialize (Hb H1). lia.
Qed.

Lemma call_raise_seen sched out t cx s e x :
  call sched = Some out -> In (EvInvoke t cx s e) (trace_out out) ->
  body K s e = Raise x -> exists y, res out = Raise y.
Proof using All.
  intros H Hin Hx.
  destruct (call_state sched out H) as (c & Hr & Hi & Hpc & _ & E).
  rewrite E in Hin.
  destruct (final_raise K caller workers n chunk dispatches ctx0 c (res out)
              Hi Hpc) as (k & y & rest & _ & _ & Hy).
  - now apply raised_in with t cx s e x.
  - now exists y.
Qed.

Lemma call_value sched out v :
  call sched = Some out -> res out = Ok v ->
  exists rs, v = finish K rs /\
             length rs = length (fresh_results K n) /\
             forall k r, (k < n)%nat -> (k < length rs)%nat ->
                         body K (fst (chunk k)) (snd (chunk k)) = Ok r ->
                         rs !! k = Some r.
Proof using All.
  intros H Hv. destruct (call_state sched out H) as (c & Hr & Hi & Hpc & _).
  pose proof (final_result K caller workers n chunk dispatches ctx0 c
                (res out) Hi Hpc) as Hf.
  rewrite Hv in Hf. destruct Hf as (_ & ->).
  exists (results c). split; [reflexivity|]. split.
  - now destruct Hi as [_ _ _ [Hl _] _ _ _].
  - intros k r Hk Hl Hb.
    apply (final_results K caller workers n chunk dispatches ctx0 c (res out)
             Hi Hpc); trivial; [now left|now apply dispatched_every].
Qed.

Lemma call_bounded sched c :
  run sched (init K n ctx0) = Some c -> (length sched <= 8 * n + 1)%nat.
Proof using All.
  intros H.
  pose proof (run_bounded K caller workers n chunk dispatches sched
                (init K n ctx0) c
                (shape_init K caller workers n chunk dispatches ctx0) H) as Hb.
  unfold measure in Hb. cbn in Hb. rewrite total_unborn in Hb.
  pose proof tasks_pos. lia.
Qed.

Lemma call_extends sched c :
  staffed caller workers n ->
  run sched (init K n ctx0) = Some c ->
  exists rest out, call (sched ++ rest) = Some out.
Proof using All.
  intros Hst H.
  assert (Hs : shape caller workers n c).
  { now destruct (inv_run K caller workers n chunk dispatches ctx0 sched c H). }
  destruct (completes K caller workers n chunk dispatches Hst
              (S (measure n c)) c) as (rest & c' & r & Hrun & Hpc);
    [lia|exact Hs|].
  exists rest, {| res := r; ctx_out := ctx c'; trace_out := trace c' |}.
  apply call_forked; trivial. exists c'. cbn. repeat split; trivial.
  now rewrite run_app, H.
Qed.

Lemma call_stuck sched :
  (forall w, is_worker w = false) -> (2 <= n)%nat -> call sched = None.
Proof using All.
  intros Hno Hn. destruct (call sched) as [out|] eqn:E; [|reflexivity].
  exfalso. destruct (call_state sched out E) as (c & Hr & Hi & Hpc & _).
  pose proof (parked_reachable K caller workers n chunk dispatches ctx0 c Hno
                Hr 1%nat) as Hp.
  pose proof (final_completed K caller workers n chunk dispatches ctx0 c
                (res out) Hi Hpc 1%nat) as Hc.
  rewrite Hc in Hp by lia.
  assert (H1 : 1%nat <> 0%nat) by lia.
  destruct (Hp H1) as [X|[X|[_ X]]]; try discriminate.
  rewrite (dispatches_every 1%nat) in X by lia. discriminate.
Qed.

Lemma call_spawned sched out :
  call sched = Some out ->
  futures (trace_out out) = seq 1 (n - 1) /\
  runs (trace_out out) = map (fun k => (k, chunk k)) (seq 1 (n - 1)) /\
  waits (trace_out out) = seq 1 (n - 1).
Proof using All.
  intros H. destruct (call_state sched out H) as (c & Hr & Hi & Hpc & _ & ->).
  pose proof (spawned_reachable K caller workers n chunk dispatches ctx0 c Hr)
    as Hs.
  unfold spawned in Hs. rewrite Hpc in Hs. destruct Hs as [Hf Hru].
  split; [exact Hf|]. split.
  - rewrite Hru. unfold planned_runs. rewrite filter_all; [reflexivity|].
    intros k Hk. apply in_seq in Hk. apply dispatches_every; lia.
  - destruct Hi as [_ _ _ _ _ Hj _]. unfold joined in Hj. rewrite Hpc in Hj.
    destruct (res out) as [v|x]; [tauto|].
    destruct Hj as (tr & -> & Hw & _).
    rewrite EngineFacts.waits_app, Hw. cbn. apply app_nil_r.
Qed.

Lemma single_plan :
  num_threads = 1 \/ grain_size = end_ - begin ->
  n = 1%nat /\ chunk 0 = (begin, end_).
Proof using All.
  intros E1. pose proof forking_large as Hl.
  destruct (span_exact begin end_ grain_size) as (_ & Hspan & Hgs); trivial.
  destruct (chunk_size_exact num_threads begin end_ grain_size)
    as (Ecs & Hcs); trivial.
  destruct (num_tasks_exact num_threads begin end_ grain_size)
    as (_ & Hnt & Hcover); trivial.
  assert (Ecs' : chunk_size num_threads begin end_ grain_size = end_ - begin).
  { destruct E1 as [E1|E1]; [|lia].
    assert (Ed : divup (end_ - begin) num_threads = end_ - begin).
    { rewrite E1. unfold divup. rewrite Z.div_1_r. lia. }
    rewrite Ed in Ecs. lia. }
  rewrite Ecs' in Hcover.
  assert (Ent : num_tasks num_threads begin end_ grain_size = 1) by nia.
  split; [now rewrite Ent|].
  rewrite chunk_exact; trivial; rewrite ?Ecs', ?Ent; try lia.
  - f_equal; lia.
  - unfold is_int64 in end_int64. cbn. lia.
Qed.

Lemma call_single sched out :
  num_threads = 1 \/ grain_size = end_ - begin -> call sched = Some out ->
  res out =
    match body K begin end_ with
    | Ok r => Ok (finish K (<[0%nat := r]> (fresh_results K 1)))
    | Raise x => Raise x
    end /\
  futures (trace_out out) = [] /\ runs (trace_out out) = [] /\
  invocations (trace_out out) =
    [EvInvoke caller (chunk_context 0) begin end_] /\
  forall t cx s e, In (EvInvoke t cx s e) (trace_out out) ->
    t = caller /\ cx = chunk_context 0 /\ s = begin /\ e = end_.
Proof using All.
  intros E1 H. destruct (single_plan E1) as (En & Ec).
  destruct (call_spawned sched out H) as (Hf & Hr & _).
  rewrite En in Hf, Hr. cbn in Hf, Hr.
  destruct (call_each_once sched out 0%nat H) as (t0 & Hc0 & Ht0); [lia|].
  cbn in Ht0. subst t0. unfold the_call in Hc0. rewrite Ec in Hc0.
  cbn in Hc0.
  assert (Hin : In (EvInvoke caller (chunk_context 0) begin end_)
                   (trace_out out)).
  { assert (X : In (EvInvoke caller (chunk_context 0) begin end_)
                  (calls 0 (trace_out out))) by (rewrite Hc0; now left).
    unfold calls in X. now apply List.filter_In in X. }
  assert (Hall : forall t cx s e, In (EvInvoke t cx s e) (trace_out out) ->
            t = caller /\ cx = chunk_context 0 /\ s = begin /\ e = end_).
  { intros t cx s e Hi.
    destruct (call_only_planned sched out t cx s e H Hi)
      as (k & Hk & Ecx & Ese & Ht).
    rewrite En in Hk. assert (k = 0%nat) by lia. subst k.
    rewrite Ec in Ese. cbn in Ht. now inversion Ese. }
  assert (Hinv : invocations (trace_out out) =
                 [EvInvoke caller (chunk_context 0) begin end_]).
  { rewrite <- Hc0. unfold invocations, calls. apply List.filter_ext_in.
    intros ev Hev. destruct ev as [| | |t cx s e| | | |]; try reflexivity.
    destruct (Hall t cx s e Hev) as (_ & -> & _). reflexivity. }
  split; [|split; [exact Hf|split; [exact Hr|split; [exact Hinv|exact Hall]]]].
  destruct (body K begin end_) as [r|x] eqn:Eb.
  - destruct (res out) as [v|y] eqn:Er.
    + destruct (call_value sched out v H Er) as (rs & -> & Hlen & Hrs).
      rewrite En in Hlen, Hrs. f_equal. f_equal.
      specialize (Hrs 0%nat r). rewrite Ec in Hrs. cbn in Hrs.
      unfold fresh_results in *. destruct (buffer K) as [z|]; cbn in *.
      * destruct rs as [|a [|b rs]]; try discriminate.
        cbn in Hrs. specialize (Hrs ltac:(lia) ltac:(lia) Eb).
        now inversion Hrs.
      * now destruct rs.
    + destruct (call_raise_source sched out y H Er) as (k & Hk & Hy).
      rewrite En in Hk. assert (k = 0%nat) by lia. subst k.
      unfold raises in Hy. rewrite Ec in Hy. cbn in Hy. congruence.
  - destruct (call_raise_seen sched out _ _ _ _ x H Hin Eb) as (y & Hy).
    destruct (call_raise_source sched out y H Hy) as (k & Hk & Hyk).
    rewrite En in Hk. assert (k = 0%nat) by lia. subst k.
    unfold raises in Hyk. rewrite Ec in Hyk. cbn in Hyk. congruence.
Qed.

End Call.

(** X5: whatever the interleaving, a forking call that ends, by returning
    or by throwing, has called the body exactly once for each task of its
    plan, with the range of that task and in the context of lines 55-56:
    on the calling thread for task 0 and on a pool thread for every other
    task.  The body is called for nothing else. *)
Theorem every_chunk_runs_once {R : Type} (K : kernel R) (what : string)
    (num_threads : Z) (caller : thread) (workers : list thread)
    (begin end_ grain_size : Z) (ctx0 : thread -> RegionContext)
    (sched : list action) (out : call_out R) :
  1 <= num_threads <= INT64_MAX -> is_int64 begin -> is_int64 end_ ->
  begin < end_ -> 0 <= grain_size ->
  forks begin end_ grain_size (ctx0 caller) = true ->
  fork_join K what num_threads caller workers begin end_ grain_size ctx0
    sched = Some out ->
  let n := Z.to_nat (num_tasks num_threads begin end_ grain_size) in
  let chunk := Plan.chunk num_threads begin end_ grain_size in
  (forall k, (k < n)%nat ->
     exists t,
       calls k (trace_out out) =
         [EvInvoke t (chunk_context k) (fst (chunk k)) (snd (chunk k))] /\
       if Nat.eqb k 0 then t = caller
       else is_worker caller workers t = true) /\
  (forall t cx s e, In (EvInvoke t cx s e) (trace_out out) ->
     exists k, (k < n)%nat /\ cx = chunk_context k /\ (s, e) = chunk k).
Proof.
  intros Ht Hb He Hlt Hg Hf H. cbv zeta. split.
  - intros k Hk.
    exact (call_each_once K what num_threads caller workers begin end_
      grain_size ctx0 Ht Hb He Hlt Hg Hf sched out k H Hk).
  - intros t cx s e Hin.
    destruct (call_only_planned K what num_threads caller workers begin end_
      grain_size ctx0 Ht Hb He Hlt Hg Hf sched out t cx s e H Hin)
      as (k & Hk & Ecx & Ese & _).
    now exists k.
Qed.

Lemma every_chunk_runs_once_witness :
  exists out,
    parallel_for 4 main_thread pool 0 10 1 returns_unit all_idle
      (in_order 4 3 4) = Some out /\
    forall t cx s e, In (EvInvoke t cx s e) (trace_out out) ->
      exists k, (k < Z.to_nat (num_tasks 4 0 10 1))%nat /\
                cx = chunk_context k /\ (s, e) = Plan.chunk 4 0 10 1 k.
Proof.
  eexists. split; [vm_compute; reflexivity|].
  apply (every_chunk_runs_once (for_kernel returns_unit)
           "Invalid begin, end or grain_size in parallel_for" 4 main_thread pool
           0 10 1 all_idle (in_order 4 3 4));
    vm_compute; intuition discriminate.
Defined.

(** X6: in a forking call the loop of line 72 creates one future for each
    of the tasks 1, ..., [num_tasks - 1], in this order, and hands the
    closure of each of them to the pool once, with the range of the plan;
    the loop of line 93 waits for each of these futures once, in the same
    order.  Task 0 has no future and is never handed to the pool. *)
Theorem pool_handover_in_task_order {R : Type} (K : kernel R)
    (what : string) (num_threads : Z) (caller : thread)
    (workers : list thread) (begin end_ grain_size : Z)
    (ctx0 : thread -> RegionContext) (sched : list action)
    (out : call_out R) :
  1 <= num_threads <= INT64_MAX -> is_int64 begin -> is_int64 end_ ->
  begin < end_ -> 0 <= grain_size ->
  forks begin end_ grain_size (ctx0 caller) = true ->
  fork_join K what num_threads caller workers begin end_ grain_size ctx0
    sched = Some out ->
  let n := Z.to_nat (num_tasks num_threads begin end_ grain_size) in
  let chunk := Plan.chunk num_threads begin end_ grain_size in
  futures (trace_out out) = seq 1 (n - 1) /\
  runs (trace_out out) = map (fun k => (k, chunk k)) (seq 1 (n - 1)) /\
  waits (trace_out out) = seq 1 (n - 1).
Proof.
  intros Ht Hb He Hlt Hg Hf H. cbv zeta.
  exact (call_spawned K what num_threads caller workers begin end_
      grain_size ctx0 Ht Hb He Hlt Hg Hf sched out H).
Qed.

Lemma pool_handover_in_task_order_witness :
  exists out,
    parallel_for 4 main_thread pool 0 10 1 returns_unit all_idle
      (in_order 4 3 4) = Some out /\
    futures (trace_out out) = [1; 2; 3]%nat /\
    runs (trace_out out) =
      [(1%nat, (3, 6)); (2%nat, (6, 9)); (3%nat, (9, 10))] /\
    waits (trace_out out) = [1; 2; 3]%nat.
Proof.
  eexists. split; [vm_compute; reflexivity|].
  apply (pool_handover_in_task_order (for_kernel returns_unit)
           "Invalid begin, end or grain_size in parallel_for" 4 main_thread pool
           0 10 1 all_idle (in_order 4 3 4));
    vm_compute; intuition discriminate.
Defined.

(** X7: a forking call throws exactly when the body raises on some chunk
    of its plan, and what it throws is what the body raised on one of
    them; when the body returns on every chunk the call returns, whatever
    the interleaving. *)
Theorem throws_only_what_a_chunk_raised {R : Type} (K : kernel R)
    (what : string) (num_threads : Z) (caller : thread)
    (workers : list thread) (begin end_ grain_size : Z)
    (ctx0 : thread -> RegionContext) (sched : list action)
    (out : call_out R) :
  1 <= num_threads <= INT64_MAX -> is_int64 begin -> is_int64 end_ ->
  begin < end_ -> 0 <= grain_size ->
  forks begin end_ grain_size (ctx0 caller) = true ->
  fork_join K what num_threads caller workers begin end_ grain_size ctx0
    sched = Some out ->
  let n := Z.to_nat (num_tasks num_threads begin end_ grain_size) in
  let chunk := Plan.chunk num_threads begin end_ grain_size in
  (forall x, res out = Raise x ->
     exists k, (k < n)%nat /\
               body K (fst (chunk k)) (snd (chunk k)) = Raise x) /\
  (forall k x, (k < n)%nat ->
     body K (fst (chunk k)) (snd (chunk k)) = Raise x ->
     exists y, res out = Raise y) /\
  ((forall k, (k < n)%nat ->
      exists r, body K (fst (chunk k)) (snd (chunk k)) = Ok r) ->
   exists v, res out = Ok v).
Proof.
  intros Ht Hb He Hlt Hg Hf H n chunk.
  assert (Hsrc : forall x, res out = Raise x ->
            exists k, (k < n)%nat /\
                      body K (fst (chunk k)) (snd (chunk k)) = Raise x).
  { intros x Hx.
    exact (call_raise_source K what num_threads caller workers begin end_
      grain_size ctx0 Ht Hb He Hlt Hg Hf sched out x H Hx). }
  split; [exact Hsrc|]. split.
  - intros k x Hk Hx.
    destruct (call_each_once K what num_threads caller workers begin end_
      grain_size ctx0 Ht Hb He Hlt Hg Hf sched out k H Hk) as (t & Hc & _).
    assert (X : In (the_call chunk t k) (calls k (trace_out out)))
      by (rewrite Hc; now left).
    unfold calls in X. apply List.filter_In in X. destruct X as [X _].
    exact (call_raise_seen K what num_threads caller workers begin end_
      grain_size ctx0 Ht Hb He Hlt Hg Hf sched out t _ _ _ x H X Hx).
  - intros Hok. destruct (res out) as [v|x] eqn:E; [now exists v|].
    destruct (Hsrc x eq_refl) as (k & Hk & Hx).
    destruct (Hok k Hk) as (r & Hr). congruence.
Qed.

Lemma throws_only_what_a_chunk_raised_witness :
  exists out,
    parallel_for 4 main_thread pool 0 10 1 returns_unit all_idle
      (in_order 4 3 4) = Some out /\
    exists v, res out = Ok v.
Proof.
  eexists. split; [vm_compute; reflexivity|].
  apply (throws_only_what_a_chunk_raised (for_kernel returns_unit)
           "Invalid begin, end or grain_size in parallel_for" 4 main_thread pool
           0 10 1 all_idle (in_order 4 3 4));
    try (vm_compute; intuition discriminate).
  intros k _. exists tt. reflexivity.
Defined.

(** X8: a forking call cannot run forever and, as long as the pool has a
    thread, cannot get stuck.  Every execution of the machine from the
    state at line 72 takes at most [8 * num_tasks + 1] atomic steps, and
    when some pool thread exists every such execution can be continued to
    the end of the call. *)
Theorem every_execution_ends {R : Type} (K : kernel R) (what : string)
    (num_threads : Z) (caller : thread) (workers : list thread)
    (begin end_ grain_size : Z) (ctx0 : thread -> RegionContext)
    (sched : list action) (c : config R) :
  1 <= num_threads <= INT64_MAX -> is_int64 begin -> is_int64 end_ ->
  begin < end_ -> 0 <= grain_size ->
  forks begin end_ grain_size (ctx0 caller) = true ->
  let n := Z.to_nat (num_tasks num_threads begin end_ grain_size) in
  run K caller workers n (Plan.chunk num_threads begin end_ grain_size)
    (fun k => Plan.dispatches num_threads begin end_ grain_size (Z.of_nat k))
    sched (init K n ctx0) = Some c ->
  (length sched <= 8 * n + 1)%nat /\
  ((exists w, is_worker caller workers w = true) ->
   exists rest out,
     fork_join K what num_threads caller workers begin end_ grain_size ctx0
       (sched ++ rest) = Some out).
Proof.
  intros Ht Hb He Hlt Hg Hf n H. split.
  - exact (call_bounded K what num_threads caller workers begin end_
      grain_size ctx0 Ht Hb He Hlt Hg Hf sched c H).
  - intros Hw.
    apply (call_extends K what num_threads caller workers begin end_
      grain_size ctx0 Ht Hb He Hlt Hg Hf sched c); [now right|exact H].
Qed.

Lemma every_execution_ends_witness :
  exists rest out,
    parallel_for 4 main_thread pool 0 10 1 returns_unit all_idle
      (repeat Main 3 ++ rest) = Some out.
Proof.
  eapply (every_execution_ends (for_kernel returns_unit)
            "Invalid begin, end or grain_size in parallel_for" 4 main_thread pool
            0 10 1 all_idle (repeat Main 3));
    try (vm_compute; intuition discriminate).
  exists pool_thread. reflexivity.
Defined.

(** X9: when the pool has no thread other than the caller and the plan has
    at least two tasks, no interleaving completes the call: the closure of
    task 1 stays in the queue and the wait of line 94 never returns. *)
Theorem empty_pool_never_returns {R : Type} (K : kernel R) (what : string)
    (num_threads : Z) (caller : thread) (workers : list thread)
    (begin end_ grain_size : Z) (ctx0 : thread -> RegionContext)
    (sched : list action) :
  1 <= num_threads <= INT64_MAX -> is_int64 begin -> is_int64 end_ ->
  begin < end_ -> 0 <= grain_size ->
  forks begin end_ grain_size (ctx0 caller) = true ->
  (forall w, is_worker caller workers w = false) ->
  2 <= num_tasks num_threads begin end_ grain_size ->
  fork_join K what num_threads caller workers begin end_ grain_size ctx0
    sched = None.
Proof.
  intros Ht Hb He Hlt Hg Hf Hno Hn.
  apply (call_stuck K what num_threads caller workers begin end_
      grain_size ctx0 Ht Hb He Hlt Hg Hf sched Hno). lia.
Qed.

Lemma empty_pool_never_returns_witness :
  parallel_for 4 main_thread [] 0 10 1 returns_unit all_idle
    (in_order 4 3 4) = None.
Proof.
  apply (empty_pool_never_returns (for_kernel returns_unit)
           "Invalid begin, end or grain_size in parallel_for" 4 main_thread []
           0 10 1 all_idle (in_order 4 3 4));
    vm_compute; intuition discriminate.
Defined.

(** X10: when the plan has a single chunk, which is the case when
    [get_num_threads()] is 1 and when [grain_size] equals the length of
    the range (the test of line 44 is [>=]), a forking call stays on the
    calling thread.  The one task covers [begin, end); no future is created
    and nothing is handed to the pool; the body is called exactly once, by
    the caller, with [(begin, end)], inside a parallel region with thread
    number 0.  [parallel_for] ends as that call of the body ends, and
    [parallel_reduce] returns [sf(ident, r)] when the body returns [r] and
    throws what the body raises.  Both templates complete even when the
    pool is empty. *)
Theorem single_chunk_stays_on_caller (num_threads : Z) (caller : thread)
    (workers : list thread) (begin end_ grain_size : Z)
    (ctx0 : thread -> RegionContext) :
  1 <= num_threads <= INT64_MAX -> is_int64 begin -> is_int64 end_ ->
  begin < end_ -> 0 <= grain_size ->
  forks begin end_ grain_size (ctx0 caller) = true ->
  num_threads = 1 \/ grain_size = end_ - begin ->
  (forall f sched out,
     parallel_for num_threads caller workers begin end_ grain_size f ctx0
       sched = Some out ->
     res out = f begin end_ /\
     futures (trace_out out) = [] /\ runs (trace_out out) = [] /\
     invocations (trace_out out) =
       [EvInvoke caller (chunk_context 0) begin end_] /\
     forall t cx s e, In (EvInvoke t cx s e) (trace_out out) ->
       t = caller /\ cx = chunk_context 0 /\ s = begin /\ e = end_) /\
  (forall (R : Type) (zero ident : R) f sf sched out,
     parallel_reduce zero num_threads caller workers begin end_ grain_size
       ident f sf ctx0 sched = Some out ->
     res out = match f begin end_ ident with
               | Ok r => Ok (sf ident r)
               | Raise x => Raise x
               end /\
     futures (trace_out out) = [] /\ runs (trace_out out) = [] /\
     invocations (trace_out out) =
       [EvInvoke caller (chunk_context 0) begin end_] /\
     forall t cx s e, In (EvInvoke t cx s e) (trace_out out) ->
       t = caller /\ cx = chunk_context 0 /\ s = begin /\ e = end_) /\
  (forall f, exists sched out,
     parallel_for num_threads caller [] begin end_ grain_size f ctx0 sched =
       Some out) /\
  (forall (R : Type) (zero ident : R) f sf, exists sched out,
     parallel_reduce zero num_threads caller [] begin end_ grain_size
       ident f sf ctx0 sched = Some out).
Proof.
  intros Ht Hb He Hlt Hg Hf Hone.
  split; [|split; [|split]].
  - intros f sched out H. unfold parallel_for in H.
    destruct (call_single _ _ num_threads caller workers begin end_
      grain_size ctx0 Ht Hb He Hlt Hg Hf sched out Hone H)
      as (Hr & Hfu & Hru & Hinv & Hin).
    split; [|auto]. rewrite Hr. cbn.
    destruct (f begin end_) as [[]|x]; reflexivity.
  - intros R zero ident f sf sched out H. unfold parallel_reduce in H.
    destruct (call_single _ _ num_threads caller workers begin end_
      grain_size ctx0 Ht Hb He Hlt Hg Hf sched out Hone H)
      as (Hr & Hfu & Hru & Hinv & Hin).
    split; [|auto]. rewrite Hr. cbn.
    destruct (f begin end_ ident); reflexivity.
  - intros f. apply call_completes. left.
    destruct (single_plan (for_kernel f) ""%string num_threads caller []
                begin end_ grain_size ctx0 Ht Hb He Hlt Hg Hf Hone)
      as (En & _).
    rewrite En. lia.
  - intros R zero ident f sf. apply call_completes. left.
    destruct (single_plan (reduce_kernel zero ident f sf) ""%string
                num_threads caller [] begin end_ grain_size ctx0 Ht Hb He
                Hlt Hg Hf Hone) as (En & _).
    rewrite En. lia.
Qed.

Lemma single_chunk_stays_on_caller_witness :
  exists out,
    parallel_reduce 0 4 main_thread [] 0 10 10 0 sum_chunk Z.add all_idle
      (repeat Main 5) = Some out /\
    res out = Ok 45 /\ runs (trace_out out) = [] /\
    invocations (trace_out out) =
      [EvInvoke main_thread (chunk_context 0) 0 10].
Proof.
  eassert (E : parallel_reduce 0 4 main_thread [] 0 10 10 0 sum_chunk Z.add
                 all_idle (repeat Main 5) = Some _)
    by (vm_compute; reflexivity).
  assert (Ht : 1 <= 4 <= INT64_MAX) by (unfold INT64_MAX; lia).
  assert (Hb : is_int64 0) by (unfold is_int64, INT64_MIN, INT64_MAX; lia).
  assert (He : is_int64 10) by (unfold is_int64, INT64_MIN, INT64_MAX; lia).
  assert (Hlt : 0 < 10) by lia.
  assert (Hg : 0 <= 10) by lia.
  assert (Hf : forks 0 10 10 (all_idle main_thread) = true)
    by (vm_compute; reflexivity).
  assert (Hone : 4 = 1 \/ 10 = 10 - 0) by (right; reflexivity).
  destruct (single_chunk_stays_on_caller 4 main_thread [] 0 10 10 all_idle
              Ht Hb He Hlt Hg Hf Hone) as (_ & H & _).
  destruct (H Z 0 0 sum_chunk Z.add (repeat Main 5) _ E)
    as (Hr & _ & Hru & Hinv & _).
  eexists. split; [exact E|].
  split; [rewrite Hr; vm_compute; reflexivity|].
  split; [exact Hru|exact Hinv].
Defined.

(** X11: a call made by the body of a chunk of a forking call never forks.
    The body runs with [in_parallel_region()] true, so a nested
    [parallel_for] or [parallel_reduce] on a non-empty range takes the
    branch of lines 100-102: one direct call of its own body on the same
    thread, nothing handed to the pool, no context changed. *)
Theorem nested_call_is_sequential {R : Type} (K : kernel R) (what : string)
    (num_threads : Z) (caller : thread) (workers : list thread)
    (begin end_ grain_size : Z) (ctx0 : thread -> RegionContext)
    (sched : list action) (out : call_out R)
    (t : thread) (cx : RegionContext) (s e : Z)
    {R' : Type} (K' : kernel R') (what' : string) (num_threads' : Z)
    (workers' : list thread) (begin' end' grain_size' : Z)
    (ctx' : thread -> RegionContext) (sched' : list action) :
  forks begin end_ grain_size (ctx0 caller) = true ->
  fork_join K what num_threads caller workers begin end_ grain_size ctx0
    sched = Some out ->
  In (EvInvoke t cx s e) (trace_out out) ->
  ctx' t = cx -> begin' < end' -> 0 <= grain_size' ->
  fork_join K' what' num_threads' t workers' begin' end' grain_size' ctx'
    sched' =
  Some {| res := body K' begin' end'; ctx_out := ctx';
          trace_out := [EvInvoke t cx begin' end'] |}.
Proof.
  intros Hf H Hin Ecx Hlt Hg.
  destruct (call_contexts K what num_threads caller workers begin end_
              grain_size ctx0 sched out H Hf t cx s e Hin) as (j & Ej & _).
  rewrite call_sequential; trivial; [now rewrite Ecx|].
  right. now rewrite Ecx, Ej.
Qed.

Lemma nested_call_is_sequential_witness :
  parallel_for 4 pool_thread pool 0 100 1 returns_unit
    (fun _ => chunk_context 1) [] =
  Some {| res := Ok tt; ctx_out := fun _ => chunk_context 1;
          trace_out := [EvInvoke pool_thread (chunk_context 1) 0 100] |}.
Proof.
  eassert (E : fork_join (for_kernel returns_unit)
                 "Invalid begin, end or grain_size in parallel_for" 4
                 main_thread pool 0 10 1 all_idle (in_order 4 3 4) = Some _)
    by (vm_compute; reflexivity).
  assert (Hf : forks 0 10 1 (all_idle main_thread) = true)
    by (vm_compute; reflexivity).
  assert (Hlt : 0 < 100) by lia.
  assert (Hg : 0 <= 1) by lia.
  unfold parallel_for.
  apply (nested_call_is_sequential (for_kernel returns_unit)
           "Invalid begin, end or grain_size in parallel_for" 4 main_thread
           pool 0 10 1 all_idle (in_order 4 3 4) _ pool_thread
           (chunk_context 1) 3 6 (for_kernel returns_unit)
           "Invalid begin, end or grain_size in parallel_for" 4 pool 0 100 1
           (fun _ => chunk_context 1) [] Hf E); trivial.
  vm_compute. tauto.
Defined.

End Execution.

(** ** Every index is handed to the body once *)

Module Visits.

Import Plan Engine Invariant Observe Examples Bookkeeping Coverage IntFacts
  PlanFacts EngineFacts CallFacts Partition Planning Execution.

(** X18: when [begin + num_tasks * chunk_size <= INT64_MAX], a forking
    call that ends has handed every index of [begin, end) to the body
    exactly once, whatever the interleaving: for each such index the trace
    holds exactly one call of the body whose range contains it, and that
    call is the call of the task whose chunk contains the index. *)
Theorem every_index_is_visited_once {R : Type} (K : kernel R)
    (what : string) (num_threads : Z) (caller : thread)
    (workers : list thread) (begin end_ grain_size : Z)
    (ctx0 : thread -> RegionContext) (sched : list action)
    (out : call_out R) (i : Z) :
  1 <= num_threads <= INT64_MAX -> is_int64 begin -> is_int64 end_ ->
  begin < end_ -> 0 <= grain_size ->
  forks begin end_ grain_size (ctx0 caller) = true ->
  begin + num_tasks num_threads begin end_ grain_size *
          chunk_size num_threads begin end_ grain_size <= INT64_MAX ->
  fork_join K what num_threads caller workers begin end_ grain_size ctx0
    sched = Some out ->
  begin <= i < end_ ->
  let chunk := Plan.chunk num_threads begin end_ grain_size in
  exists t k,
    (k < Z.to_nat (num_tasks num_threads begin end_ grain_size))%nat /\
    fst (chunk k) <= i < snd (chunk k) /\
    covering i (trace_out out) =
      [EvInvoke t (chunk_context k) (fst (chunk k)) (snd (chunk k))].
Proof.
  intros Ht Hb He Hlt Hg Hf Hfit H Hi chunk.
  assert (Hl : large_enough begin end_ grain_size = true).
  { unfold forks in Hf. now apply andb_prop in Hf. }
  destruct (chunks_cover num_threads begin end_ grain_size Ht Hb He Hlt Hg
              Hl Hfit i Hi) as (k & Hk & Hin & Huniq).
  fold chunk in Hin, Huniq.
  assert (Hkn : (k < Z.to_nat (num_tasks num_threads begin end_
                                  grain_size))%nat) by lia.
  destruct (call_each_once K what num_threads caller workers begin end_
              grain_size ctx0 Ht Hb He Hlt Hg Hf sched out k H Hkn)
    as (t & Hc & _).
  exists t, k. split; [exact Hkn|]. split; [exact Hin|].
  fold chunk in Hc. unfold the_call in Hc. rewrite <- Hc.
  unfold covering, calls. apply List.filter_ext_in.
  intros ev Hev. destruct ev as [| | |t' cx s e| | | |]; try reflexivity.
  destruct (call_only_planned K what num_threads caller workers begin end_
              grain_size ctx0 Ht Hb He Hlt Hg Hf sched out t' cx s e H Hev)
    as (j & Hj & -> & Ese & _).
  fold chunk in Ese. cbn.
  assert (Es : s = fst (chunk j)) by now rewrite <- Ese.
  assert (Ee : e = snd (chunk j)) by now rewrite <- Ese.
  subst s e.
  destruct (Z.eqb_spec (Z.of_nat j) (Z.of_nat k)) as [E|Hne].
  - apply Nat2Z.inj in E. subst j.
    apply andb_true_iff. split; [apply Z.leb_le|apply Z.ltb_lt]; lia.
  - apply andb_false_iff.
    destruct (Z.leb_spec (fst (chunk j)) i) as [Hlo|]; [|now left].
    destruct (Z.ltb_spec i (snd (chunk j))) as [Hhi|]; [|now right].
    exfalso. apply Hne. f_equal. apply Huniq; lia.
Qed.

Lemma every_index_is_visited_once_witness :
  exists out,
    parallel_for 4 main_thread pool 0 10 1 returns_unit all_idle
      (in_order 4 3 4) = Some out /\
    exists t k,
      (k < Z.to_nat (num_tasks 4 0 10 1))%nat /\
      fst (Plan.chunk 4 0 10 1 k) <= 7 < snd (Plan.chunk 4 0 10 1 k) /\
      covering 7 (trace_out out) =
        [EvInvoke t (chunk_context k) (fst (Plan.chunk 4 0 10 1 k))
           (snd (Plan.chunk 4 0 10 1 k))].
Proof.
  eexists. split; [vm_compute; reflexivity|].
  apply (every_index_is_visited_once (for_kernel returns_unit)
           "Invalid begin, end or grain_size in parallel_for" 4
           main_thread pool 0 10 1 all_idle (in_order 4 3 4));
    vm_compute; intuition discriminate.
Defined.

Lemma covering_none i (tr : list event) :
  (forall ev, In ev tr -> covers i ev = false) -> covering i tr = [].
Proof.
  unfold covering. induction tr as [|ev tr IH]; intros H; cbn;
    [reflexivity|].
  rewrite (H ev) by now left. apply IH. intros ev' Hin. apply H. now right.
Qed.

(** X19: when [begin + num_tasks * chunk_size] exceeds [INT64_MAX], a
    forking call that ends has not handed the indices of its last chunk to
    the body: for every index from [begin + (num_tasks - 1) * chunk_size]
    to [end - 1] the trace holds no call of the body whose range contains
    it, whatever the interleaving, and the call does not report it. *)
Theorem lost_indices_are_never_visited {R : Type} (K : kernel R)
    (what : string) (num_threads : Z) (caller : thread)
    (workers : list thread) (begin end_ grain_size : Z)
    (ctx0 : thread -> RegionContext) (sched : list action)
    (out : call_out R) (i : Z) :
  1 <= num_threads <= INT64_MAX -> is_int64 begin -> is_int64 end_ ->
  begin < end_ -> 0 <= grain_size ->
  forks begin end_ grain_size (ctx0 caller) = true ->
  INT64_MAX < begin + num_tasks num_threads begin end_ grain_size *
                      chunk_size num_threads begin end_ grain_size ->
  fork_join K what num_threads caller workers begin end_ grain_size ctx0
    sched = Some out ->
  begin + (num_tasks num_threads begin end_ grain_size - 1) *
          chunk_size num_threads begin end_ grain_size <= i < end_ ->
  covering i (trace_out out) = [] /\
  ((forall s e, exists r, body K s e = Ok r) -> exists v, res out = Ok v).
Proof.
  intros Ht Hb He Hlt Hg Hf Hover H Hi.
  assert (Hl : large_enough begin end_ grain_size = true).
  { unfold forks in Hf. now apply andb_prop in Hf. }
  destruct (overflow_loses_last_chunk num_threads begin end_ grain_size
              Ht Hb He Hlt Hg Hl Hover) as (_ & _ & _ & _ & Hnone).
  split.
  - apply covering_none. intros ev Hev.
    destruct ev as [| | |t cx s e| | | |]; try reflexivity.
    destruct (call_only_planned K what num_threads caller workers begin end_
                grain_size ctx0 Ht Hb He Hlt Hg Hf sched out t cx s e H Hev)
      as (j & Hj & _ & Ese & _).
    cbn. apply andb_false_iff.
    destruct (Z.leb_spec s i) as [Hlo|]; [|now left].
    destruct (Z.ltb_spec i e) as [Hhi|]; [|now right].
    exfalso. apply (Hnone i j Hi); [lia|].
    rewrite <- Ese. cbn. lia.
  - intros Hok. destruct (res out) as [v|x] eqn:E; [now exists v|].
    destruct (call_raise_source K what num_threads caller workers begin end_
                grain_size ctx0 Ht Hb He Hlt Hg Hf sched out x H E)
      as (k & _ & Hx).
    unfold raises in Hx.
    destruct (Hok (fst (Plan.chunk num_threads begin end_ grain_size k))
                  (snd (Plan.chunk num_threads begin end_ grain_size k)))
      as (r & Hr).
    congruence.
Qed.

Lemma lost_indices_are_never_visited_witness :
  exists out,
    parallel_for 4 main_thread pool high_begin high_end 1 returns_unit
      all_idle (in_order 4 3 4) = Some out /\
    covering (high_end - 1) (trace_out out) = [].
Proof.
  eexists. split; [vm_compute; reflexivity|].
  apply (lost_indices_are_never_visited (for_kernel returns_unit)
           "Invalid begin, end or grain_size in parallel_for" 4
           main_thread pool high_begin high_end 1 all_idle
           (in_order 4 3 4) _ (high_end - 1));
    vm_compute; intuition discriminate.
Defined.

End Visits.

(** ** [parallel_reduce] and the order of its chunks *)

Module Reduction.

Import Plan Engine Observe Examples IntFacts PlanFacts ReduceFacts.

(** X12: the result of a forking [parallel_reduce] does not depend on the
    interleaving.  When the body returns on every range, the call returns
    [sf(... sf(sf(ident, r_0), r_1) ..., r_(n-1))], where [r_k] is what the
    body returned for chunk [k]: the partial results are combined in task
    order, whatever the order in which the chunks were computed, so [sf]
    need be neither commutative nor associative for the result to be
    reproducible. *)
Theorem reduce_folds_chunks_in_task_order {R : Type} (zero : R)
    (num_threads : Z) (caller : thread) (workers : list thread)
    (begin end_ grain_size : Z) (ident : R)
    (f : Z -> Z -> R -> outcome R) (sf : R -> R -> R)
    (ctx0 : thread -> RegionContext) (F : Z -> Z -> R)
    (sched : list action) (out : call_out R) :
  1 <= num_threads <= INT64_MAX -> is_int64 begin -> is_int64 end_ ->
  begin < end_ -> 0 <= grain_size ->
  forks begin end_ grain_size (ctx0 caller) = true ->
  (forall s e, f s e ident = Ok (F s e)) ->
  parallel_reduce zero num_threads caller workers begin end_ grain_size
    ident f sf ctx0 sched = Some out ->
  let chunk := Plan.chunk num_threads begin end_ grain_size in
  res out =
    Ok (fold_left sf
          (map (fun k => F (fst (chunk k)) (snd (chunk k)))
               (seq 0 (Z.to_nat (num_tasks num_threads begin end_
                                   grain_size))))
          ident).
Proof.
  intros Ht Hb He Hlt Hg Hf HF H chunk.
  now apply (reduce_by_chunks zero num_threads caller workers begin end_
               grain_size ident f sf ctx0 Ht Hb He Hlt Hg F HF sched out).
Qed.

Lemma reduce_folds_chunks_in_task_order_witness :
  exists out,
    parallel_reduce [] 4 main_thread pool 0 10 1 []
      (fun s e acc => Ok (acc ++ indices s e)) (@app Z) all_idle
      (in_order 4 3 4) = Some out /\
    res out = Ok [0; 1; 2; 3; 4; 5; 6; 7; 8; 9].
Proof.
  eexists. split; [vm_compute; reflexivity|].
  rewrite (reduce_folds_chunks_in_task_order [] 4 main_thread pool 0 10 1 []
             (fun s e acc => Ok (acc ++ indices s e)) (@app Z) all_idle
             (fun s e => indices s e) (in_order 4 3 4) _);
    vm_compute; intuition discriminate.
Defined.

(** X13: when [sf] is associative and [ident] is a right identity of
    [sf], the body folds [sf] over the elements of its range starting from
    its third argument, and [begin + num_tasks * chunk_size <= INT64_MAX],
    every completed call of [parallel_reduce] returns the sequential fold
    over [begin, end), on the forking branch and on the sequential one,
    for every grain size, thread count and interleaving.  [sf] need not be
    commutative. *)
Theorem reduce_equals_sequential_fold {R : Type} (zero : R)
    (num_threads : Z) (caller : thread) (workers : list thread)
    (begin end_ grain_size : Z) (ident : R)
    (f : Z -> Z -> R -> outcome R) (sf : R -> R -> R) (g : Z -> R)
    (ctx0 : thread -> RegionContext)
    (sched : list action) (out : call_out R) :
  1 <= num_threads <= INT64_MAX -> is_int64 begin -> is_int64 end_ ->
  begin < end_ -> 0 <= grain_size ->
  (forall a b c, sf a (sf b c) = sf (sf a b) c) ->
  (forall a, sf a ident = a) ->
  (forall s e, f s e ident = Ok (fold_range sf g s e ident)) ->
  begin + num_tasks num_threads begin end_ grain_size *
          chunk_size num_threads begin end_ grain_size <= INT64_MAX ->
  parallel_reduce zero num_threads caller workers begin end_ grain_size
    ident f sf ctx0 sched = Some out ->
  res out = Ok (fold_range sf g begin end_ ident).
Proof.
  intros Ht Hb He Hlt Hg Ha Hi Hfold Hfit H.
  apply (reduce_sequential zero num_threads caller workers begin end_
           grain_size ident f sf ctx0 Ht Hb He Hlt Hg
           (fun s e => fold_range sf g s e ident) Hfold g Ha Hi
           (fun s e => eq_refl) Hfit sched out H).
Qed.

Lemma reduce_equals_sequential_fold_witness :
  exists out,
    parallel_reduce [] 4 main_thread pool 0 10 1 []
      (fun s e acc => Ok (fold_range (@app Z) (fun i => [i]) s e acc))
      (@app Z) all_idle (in_order 4 3 4) = Some out /\
    res out = Ok [0; 1; 2; 3; 4; 5; 6; 7; 8; 9].
Proof.
  eexists. split; [vm_compute; reflexivity|].
  rewrite (reduce_equals_sequential_fold [] 4 main_thread pool 0 10 1 []
             (fun s e acc => Ok (fold_range (@app Z) (fun i => [i]) s e acc))
             (@app Z) (fun i => [i]) all_idle (in_order 4 3 4) _);
    try (vm_compute; intuition discriminate).
  - intros a b c. apply app_assoc.
  - intros a. apply app_nil_r.
Defined.

End Reduction.

(** ** The life of the inter-op pool *)

Module PoolLifecycle.

Import Interop Lifecycle IntFacts InteropFacts.

Section Pool.

Variable hardware_concurrency : Z.

Local Abbreviation serve := (serve hardware_concurrency).
Local Abbreviation session := (session hardware_concurrency).
Local Abbreviation broken := (broken hardware_concurrency).

Lemma session_app qs1 qs2 st :
  session (qs1 ++ qs2) st =
  let (rs1, st1) := session qs1 st in
  let (rs2, st2) := session qs2 st1 in
  (rs1 ++ rs2, st2).
Proof.
  revert st. induction qs1 as [|q qs1 IH]; intros st; cbn.
  - now destruct (session qs2 st).
  - destruct (serve q st) as [r st1]. rewrite IH.
    destruct (session qs1 st1) as [rs1 st2].
    now destruct (session qs2 st2).
Qed.

(** While nothing is committed, passive calls change nothing. *)
Lemma session_passive qs st :
  num_interop_threads st = -1 -> forallb passive qs = true ->
  session qs st = (map (answer_unset hardware_concurrency) qs, st).
Proof.
  intros Hst. induction qs as [|q qs IH]; intros Hp; cbn in *;
    [reflexivity|].
  apply andb_prop in Hp. destruct Hp as [Hq Hp].
  assert (E : serve q st = (answer_unset hardware_concurrency q, st)).
  { destruct q as [m| |]; cbn in *; try discriminate.
    - apply Z.eqb_eq in Hq. subst m. reflexivity.
    - now rewrite get_unset. }
  rewrite E, IH by exact Hp. reflexivity.
Qed.

Lemma serve_committed n q st :
  0 < n <= INT_MAX -> holds n st ->
  fst (serve q st) = answer_committed n q /\
  holds n (snd (serve q st)) /\
  launched (snd (serve q st)) =
    (launched st + launches [q])%nat.
Proof.
  intros Hn Hst. destruct st as [v gp cp k]. unfold holds in *. cbn in Hst.
  assert (En : to_size_t n = n).
  { apply to_size_t_id. unfold is_size_t, two64, INT_MAX in *. lia. }
  assert (Hnn : (0 <? n) = true) by (apply Z.ltb_lt; lia).
  assert (Hn1 : (n =? -1) = false) by (apply Z.eqb_neq; lia).
  assert (Hnz : (n =? to_size_t n) = true) by (rewrite En; apply Z.eqb_refl).
  destruct q as [m| |]; cbn; unfold set_num_interop_threads,
    get_num_interop_threads, launch, get_pool, createC10ThreadPool,
    PTThreadPool; cbn.
  - destruct (Z.eqb_spec m 0) as [->|Hm]; cbn; [split; [reflexivity|];
      split; [exact Hst|lia]|].
    destruct Hst as [(-> & -> & ->)|(-> & -> & ->)]; cbn; rewrite ?Hn1; cbn;
      (split; [reflexivity|]; split; [auto|lia]).
  - destruct Hst as [(-> & -> & ->)|(-> & -> & ->)]; cbn;
      rewrite ?Hnn, ?En; cbn; (split; [reflexivity|]; split; [auto|lia]).
  - destruct Hst as [(-> & -> & ->)|(-> & -> & ->)]; cbn;
      rewrite ?Hnn, ?Hnz; cbn; (split; [reflexivity|]; split; [auto|lia]).
Qed.

Lemma session_committed n qs : forall st,
  0 < n <= INT_MAX -> holds n st ->
  fst (session qs st) = map (answer_committed n) qs /\
  holds n (snd (session qs st)) /\
  launched (snd (session qs st)) = (launched st + launches qs)%nat.
Proof.
  induction qs as [|q qs IH]; intros st Hn Hst; cbn.
  - repeat split; trivial; unfold launches; cbn; lia.
  - destruct (serve_committed n q st Hn Hst) as (Hr & Hh & Hl).
    destruct (serve q st) as [r st1]. cbn in Hr, Hh, Hl.
    destruct (IH st1 Hn Hh) as (Hrs & Hh2 & Hl2).
    destruct (session qs st1) as [rs st2]. cbn in *.
    subst. repeat split; trivial.
    rewrite Hl2, Hl. unfold launches. cbn. destruct q; cbn; lia.
Qed.

Lemma serve_broken q st :
  0 <= hardware_concurrency < 2 ^ 32 -> broken st ->
  fst (serve q st) = answer_broken q /\ broken (snd (serve q st)) /\
  launched (snd (serve q st)) = launched st.
Proof.
  intros Hhw Hst. destruct st as [v gp cp k]. unfold Lifecycle.broken in *.
  cbn in Hst. destruct Hst as (-> & -> & ->).
  assert (E2 : to_size_t (-2) = 18446744073709551614) by reflexivity.
  assert (Hne : (hardware_concurrency =? 18446744073709551614) = false)
    by (apply Z.eqb_neq; lia).
  destruct q as [m| |]; cbn; unfold set_num_interop_threads,
    get_num_interop_threads, launch, get_pool, createC10ThreadPool,
    PTThreadPool; cbn.
  - destruct (Z.eqb_spec m 0); cbn; auto.
  - rewrite E2, Hne. cbn. auto.
  - rewrite E2, Hne. cbn. auto.
Qed.

Lemma session_broken qs : forall st,
  0 <= hardware_concurrency < 2 ^ 32 -> broken st ->
  fst (session qs st) = map answer_broken qs /\
  launched (snd (session qs st)) = launched st.
Proof.
  induction qs as [|q qs IH]; intros st Hhw Hst; cbn; [auto|].
  destruct (serve_broken q st Hhw Hst) as (Hr & Hb & Hl).
  destruct (serve q st) as [r st1]. cbn in Hr, Hb, Hl.
  destruct (IH st1 Hhw Hb) as (Hrs & Hl2).
  destruct (session qs st1) as [rs st2]. cbn in *.
  subst. split; [reflexivity|congruence].
Qed.

End Pool.

(** X14: a value committed by [set_num_interop_threads] stays.  On a fresh
    process, after any number of calls of the getter and of the setter
    with 0 (which return the hardware hint and nothing, and commit
    nothing), a call of the setter with [0 < n <= INT_MAX] returns, and
    from then on, in whatever order the three entry points are called, the
    getter returns [n], [launch] returns, the setter throws for every
    non-zero argument and returns for 0.  Every [launch] hands its closure
    to the pool, and the pool, once built, has [n] threads. *)
Theorem committed_value_is_stable (hardware_concurrency n : Z)
    (before after : list request) :
  0 < n <= INT_MAX -> forallb passive before = true ->
  let run :=
    session hardware_concurrency (before ++ SetThreads n :: after) initial in
  fst run =
    map (answer_unset hardware_concurrency) before ++
    Returns :: map (answer_committed n) after /\
  launched (snd run) = launches after /\
  (get_pool_static (snd run) = None \/ get_pool_static (snd run) = Some n).
Proof.
  intros Hn Hp run. unfold run.
  rewrite session_app,
    (session_passive hardware_concurrency before initial eq_refl Hp).
  cbn [session serve]. rewrite (set_commits n initial Hn eq_refl).
  match goal with
  | |- context [session _ after ?st] =>
      destruct (session_committed hardware_concurrency n after st Hn)
        as (Hr & Hh & Hl); [left; cbn; auto|];
      destruct (session hardware_concurrency after st) as [rs st2]
  end.
  cbn in *. subst rs. split; [reflexivity|]. split; [exact Hl|].
  destruct Hh as [(_ & -> & _)|(_ & -> & _)]; auto.
Qed.

Lemma committed_value_is_stable_witness :
  fst (session 8
         ([GetThreads; SetThreads 0] ++
          SetThreads 4 :: [GetThreads; Launch; SetThreads 2; GetThreads])
         initial) =
  [Size 8; Returns; Returns; Size 4; Returns; Throws too_late; Size 4].
Proof.
  apply (committed_value_is_stable 8 4 [GetThreads; SetThreads 0]
           [GetThreads; Launch; SetThreads 2; GetThreads]);
    [unfold INT_MAX; lia|reflexivity].
Defined.

(** X15: a [launch] that finds nothing committed breaks the pool for
    good.  On a fresh process, after any number of calls of the getter and
    of the setter with 0, the first [launch] throws the assertion failure
    of line 45, and from then on every [launch] and every call of the
    getter throws it again and the setter throws for every non-zero
    argument: no closure is ever handed to a pool. *)
Theorem launch_before_request_is_fatal (hardware_concurrency : Z)
    (before after : list request) :
  0 <= hardware_concurrency < 2 ^ 32 -> forallb passive before = true ->
  let run :=
    session hardware_concurrency (before ++ Launch :: after) initial in
  fst run =
    map (answer_unset hardware_concurrency) before ++
    Throws size_mismatch :: map answer_broken after /\
  launched (snd run) = 0%nat.
Proof.
  intros Hhw Hp run. unfold run.
  rewrite session_app,
    (session_passive hardware_concurrency before initial eq_refl Hp).
  cbn [session serve].
  destruct (launch_unset_fails hardware_concurrency 0%nat Hhw) as (E & _).
  fold initial in E. rewrite E.
  match goal with
  | |- context [session _ after ?st] =>
      destruct (session_broken hardware_concurrency after st Hhw)
        as (Hr & Hl); [repeat split|];
      destruct (session hardware_concurrency after st) as [rs st2]
  end.
  cbn in *. subst rs. split; [reflexivity|exact Hl].
Qed.

Lemma launch_before_request_is_fatal_witness :
  fst (session 8
         ([GetThreads] ++ Launch :: [GetThreads; SetThreads 4; Launch])
         initial) =
  [Size 8; Throws size_mismatch; Throws size_mismatch; Throws too_late;
   Throws size_mismatch].
Proof.
  apply (launch_before_request_is_fatal 8 [GetThreads]
           [GetThreads; SetThreads 4; Launch]); [lia|reflexivity].
Defined.

(** X16: a request for more than [INT_MAX] threads is accepted and not
    honoured.  The setter stores its [size_t] argument in an [int]: for
    [INT_MAX < n < 2^64] the call on a fresh process returns normally,
    what is stored is not [n], and the getter does not return [n]
    afterwards. *)
Theorem oversized_request_is_not_honoured (hardware_concurrency n : Z) :
  0 < hardware_concurrency <= INT_MAX -> INT_MAX < n < two64 ->
  let st := snd (set_num_interop_threads n initial) in
  fst (set_num_interop_threads n initial) = Value tt /\
  num_interop_threads st = to_int n /\
  num_interop_threads st <> n /\
  fst (get_num_interop_threads hardware_concurrency st) <> Value n.
Proof.
  intros Hhw Hn st.
  assert (Hnz : (n =? 0) = false)
    by (apply Z.eqb_neq; unfold INT_MAX in *; lia).
  assert (Hv : - 2 ^ 31 <= to_int n <= INT_MAX).
  { unfold to_int, INT_MAX.
    pose proof (Z.mod_pos_bound (n + 2 ^ 31) (2 ^ 32) ltac:(lia)). lia. }
  assert (Est : st = {| num_interop_threads := to_int n;
                        get_pool_static := None;
                        createC10ThreadPool_static := None;
                        launched := 0 |}).
  { unfold st, set_num_interop_threads. rewrite Hnz. reflexivity. }
  split; [unfold set_num_interop_threads; now rewrite Hnz|].
  rewrite Est. cbn [num_interop_threads]. split; [reflexivity|].
  split; [lia|].
  unfold get_num_interop_threads. cbn [num_interop_threads].
  destruct (Z.ltb_spec 0 (to_int n)) as [Hpos|Hneg].
  - cbn. rewrite to_size_t_id
      by (unfold is_size_t, two64, INT_MAX in *; lia).
    intros X. inversion X. lia.
  - destruct (Z.eqb_spec (to_int n) (-1)) as [E1|Hne].
    + cbn. intros X. inversion X. lia.
    + unfold get_pool, createC10ThreadPool, PTThreadPool.
      cbn [get_pool_static createC10ThreadPool_static num_interop_threads
           launched].
      assert (Hlt : (0 <? to_int n) = false) by (apply Z.ltb_ge; lia).
      rewrite Hlt. cbn [negb Z.eqb].
      assert (Hmis : (hardware_concurrency =? to_size_t (to_int n)) = false).
      { apply Z.eqb_neq. unfold to_size_t, two64, INT_MAX in *.
        destruct (Z.eq_dec (to_int n) 0) as [E0|H0].
        - rewrite E0, Z.mod_0_l by lia. lia.
        - rewrite <- (Z.mod_add _ 1) by lia.
          rewrite Z.mod_small by lia. lia. }
      rewrite Hmis. cbn. discriminate.
Qed.

Lemma oversized_request_is_not_honoured_witness :
  num_interop_threads (snd (set_num_interop_threads (2 ^ 32 + 4) initial)) <>
    2 ^ 32 + 4 /\
  fst (get_num_interop_threads 8
         (snd (set_num_interop_threads (2 ^ 32 + 4) initial))) <>
    Value (2 ^ 32 + 4).
Proof.
  destruct (oversized_request_is_not_honoured 8 (2 ^ 32 + 4))
    as (_ & _ & H1 & H2); [unfold INT_MAX; lia|unfold INT_MAX, two64; lia|].
  split; [exact H1|exact H2].
Defined.

(** X17: the size of the shared pool is fixed by the first call of the
    creator, whether that call succeeds or fails an assertion: the static
    of line 36 is initialised before lines 41-45 run.  The first call
    builds a pool of [pool_size] threads, or of [hardware_concurrency()]
    threads when [pool_size <= 0]; every later call finds that pool, leaves
    it as it is, and returns it exactly when it is made with device 0,
    without [create_new] and with that size. *)
Theorem creator_size_is_fixed_by_first_call (hardware_concurrency : Z)
    (device1 size1 : Z) (new1 : bool) (st : state) :
  createC10ThreadPool_static st = None ->
  let built := if 0 <? size1 then size1 else hardware_concurrency in
  createC10ThreadPool_static
    (snd (createC10ThreadPool hardware_concurrency device1 size1 new1 st)) =
    Some built /\
  forall (st' : state) (device2 size2 : Z) (new2 : bool),
    createC10ThreadPool_static st' = Some built ->
    let later :=
      createC10ThreadPool hardware_concurrency device2 size2 new2 st' in
    createC10ThreadPool_static (snd later) = Some built /\
    (forall p, fst later = Value p ->
       p = built /\ device2 = 0 /\ new2 = false /\
       built = to_size_t size2) /\
    (device2 = 0 -> new2 = false -> built = to_size_t size2 ->
     fst later = Value built).
Proof.
  intros Hst built. split.
  - unfold createC10ThreadPool, PTThreadPool. rewrite Hst. fold built.
    destruct (negb (device1 =? 0)); [reflexivity|].
    destruct new1; [reflexivity|].
    destruct (negb (built =? to_size_t size1)); reflexivity.
  - intros st' device2 size2 new2 E1 later.
    unfold later, createC10ThreadPool. rewrite E1.
    destruct (Z.eqb_spec device2 0) as [Hd|Hd]; cbn [negb].
    2: { split; [reflexivity|]. split; [discriminate|].
         intros; contradiction. }
    destruct new2.
    { split; [reflexivity|]. split; discriminate. }
    destruct (Z.eqb_spec built (to_size_t size2)) as [Hs|Hs]; cbn [negb].
    + split; [reflexivity|]. split; [|reflexivity].
      intros p X. inversion X. auto.
    + split; [reflexivity|]. split; [discriminate|]. intros; contradiction.
Qed.

Lemma creator_size_is_fixed_by_first_call_witness :
  createC10ThreadPool_static
    (snd (createC10ThreadPool 8 1 4 false initial)) = Some 4 /\
  fst (createC10ThreadPool 8 0 4 false
         (snd (createC10ThreadPool 8 1 4 false initial))) = Value 4.
Proof.
  destruct (creator_size_is_fixed_by_first_call 8 1 4 false initial eq_refl)
    as (H1 & H2).
  split; [exact H1|].
  apply (H2 (snd (createC10ThreadPool 8 1 4 false initial)) 0 4 false H1);
    reflexivity.
Defined.

End PoolLifecycle.
